(** * TransisiDB: a shallow embedding of the proxy core and its properties

    The development follows the Go packages of the repository:
    - [Float64]   IEEE-754 binary64 arithmetic as Go's [float64] performs it
                  (on top of the Standard Library's executable [SpecFloat]);
    - [Rounding]  package [rounding] (the rounding engine);
    - [Protocol]  package [protocol] (packet framing);
    - [Breaker]   package [proxy], circuit breaker;
    - [Pool]      package [proxy], backend connection pool;
    - [Backfill]  package [backfill] (worker loop);
    - [Sqlparser], [Parser], [Session]  the query rewriting pipeline;
    - [Wire]      package [protocol], length-encoded values and result packets;
    - [RoundingModes]  the modes ArithmeticRound and NoRound of the engine;
    - [BreakerRuns], [PoolChannel]  sequences of calls on the breaker, the
                  idle channel of the pool;
    - [Orchestrator]  package [dualwrite] (InterceptAndRewrite);
    - [Replica]   package [replica] (read routing and health status);
    - [BackfillTable]  package [backfill] on a table with several configured
                  columns, the entry a [range] over the column map yields
                  first being an input.

    Definitions come first, the theorems about them follow. *)

From Stdlib Require Import ZArith QArith Bool List Lia.
From Stdlib Require Import Strings.Byte Strings.Ascii.
From Stdlib Require Import SpecFloat.
From stdpp Require Import gmap strings list fin_maps.

Local Open Scope Z_scope.

(* ===================================================================== *)
(** * Go's float64                                                        *)
(* ===================================================================== *)

Module Float64.

Definition prec : Z := 53.
Definition emax : Z := 1024.

Abbreviation float64 := spec_float.

Definition fadd : float64 -> float64 -> float64 := SFadd prec emax.
Definition fsub : float64 -> float64 -> float64 := SFsub prec emax.
Definition fmul : float64 -> float64 -> float64 := SFmul prec emax.
Definition fdiv : float64 -> float64 -> float64 := SFdiv prec emax.
Definition fneg : float64 -> float64 := SFopp.
Definition flt : float64 -> float64 -> bool := SFltb.
Definition fgt (x y : float64) : bool := SFltb y x.
Definition feq : float64 -> float64 -> bool := SFeqb.

(** [float64(n)] for an integer [n]: the nearest binary64, ties to even. *)
Definition of_Z (n : Z) : float64 := binary_normalize prec emax n 0 false.

(** The binary64 nearest to the rational [n / d] ([d > 0]).  The division
    of [SpecFloat] rounds the exact quotient of the two integers once. *)
Definition of_ratio (n : Z) (d : positive) : float64 :=
  match n with
  | Z0 => S754_zero false
  | Zpos m => SFdiv prec emax (S754_finite false m 0) (S754_finite false d 0)
  | Zneg m => SFdiv prec emax (S754_finite true m 0) (S754_finite false d 0)
  end.

Definition is_finite (x : float64) : bool :=
  match x with
  | S754_zero _ | S754_finite _ _ _ => true
  | _ => false
  end.

(** The exact rational value of a finite binary64 (0 for the others). *)
Definition to_Q (x : float64) : Q :=
  match x with
  | S754_finite s m e =>
      let n := if s then Zneg m else Zpos m in
      match e with
      | Z0 => n # 1
      | Zpos k => (n * 2 ^ Zpos k) # 1
      | Zneg k => n # (2 ^ k)%positive
      end
  | _ => 0 # 1
  end.

(** Integer part toward zero of a finite binary64 (0 for the others). *)
Definition trunc_Z (x : float64) : Z :=
  match x with
  | S754_finite s m e =>
      let a := match e with
               | Z0 => Zpos m
               | Zpos k => Zpos m * 2 ^ Zpos k
               | Zneg k => Zpos m / 2 ^ Zpos k
               end in
      if s then - a else a
  | _ => 0
  end.

Definition is_integral (x : float64) : bool :=
  match x with
  | S754_finite _ m (Zneg k) => (Zpos m mod 2 ^ Zpos k =? 0)
  | _ => true
  end.

(** [math.Floor]: special cases are returned as they are; a negative input
    with a fractional part goes one below its integer part. *)
Definition Floor (x : float64) : float64 :=
  match x with
  | S754_finite s m e =>
      if is_integral x then x
      else if s then of_Z (trunc_Z x - 1)
      else of_Z (trunc_Z x)
  | _ => x
  end.

(** [math.Ceil(x) = -Floor(-x)]. *)
Definition Ceil (x : float64) : float64 := fneg (Floor (fneg x)).

(** [math.Trunc]: the integer part, keeping the sign of the input. *)
Definition Trunc (x : float64) : float64 :=
  match x with
  | S754_finite s m e =>
      if is_integral x then x
      else binary_normalize prec emax (trunc_Z x) 0 s
  | _ => x
  end.

(** [math.Round]: nearest integer, halves away from zero, sign kept. *)
Definition Round (x : float64) : float64 :=
  match x with
  | S754_finite s m e =>
      if is_integral x then x
      else
        let t := trunc_Z x in
        let twice_frac_ge_1 :=
          match e with
          | Zneg k => (2 ^ Zpos k <=? 2 * (Zpos m mod 2 ^ Zpos k))
          | _ => false
          end in
        let r := if twice_frac_ge_1 then (if s then t - 1 else t + 1) else t in
        binary_normalize prec emax r 0 s
  | _ => x
  end.

(** [int64(x)]: truncation toward zero; what does not fit (and NaN, the
    infinities) gives the "integer indefinite" value of amd64. *)
Definition to_int64 (x : float64) : Z :=
  match x with
  | S754_zero _ => 0
  | S754_finite _ _ _ =>
      let z := trunc_Z x in
      if (- 2 ^ 63 <=? z) && (z <? 2 ^ 63) then z else - 2 ^ 63
  | _ => - 2 ^ 63
  end.

(** [math.Pow(10, float64(p))].  For [0 <= p <= 22] the power is a binary64
    and Go returns it exactly; elsewhere the nearest binary64 is taken. *)
Definition Pow10 (p : Z) : float64 :=
  match p with
  | Z0 => of_Z 1
  | Zpos _ => of_Z (10 ^ p)
  | Zneg k => of_ratio 1 (10 ^ k)%positive
  end.

End Float64.

(* ===================================================================== *)
(** * Package rounding                                                    *)
(* ===================================================================== *)

Module Rounding.
Import Float64.

Inductive Strategy :=
| BankersRound
| ArithmeticRound
| NoRound
| OtherStrategy (name : string).

Record Engine := NewEngine { strategy : Strategy; precision : Z }.

(** The untyped constant [epsilon = 1e-9] makes [0.5-epsilon] and
    [0.5+epsilon] exact constants; each is rounded once to binary64. *)
Definition half_minus_epsilon : float64 := of_ratio 499999999 1000000000.
Definition half_plus_epsilon : float64 := of_ratio 500000001 1000000000.

Definition bankersRound (e : Engine) (value : float64) : float64 :=
  let multiplier := Pow10 (precision e) in
  let adjusted := fmul value multiplier in
  let floor := Floor adjusted in
  let ceil := Ceil adjusted in
  let fraction := fsub adjusted floor in
  if flt fraction half_minus_epsilon then fdiv floor multiplier
  else if fgt fraction half_plus_epsilon then fdiv ceil multiplier
  else if Z.rem (to_int64 floor) 2 =? 0 then fdiv floor multiplier
  else fdiv ceil multiplier.

Definition arithmeticRound (e : Engine) (value : float64) : float64 :=
  let multiplier := Pow10 (precision e) in
  fdiv (Float64.Round (fmul value multiplier)) multiplier.

Definition noRound (e : Engine) (value : float64) : float64 :=
  let multiplier := Pow10 (precision e) in
  fdiv (Trunc (fmul value multiplier)) multiplier.

Definition Round (e : Engine) (value : float64) : float64 :=
  match strategy e with
  | BankersRound => bankersRound e value
  | ArithmeticRound => arithmeticRound e value
  | NoRound => noRound e value
  | OtherStrategy _ => bankersRound e value
  end.

Definition ConvertIDRtoIDN (e : Engine) (idrValue : Z) (ratio : Z) : float64 :=
  let idnValue := fdiv (of_Z idrValue) (of_Z ratio) in
  Round e idnValue.

(** ** The rounding law in the specification's words

    [s / r] rounded half-to-even to [p] fractional digits, in exact
    arithmetic: the integer [half_even_scaled s r p] over [10 ^ p]. *)
Definition half_even_div (n d : Z) : Z :=
  let q := n / d in
  let r2 := 2 * (n mod d) in
  if r2 <? d then q
  else if d <? r2 then q + 1
  else if Z.even q then q else q + 1.

Definition half_even_scaled (s r p : Z) : Z := half_even_div (s * 10 ^ p) r.

Definition spec_bankers (s r p : Z) : Q :=
  half_even_scaled s r p # Z.to_pos (10 ^ p).

(** The binary64 nearest to that exact result. *)
Definition spec_bankers_f64 (s r p : Z) : float64 :=
  of_ratio (half_even_scaled s r p) (Z.to_pos (10 ^ p)).

(** ** The two readings of the rounding law *)

(** The rounding law as the specification states it: the conversion
    returns exactly the rational [spec_bankers s r p]. *)
Definition exact_law (s r p : Z) : Prop :=
  let x := ConvertIDRtoIDN (NewEngine BankersRound p) s r in
  is_finite x = true /\ (to_Q x == spec_bankers s r p)%Q.

(** What holds of the binary64 result: it is the binary64 nearest to the
    exact result (equal as numbers, so -0 stands for 0). *)
Definition agrees (s r p : Z) : bool :=
  feq (ConvertIDRtoIDN (NewEngine BankersRound p) s r) (spec_bankers_f64 s r p).

Definition ratios : list Z := [10; 100; 1000; 10000].

(** [f] holds on [lo], [lo + 1], ..., [n] values in all. *)
Fixpoint forall_from (n : nat) (lo : Z) (f : Z -> bool) : bool :=
  match n with
  | O => true
  | S n' => f lo && forall_from n' (lo + 1) f
  end.

Definition check_box (bound : Z) : bool :=
  forallb
    (fun r =>
       forall_from 11 0
         (fun p => forall_from (Z.to_nat (2 * bound + 1)) (- bound)
                     (fun s => agrees s r p)))
    ratios.

Definition box_bound : Z := 250.

End Rounding.

(* ===================================================================== *)
(** * Package protocol: packet framing                                    *)
(* ===================================================================== *)

Module Protocol.

Abbreviation byte := Byte.byte.

(** Go's conversion [byte(n)] keeps the low eight bits. *)
Definition byte_of_Z (n : Z) : byte :=
  match Byte.of_N (Z.to_N (n mod 256)) with
  | Some b => b
  | None => Byte.x00
  end.

(** Go's conversion [uint32(b)]. *)
Definition Z_of_byte (b : byte) : Z := Z.of_N (Byte.to_N b).

Record Packet := mkPacket {
  Length : Z;
  SequenceID : byte;
  Payload : list byte
}.

Inductive error :=
| EOF
| ErrUnexpectedEOF
| ErrPacketTooLarge (length : Z).

(** [io.ReadFull(r, buf)] with [len(buf) = n] on a reader holding the
    bytes [r]: the bytes read and the rest of the reader. *)
Definition ReadFull (r : list byte) (n : nat) : error + (list byte * list byte) :=
  match n with
  | O => inr ([], r)
  | _ =>
      match r with
      | [] => inl EOF
      | _ => if (n <=? length r)%nat then inr (firstn n r, skipn n r)
             else inl ErrUnexpectedEOF
      end
  end.

Definition ReadPacket (r : list byte) : error + (Packet * list byte) :=
  match ReadFull r 4 with
  | inl err => inl err
  | inr (header, r1) =>
      let h i := Z_of_byte (nth i header Byte.x00) in
      let length := Z.lor (Z.lor (h 0%nat) (Z.shiftl (h 1%nat) 8)) (Z.shiftl (h 2%nat) 16) in
      let sequenceID := nth 3 header Byte.x00 in
      match ReadFull r1 (Z.to_nat length) with
      | inl err => inl err
      | inr (payload, r2) =>
          inr (mkPacket length sequenceID payload, r2)
      end
  end.

(** [WritePacket] on a writer that accepts every write (a buffer): the
    bytes written, header first. *)
Definition WritePacket (sequenceID : byte) (payload : list byte) : error + list byte :=
  let length := Z.of_nat (List.length payload) in
  if 16777215 <? length then inl (ErrPacketTooLarge length)
  else
    let header :=
      [ byte_of_Z length;
        byte_of_Z (Z.shiftr length 8);
        byte_of_Z (Z.shiftr length 16);
        sequenceID ] in
    inr (header ++ payload).

End Protocol.

(* ===================================================================== *)
(** * Package proxy: circuit breaker                                      *)
(* ===================================================================== *)

Module Breaker.

Inductive CircuitBreakerState := StateClosed | StateOpen | StateHalfOpen.

Definition state_eqb (a b : CircuitBreakerState) : bool :=
  match a, b with
  | StateClosed, StateClosed | StateOpen, StateOpen
  | StateHalfOpen, StateHalfOpen => true
  | _, _ => false
  end.

(** Durations and instants are nanosecond counts. *)
Record CircuitBreakerConfig := mkConfig {
  MaxFailures : Z;
  Timeout : Z;
  MaxRequests : Z
}.

Definition DefaultCircuitBreakerConfig : CircuitBreakerConfig :=
  mkConfig 5 30000000000 3.

(** [uint64] and [int] arithmetic wrap around. *)
Definition wrap_u64 (n : Z) : Z := n mod 2 ^ 64.
Definition wrap_int (n : Z) : Z := (n + 2 ^ 63) mod 2 ^ 64 - 2 ^ 63.

(** [lastFailureTime] starts as the zero [time.Time] ([None]). *)
Record CircuitBreaker := mkBreaker {
  config : CircuitBreakerConfig;
  state : CircuitBreakerState;
  failures : Z;
  lastFailureTime : option Z;
  lastStateChange : Z;
  halfOpenRequests : Z;
  totalRequests : Z;
  totalSuccesses : Z;
  totalFailures : Z;
  totalRejections : Z
}.

Definition NewCircuitBreaker (cfg : CircuitBreakerConfig) (now : Z) : CircuitBreaker :=
  mkBreaker cfg StateClosed 0 None now 0 0 0 0 0.

Definition maxDuration : Z := 2 ^ 63 - 1.

(** [time.Since(t)] read at instant [now]; the distance to the zero time
    saturates. *)
Definition Since (now : Z) (t : option Z) : Z :=
  match t with
  | Some t0 => now - t0
  | None => maxDuration
  end.

Definition setState (cb : CircuitBreaker) (now : Z) (st : CircuitBreakerState) : CircuitBreaker :=
  if state_eqb (state cb) st then cb
  else mkBreaker (config cb) st (failures cb) (lastFailureTime cb) now
         (halfOpenRequests cb) (totalRequests cb) (totalSuccesses cb)
         (totalFailures cb) (totalRejections cb).

Definition set_halfOpenRequests (cb : CircuitBreaker) (n : Z) : CircuitBreaker :=
  mkBreaker (config cb) (state cb) (failures cb) (lastFailureTime cb)
    (lastStateChange cb) n (totalRequests cb) (totalSuccesses cb)
    (totalFailures cb) (totalRejections cb).

Definition set_failures (cb : CircuitBreaker) (n : Z) : CircuitBreaker :=
  mkBreaker (config cb) (state cb) n (lastFailureTime cb)
    (lastStateChange cb) (halfOpenRequests cb) (totalRequests cb)
    (totalSuccesses cb) (totalFailures cb) (totalRejections cb).

Definition incr_totalRequests (cb : CircuitBreaker) : CircuitBreaker :=
  mkBreaker (config cb) (state cb) (failures cb) (lastFailureTime cb)
    (lastStateChange cb) (halfOpenRequests cb)
    (wrap_u64 (totalRequests cb + 1)) (totalSuccesses cb)
    (totalFailures cb) (totalRejections cb).

Definition incr_totalSuccesses (cb : CircuitBreaker) : CircuitBreaker :=
  mkBreaker (config cb) (state cb) (failures cb) (lastFailureTime cb)
    (lastStateChange cb) (halfOpenRequests cb) (totalRequests cb)
    (wrap_u64 (totalSuccesses cb + 1)) (totalFailures cb)
    (totalRejections cb).

Definition incr_totalRejections (cb : CircuitBreaker) : CircuitBreaker :=
  mkBreaker (config cb) (state cb) (failures cb) (lastFailureTime cb)
    (lastStateChange cb) (halfOpenRequests cb) (totalRequests cb)
    (totalSuccesses cb) (totalFailures cb)
    (wrap_u64 (totalRejections cb + 1)).

(** The first three statements of [onFailure]. *)
Definition record_failure (cb : CircuitBreaker) (now : Z) : CircuitBreaker :=
  mkBreaker (config cb) (state cb) (wrap_int (failures cb + 1)) (Some now)
    (lastStateChange cb) (halfOpenRequests cb) (totalRequests cb)
    (totalSuccesses cb) (wrap_u64 (totalFailures cb + 1))
    (totalRejections cb).

(** [beforeRequest] at instant [now]: the new breaker and whether the
    request is admitted ([false]: [ErrCircuitBreakerOpen]). *)
Definition beforeRequest (cb : CircuitBreaker) (now : Z) : CircuitBreaker * bool :=
  let cb := incr_totalRequests cb in
  match state cb with
  | StateClosed => (cb, true)
  | StateOpen =>
      if Timeout (config cb) <? Since now (lastFailureTime cb) then
        (set_halfOpenRequests (setState cb now StateHalfOpen) 0, true)
      else (incr_totalRejections cb, false)
  | StateHalfOpen =>
      if MaxRequests (config cb) <=? halfOpenRequests cb then
        (incr_totalRejections cb, false)
      else
        (set_halfOpenRequests cb (wrap_int (halfOpenRequests cb + 1)), true)
  end.

Definition onSuccess (cb : CircuitBreaker) (now : Z) : CircuitBreaker :=
  let cb := incr_totalSuccesses cb in
  match state cb with
  | StateClosed =>
      if 0 <? failures cb then set_failures cb 0 else cb
  | StateHalfOpen =>
      if MaxRequests (config cb) <=? halfOpenRequests cb then
        set_halfOpenRequests (set_failures (setState cb now StateClosed) 0) 0
      else cb
  | StateOpen => cb
  end.

Definition onFailure (cb : CircuitBreaker) (now : Z) : CircuitBreaker :=
  let cb := record_failure cb now in
  match state cb with
  | StateClosed =>
      if MaxFailures (config cb) <=? failures cb then setState cb now StateOpen
      else cb
  | StateHalfOpen => setState cb now StateOpen
  | StateOpen => cb
  end.

Definition afterRequest (cb : CircuitBreaker) (now : Z) (err : bool) : CircuitBreaker :=
  if err then onFailure cb now else onSuccess cb now.

(** What a [Call] did: it was rejected without running [fn], or it ran
    [fn], which returned an error or [nil]. *)
Inductive Outcome := Rejected | Ran (err : bool).

(** One [Call]: [enter] and [leave] are the clock readings on the way in
    and on the way out, [fn_err] tells whether [fn], if it runs, fails. *)
Record CallInput := mkCall { enter : Z; fn_err : bool; leave : Z }.

Definition Call (cb : CircuitBreaker) (c : CallInput) : CircuitBreaker * Outcome :=
  match beforeRequest cb (enter c) with
  | (cb1, false) => (cb1, Rejected)
  | (cb1, true) => (afterRequest cb1 (leave c) (fn_err c), Ran (fn_err c))
  end.

Definition Reset (cb : CircuitBreaker) (now : Z) : CircuitBreaker :=
  mkBreaker (config cb) StateClosed 0 (lastFailureTime cb) now 0
    (totalRequests cb) (totalSuccesses cb) (totalFailures cb)
    (totalRejections cb).

(** A sequence of calls, one after the other (no call in flight between
    two of them). *)
Definition calls (cb : CircuitBreaker) (cs : list CallInput) : CircuitBreaker :=
  fold_left (fun b c => fst (Call b c)) cs cb.

Definition ok_at (t : Z) : CallInput := mkCall t false t.
Definition fail_at (t : Z) : CallInput := mkCall t true t.

(** Calls and manual resets in any order. *)
Inductive Event := EvCall (c : CallInput) | EvReset (now : Z).

Definition step (cb : CircuitBreaker) (ev : Event) : CircuitBreaker :=
  match ev with
  | EvCall c => fst (Call cb c)
  | EvReset now => Reset cb now
  end.

Definition run (cb : CircuitBreaker) (evs : list Event) : CircuitBreaker :=
  fold_left step evs cb.


(** [n] successful calls in a row at the instants [t], [t+1], ... *)
Fixpoint successes (cb : CircuitBreaker) (t : Z) (n : nat) : CircuitBreaker :=
  match n with
  | O => cb
  | S n' => successes (fst (Call cb (ok_at t))) (t + 1) n'
  end.

(** [n] failing calls in a row at the instants [t], [t+1], ... *)
Fixpoint failing (cb : CircuitBreaker) (t : Z) (n : nat) : CircuitBreaker :=
  match n with
  | O => cb
  | S n' => failing (fst (Call cb (fail_at t))) (t + 1) n'
  end.









End Breaker.

(* ===================================================================== *)
(** * Package proxy: backend connection pool                              *)
(* ===================================================================== *)

Module Pool.
Import Breaker.

Record BackendConn := mkConn {
  connectionID : Z;
  inTransaction : bool;
  database : string
}.

Definition wrap_u32 (n : Z) : Z := n mod 2 ^ 32.

(** [connections] is the buffered channel of idle connections (oldest
    first) and [capacity] its capacity, the configured pool size.
    [live] is not a field of the Go struct: it counts the backend
    connections that were dialed and not closed since, idle or leased. *)
Record BackendPool := mkPool {
  capacity : nat;
  connections : list BackendConn;
  connCounter : Z;
  closed : bool;
  circuitBreaker : CircuitBreaker;
  totalCreated : Z;
  totalAcquired : Z;
  totalReleased : Z;
  totalEvicted : Z;
  live : Z
}.

Definition NewBackendPool (poolSize : nat) (now : Z) : BackendPool :=
  mkPool poolSize [] 0 false
    (NewCircuitBreaker DefaultCircuitBreakerConfig now) 0 0 0 0 0.

Inductive AcquireResult :=
| Acquired (conn : BackendConn)
| ErrPoolClosed
| ErrBackendUnavailable
| ErrConnect.

(** [createConnection]: the dial runs inside the circuit breaker; [dial]
    carries the clock readings and whether the dial fails. *)
Definition createConnection (bp : BackendPool) (dial : CallInput)
  : BackendPool * AcquireResult :=
  let '(cb, outcome) := Call (circuitBreaker bp) dial in
  match outcome with
  | Rejected =>
      (mkPool (capacity bp) (connections bp) (connCounter bp) (closed bp) cb
         (totalCreated bp) (totalAcquired bp) (totalReleased bp)
         (totalEvicted bp) (live bp),
       ErrBackendUnavailable)
  | Ran true =>
      (mkPool (capacity bp) (connections bp) (connCounter bp) (closed bp) cb
         (totalCreated bp) (totalAcquired bp) (totalReleased bp)
         (totalEvicted bp) (live bp),
       ErrConnect)
  | Ran false =>
      let connID := wrap_u32 (connCounter bp + 1) in
      (mkPool (capacity bp) (connections bp) connID (closed bp) cb
         (wrap_u64 (totalCreated bp + 1)) (totalAcquired bp)
         (totalReleased bp) (totalEvicted bp) (live bp + 1),
       Acquired (mkConn connID false ""))
  end.

(** [Acquire]: [healthy] is the answer of [IsHealthy] for the connection
    taken from the idle channel, when there is one. *)
Definition Acquire (bp : BackendPool) (healthy : bool) (dial : CallInput)
  : BackendPool * AcquireResult :=
  if closed bp then (bp, ErrPoolClosed)
  else
    match connections bp with
    | conn :: rest =>
        if healthy then
          (mkPool (capacity bp) rest (connCounter bp) (closed bp)
             (circuitBreaker bp) (totalCreated bp)
             (wrap_u64 (totalAcquired bp + 1)) (totalReleased bp)
             (totalEvicted bp) (live bp),
           Acquired conn)
        else
          createConnection
            (mkPool (capacity bp) rest (connCounter bp) (closed bp)
               (circuitBreaker bp) (totalCreated bp) (totalAcquired bp)
               (totalReleased bp) (wrap_u64 (totalEvicted bp + 1))
               (live bp - 1))
            dial
    | [] => createConnection bp dial
    end.

(** [conn.Close()] seen from the pool: one open connection less. *)
Definition close_conn (bp : BackendPool) : BackendPool :=
  mkPool (capacity bp) (connections bp) (connCounter bp) (closed bp)
    (circuitBreaker bp) (totalCreated bp) (totalAcquired bp)
    (totalReleased bp) (totalEvicted bp) (live bp - 1).

Definition Reset (conn : BackendConn) : BackendConn :=
  mkConn (connectionID conn) false "".

(** The non-blocking send [bp.connections <- conn]. *)
Definition try_send (bp : BackendPool) (conn : BackendConn) : option BackendPool :=
  if (length (connections bp) <? capacity bp)%nat then
    Some (mkPool (capacity bp) (connections bp ++ [conn]) (connCounter bp)
            (closed bp) (circuitBreaker bp) (totalCreated bp)
            (totalAcquired bp) (totalReleased bp) (totalEvicted bp)
            (live bp))
  else None.

Definition Release (bp : BackendPool) (conn : BackendConn) : BackendPool :=
  if closed bp then close_conn bp
  else if inTransaction conn then close_conn bp
  else
    match try_send bp (Reset conn) with
    | Some bp' =>
        mkPool (capacity bp') (connections bp') (connCounter bp') (closed bp')
          (circuitBreaker bp') (totalCreated bp') (totalAcquired bp')
          (wrap_u64 (totalReleased bp' + 1)) (totalEvicted bp') (live bp')
    | None => close_conn bp
    end.

Definition Close (bp : BackendPool) : BackendPool :=
  if closed bp then bp
  else
    mkPool (capacity bp) [] (connCounter bp) true (circuitBreaker bp)
      (totalCreated bp) (totalAcquired bp) (totalReleased bp)
      (totalEvicted bp) (live bp - Z.of_nat (length (connections bp))).

(** [cleanupStaleConnections]: [stale] answers, for an idle connection,
    the test [IdleTime > maxIdleTime || Age > maxAge || !IsHealthy]. *)
Definition cleanupStaleConnections (bp : BackendPool) (stale : BackendConn -> bool)
  : BackendPool :=
  let healthyConns := List.filter (fun c => negb (stale c)) (connections bp) in
  let evicted := Z.of_nat (length (connections bp)) - Z.of_nat (length healthyConns) in
  let drained :=
    mkPool (capacity bp) [] (connCounter bp) (closed bp) (circuitBreaker bp)
      (totalCreated bp) (totalAcquired bp) (totalReleased bp)
      (wrap_u64 (totalEvicted bp + evicted)) (live bp - evicted) in
  fold_left
    (fun p c => match try_send p c with Some p' => p' | None => close_conn p end)
    healthyConns drained.

(** The pool as its users drive it, one operation after the other. *)
Inductive Op :=
| OpAcquire (healthy : bool) (dial : CallInput)
| OpRelease (conn : BackendConn)
| OpCleanup (stale : BackendConn -> bool)
| OpClose.

Definition step (bp : BackendPool) (op : Op) : BackendPool :=
  match op with
  | OpAcquire healthy dial => fst (Acquire bp healthy dial)
  | OpRelease conn => Release bp conn
  | OpCleanup stale => cleanupStaleConnections bp stale
  | OpClose => Close bp
  end.

Definition run (bp : BackendPool) (ops : list Op) : BackendPool :=
  fold_left step ops bp.


(** The idle channel never holds more than its capacity. *)
Definition idle_ok (bp : BackendPool) : Prop :=
  (length (connections bp) <= capacity bp)%nat.

End Pool.

(* ===================================================================== *)
(** * Package backfill: the worker loop                                   *)
(* ===================================================================== *)

Module Backfill.
Import Float64 Rounding.

Record BackfillConfig := mkBackfillConfig {
  BatchSize : Z;
  SleepIntervalMs : Z;
  RetryAttempts : Z;
  RetryBackoffMs : Z
}.

Inductive Status :=
| StatusPending | StatusRunning | StatusPaused | StatusCompleted | StatusFailed.

Record Progress := mkProgress {
  totalRows : Z;
  completedRows : Z;
  errors : Z;
  status : Status
}.

Definition NewProgress : Progress := mkProgress 0 0 0 StatusPending.
Definition ProgressStart (p : Progress) : Progress :=
  mkProgress (totalRows p) (completedRows p) (errors p) StatusRunning.
Definition SetTotal (p : Progress) (total : Z) : Progress :=
  mkProgress total (completedRows p) (errors p) (status p).
Definition IncrementCompleted (p : Progress) (count : Z) : Progress :=
  mkProgress (totalRows p) (completedRows p + count) (errors p) (status p).
Definition IncrementErrors (p : Progress) : Progress :=
  mkProgress (totalRows p) (completedRows p) (errors p + 1) (status p).
Definition Complete (p : Progress) : Progress :=
  mkProgress (totalRows p) (completedRows p) (errors p) StatusCompleted.

(** The table as the worker sees it when one currency column is
    configured, so that every [range] over the column map yields the same
    entry: [pending] are the rows whose shadow column is NULL, in the order
    the server returns them; [migrated] the shadow values written so far;
    [execs] counts the UPDATE statements issued.  Tables with several
    configured columns are the subject of [BackfillTable]. *)
Record Row := mkRow { id : Z; value : Z }.

Record DB := mkDB {
  pending : list Row;
  migrated : list (Z * float64);
  execs : nat
}.

(** What the backend answers.  [count_fails] and [query_fails] are the
    structural errors (say a missing column) of the COUNT and of the batch
    SELECT; [exec_fails n i] tells whether the UPDATE of row [i], issued as
    the [n]-th UPDATE of the job, fails. *)
Record Backend := mkBackend {
  count_fails : bool;
  query_fails : bool;
  exec_fails : nat -> Z -> bool
}.

Record Worker := mkWorker {
  config : BackfillConfig;
  ratio : Z;
  roundingEngine : Engine;
  has_columns : bool
}.

Inductive error :=
| ErrCount
| ErrNoCurrencyColumns
| ErrQueryBatch
| ErrUpdateRow (row : Z).

Inductive JobError :=
| ErrCountRows (e : error)
| ErrBatchProcessing (e : error).

(** The loop [for rows.Next()] of [processBatch] over the rows of the batch. *)
Fixpoint updateRows (w : Worker) (be : Backend) (rows : list Row) (db : DB)
  (processed : Z) : DB * Z * option error :=
  match rows with
  | [] => (db, processed, None)
  | row :: rest =>
      let convertedValue := ConvertIDRtoIDN (roundingEngine w) (value row) (ratio w) in
      if exec_fails be (execs db) (id row) then
        (mkDB (pending db) (migrated db) (S (execs db)), processed,
         Some (ErrUpdateRow (id row)))
      else
        let db' :=
          mkDB (List.filter (fun r => negb (id r =? id row)) (pending db))
            (migrated db ++ [(id row, convertedValue)]) (S (execs db)) in
        updateRows w be rest db' (processed + 1)
  end.

Definition processBatch (w : Worker) (be : Backend) (db : DB)
  : DB * Z * option error :=
  if negb (has_columns w) then (db, 0, Some ErrNoCurrencyColumns)
  else if query_fails be || (BatchSize (config w) <? 0) then
    (db, 0, Some ErrQueryBatch)
  else
    updateRows w be (firstn (Z.to_nat (BatchSize (config w))) (pending db)) db 0.

Definition shouldRetry (w : Worker) (p : Progress) : bool :=
  errors p <? RetryAttempts (config w).

(** The batch loop of [Start] when no pause, stop or cancellation signal
    arrives.  [None]: the fuel ran out before the loop returned. *)
Fixpoint batchLoop (fuel : nat) (w : Worker) (be : Backend) (p : Progress) (db : DB)
  : option (option JobError * Progress * DB) :=
  match fuel with
  | O => None
  | S fuel' =>
      let '(db', processed, err) := processBatch w be db in
      match err with
      | Some e =>
          let p' := IncrementErrors p in
          if shouldRetry w p' then batchLoop fuel' w be p' db'
          else Some (Some (ErrBatchProcessing e), p', db')
      | None =>
          if processed =? 0 then Some (None, Complete p, db')
          else batchLoop fuel' w be (IncrementCompleted p processed) db'
      end
  end.

Definition Start (fuel : nat) (w : Worker) (be : Backend) (db : DB)
  : option (option JobError * Progress * DB) :=
  let p := ProgressStart NewProgress in
  if count_fails be then Some (Some (ErrCountRows ErrCount), p, db)
  else
    let totalRows := Z.of_nat (length (pending db)) in
    let p := SetTotal p totalRows in
    if totalRows =? 0 then Some (None, Complete p, db)
    else batchLoop fuel w be p db.




(** ** A job with a row that cannot be updated *)

Definition demo_worker : Worker :=
  mkWorker (mkBackfillConfig 100 0 3 0) 1000 (NewEngine BankersRound 4) true.


Definition demo_rows : list Row := [mkRow 1 500000; mkRow 2 750000].

End Backfill.

(* ===================================================================== *)
(** * Package fmt: the two verbs the proxy uses                           *)
(* ===================================================================== *)

Module Fmt.
Import Float64.
Local Open Scope string_scope.
Local Open Scope Z_scope.

(** The value of a decimal digit: the characters from code 48 to code 57. *)
Definition digit_val (c : ascii) : option Z :=
  let code := Z.of_nat (nat_of_ascii c) in
  if (48 <=? code) && (code <=? 57) then Some (code - 48) else None.

Definition digit_char (d : Z) : ascii := ascii_of_nat (Z.to_nat (48 + d)).

(** The decimal digits of [n >= 0], most significant first. *)
Fixpoint itoa_fuel (fuel : nat) (n : Z) (acc : string) : string :=
  match fuel with
  | O => acc
  | S fuel' =>
      let acc' := String (digit_char (n mod 10)) acc in
      if n <? 10 then acc' else itoa_fuel fuel' (n / 10) acc'
  end.

Definition Itoa (n : Z) : string := itoa_fuel (S (Z.to_nat (Z.log2 n))) n "".

(** Exactly [k] digits of [n], zero padded on the left. *)
Fixpoint fixed_digits (k : nat) (n : Z) (acc : string) : string :=
  match k with
  | O => acc
  | S k' => fixed_digits k' (n / 10) (String (digit_char (n mod 10)) acc)
  end.

(** [fmt.Sprintf("%.<digits>f", x)]: the exact binary value is rounded to
    [digits] decimals, halves to even; the sign of a negative zero is
    printed. *)
Definition Sprintf_f (digits : nat) (x : float64) : string :=
  match x with
  | S754_nan => "NaN"
  | S754_infinity false => "+Inf"
  | S754_infinity true => "-Inf"
  | S754_zero s | S754_finite s _ _ =>
      let scale := 10 ^ Z.of_nat digits in
      let n :=
        match x with
        | S754_finite _ m (Zneg k) =>
            Rounding.half_even_div (Zpos m * scale) (2 ^ Zpos k)
        | S754_finite _ m e => Zpos m * 2 ^ e * scale
        | _ => 0
        end in
      let sign := if s then "-" else "" in
      let int_part := Itoa (n / scale) in
      match digits with
      | O => sign +:+ int_part
      | _ => sign +:+ int_part +:+ "." +:+ fixed_digits digits (n mod scale) ""
      end
  end.

Definition is_space (c : ascii) : bool :=
  match c with
  | " "%char | "009"%char | "010"%char | "013"%char => true
  | _ => false
  end.

Fixpoint skip_spaces (s : string) : string :=
  match s with
  | String c rest => if is_space c then skip_spaces rest else s
  | EmptyString => s
  end.

(** The longest run of digits at the head of [s]: its value, how many
    digits it has, and what follows. *)
Fixpoint take_digits (s : string) (acc : Z) (count : Z) : Z * Z * string :=
  match s with
  | String c rest =>
      match digit_val c with
      | Some d => take_digits rest (10 * acc + d) (count + 1)
      | None => (acc, count, s)
      end
  | EmptyString => (acc, count, s)
  end.

Definition take_sign (s : string) : bool * string :=
  match s with
  | String "-"%char rest => (true, rest)
  | String "+"%char rest => (false, rest)
  | _ => (false, s)
  end.

(** The binary64 nearest to [(-1)^neg * mant * 10^exp10]. *)
Definition decimal_to_float64 (neg : bool) (mant : Z) (exp10 : Z) : float64 :=
  if mant =? 0 then S754_zero neg
  else
    let x := match exp10 with
             | Zneg k => of_ratio mant (10 ^ k)%positive
             | _ => of_Z (mant * 10 ^ exp10)
             end in
    if neg then fneg x else x.

(** [fmt.Sscanf(s, "%f", &f)] on decimal input: leading spaces are
    skipped, then the longest token made of a sign, digits, a point,
    digits and an exponent is converted.  [None] is a failed scan, which
    leaves [f] as it was.  The spellings of NaN and of the infinities,
    hexadecimal mantissas and digit separators are outside this model. *)
Definition Sscanf_f (s : string) : option float64 :=
  let '(neg, s1) := take_sign (skip_spaces s) in
  let '(ip, n1, s2) := take_digits s1 0 0 in
  let '(fp, n2, s3) :=
    match s2 with
    | String "."%char rest => take_digits rest ip 0
    | _ => (ip, 0, s2)
    end in
  let exponent :=
    match s3 with
    | String c rest =>
        if Ascii.eqb c "e" || Ascii.eqb c "E" then
          let '(eneg, s4) := take_sign rest in
          let '(ev, en, _) := take_digits s4 0 0 in
          if en =? 0 then None else Some (if eneg then - ev else ev)
        else Some 0
    | EmptyString => Some 0
    end in
  if n1 + n2 =? 0 then None
  else
    match exponent with
    | None => None
    | Some ex => Some (decimal_to_float64 neg fp (ex - n2))
    end.

Definition to_upper (c : ascii) : ascii :=
  let n := nat_of_ascii c in
  if ((97 <=? n) && (n <=? 122))%nat then ascii_of_nat (n - 32) else c.

(** [strings.ToUpper] on ASCII text. *)
Fixpoint ToUpper (s : string) : string :=
  match s with
  | String c rest => String (to_upper c) (ToUpper rest)
  | EmptyString => EmptyString
  end.

Fixpoint rev_string (s acc : string) : string :=
  match s with
  | String c rest => rev_string rest (String c acc)
  | EmptyString => acc
  end.

(** [strings.TrimSpace] on ASCII text. *)
Definition TrimSpace (s : string) : string :=
  rev_string (skip_spaces (rev_string (skip_spaces s) "")) "".

End Fmt.


(* ===================================================================== *)
(** * The SQL syntax tree of the parser library                           *)
(* ===================================================================== *)

(** The rewriter works on the syntax tree of github.com/xwb1989/sqlparser
    and prints it back with [sqlparser.String].  The library is not part of
    the repository; this module holds the part of its tree that the
    rewriter reads or builds, and its printer for that part (plain
    identifiers, literals without characters to escape). *)
Module Sqlparser.
Local Open Scope string_scope.

Inductive ValType := StrVal | IntVal | FloatVal | HexNum | HexVal | ValArg | BitVal.

Inductive Expr :=
| SQLVal (Type_ : ValType) (Val : string)
| BoolVal (b : bool)
| NullVal
| ColName (Name : string)
| ComparisonExpr (Operator : string) (Left Right : Expr)
| BinaryExpr (Operator : string) (Left Right : Expr)
| AndExpr (Left Right : Expr).

Definition NewFloatVal (text : string) : Expr := SQLVal FloatVal text.

Record UpdateExpr := mkUpdateExpr { Name : string; Expr_ : Expr }.

Inductive InsertRows :=
| Values (rows : list (list Expr))
| SelectRows (text : string).

Record Insert := mkInsert {
  Action : string;
  Ignore : string;
  Table : string;
  Columns : list string;
  Rows : InsertRows;
  OnDup : list UpdateExpr
}.

Inductive TableExpr :=
| AliasedTableName (name : string) (alias : string)
| OtherTableExpr (text : string).

Record Order := mkOrder { OrderExpr : Expr; Direction : string }.
Record Limit := mkLimit { Offset : option Expr; Rowcount : Expr }.

Record Update := mkUpdate {
  TableExprs : list TableExpr;
  Exprs : list UpdateExpr;
  Where : option Expr;
  OrderBy : list Order;
  Limit_ : option Limit
}.

Inductive Statement :=
| StmtSelect (from : list TableExpr)
| StmtInsert (stmt : Insert)
| StmtUpdate (stmt : Update)
| StmtDelete (tables : list TableExpr)
| StmtOther.

(** ** [sqlparser.String] *)

Fixpoint join (sep : string) (parts : list string) : string :=
  match parts with
  | [] => ""
  | [x] => x
  | x :: rest => x +:+ sep +:+ join sep rest
  end.

Fixpoint String_Expr (e : Expr) : string :=
  match e with
  | SQLVal StrVal v => "'" +:+ v +:+ "'"
  | SQLVal HexVal v => "X'" +:+ v +:+ "'"
  | SQLVal BitVal v => "B'" +:+ v +:+ "'"
  | SQLVal _ v => v
  | BoolVal true => "true"
  | BoolVal false => "false"
  | NullVal => "null"
  | ColName n => n
  | ComparisonExpr op l r => String_Expr l +:+ " " +:+ op +:+ " " +:+ String_Expr r
  | BinaryExpr op l r => String_Expr l +:+ " " +:+ op +:+ " " +:+ String_Expr r
  | AndExpr l r => String_Expr l +:+ " and " +:+ String_Expr r
  end.

Definition String_UpdateExpr (u : UpdateExpr) : string :=
  Name u +:+ " = " +:+ String_Expr (Expr_ u).

Definition String_UpdateExprs (us : list UpdateExpr) : string :=
  join ", " (map String_UpdateExpr us).

Definition String_Columns (cols : list string) : string :=
  match cols with
  | [] => ""
  | _ => "(" +:+ join ", " cols +:+ ")"
  end.

Definition String_ValTuple (row : list Expr) : string :=
  "(" +:+ join ", " (map String_Expr row) +:+ ")".

Definition String_InsertRows (r : InsertRows) : string :=
  match r with
  | Values rows => "values " +:+ join ", " (map String_ValTuple rows)
  | SelectRows text => text
  end.

Definition String_OnDup (od : list UpdateExpr) : string :=
  match od with
  | [] => ""
  | _ => " on duplicate key update " +:+ String_UpdateExprs od
  end.

Definition String_Insert (i : Insert) : string :=
  Action i +:+ " " +:+ Ignore i +:+ "into " +:+ Table i +:+ String_Columns (Columns i)
    +:+ " " +:+ String_InsertRows (Rows i) +:+ String_OnDup (OnDup i).

Definition String_TableExpr (t : TableExpr) : string :=
  match t with
  | AliasedTableName name "" => name
  | AliasedTableName name alias => name +:+ " as " +:+ alias
  | OtherTableExpr text => text
  end.

Definition String_Where (w : option Expr) : string :=
  match w with
  | Some e => " where " +:+ String_Expr e
  | None => ""
  end.

Definition String_Order (o : Order) : string :=
  String_Expr (OrderExpr o) +:+ " " +:+ Direction o.

Definition String_OrderBy (os : list Order) : string :=
  match os with
  | [] => ""
  | _ => " order by " +:+ join ", " (map String_Order os)
  end.

Definition String_Limit (l : option Limit) : string :=
  match l with
  | None => ""
  | Some (mkLimit None n) => " limit " +:+ String_Expr n
  | Some (mkLimit (Some o) n) => " limit " +:+ String_Expr o +:+ ", " +:+ String_Expr n
  end.

(** What [Update.Format] prints after the SET list. *)
Definition String_UpdateTail (u : Update) : string :=
  String_Where (Where u) +:+ String_OrderBy (OrderBy u) +:+ String_Limit (Limit_ u).

Definition String_Update (u : Update) : string :=
  "update " +:+ join ", " (map String_TableExpr (TableExprs u)) +:+ " set "
    +:+ String_UpdateExprs (Exprs u) +:+ String_UpdateTail u.

End Sqlparser.

(* ===================================================================== *)
(** * Package config (the table rules) and package parser                 *)
(* ===================================================================== *)

Module Config.

Record ColumnConfig := mkColumnConfig {
  SourceColumn : string;
  TargetColumn : string;
  SourceType : string;
  TargetType : string;
  RoundingStrategy : string;
  Precision : Z
}.

Record TableConfig := mkTableConfig {
  Enabled : bool;
  Columns : gmap string ColumnConfig
}.

Record ConversionConfig := mkConversionConfig {
  Ratio : Z;
  ConversionPrecision : Z;
  ConversionRoundingStrategy : string
}.

Record Config := mkConfig {
  Conversion : ConversionConfig;
  Tables : gmap string TableConfig
}.

(** The zero value a Go map lookup returns for a missing table. *)
Definition zeroTableConfig : TableConfig := mkTableConfig false ∅.

End Config.

Module Parser.
Import Sqlparser Config.
Local Open Scope string_scope.

Inductive QueryType :=
| QueryTypeUnknown | QueryTypeSelect | QueryTypeInsert
| QueryTypeUpdate | QueryTypeDelete.

(** The dynamic values [extractValue] returns. *)
Inductive GoValue :=
| VString (s : string)
| VBool (b : bool)
| VNil.

Record ParsedQuery := mkParsedQuery {
  Original : string;
  Type_ : QueryType;
  Statement_ : Statement;
  TableName : string;
  CurrencyColumns : list string;
  Values_ : gmap string GoValue;
  NeedsTransform : bool
}.

Definition extractValue (expr : Expr) : GoValue :=
  match expr with
  | SQLVal IntVal v => VString v
  | SQLVal StrVal v => VString v
  | SQLVal FloatVal v => VString v
  | BoolVal b => VBool b
  | NullVal => VNil
  | _ => VString (String_Expr expr)
  end.

(** The table name [analyzeUpdate], [analyzeSelect] and [analyzeDelete]
    read from the first table expression. *)
Definition firstTableName (tables : list TableExpr) : string :=
  match tables with
  | AliasedTableName name _ :: _ => name
  | _ => ""
  end.

(** [pq.Values[columns[i]] = extractValue(val)] for the values of one row. *)
Fixpoint zipValues (columns : list string) (row : list Expr)
  (values : gmap string GoValue) : gmap string GoValue :=
  match row, columns with
  | val :: row', col :: columns' =>
      zipValues columns' row' (<[col := extractValue val]> values)
  | _, _ => values
  end.

Definition analyzeInsert (tables : gmap string TableConfig) (stmt : Insert)
  (pq : ParsedQuery) : ParsedQuery :=
  let tableName := Table stmt in
  match tables !! tableName with
  | Some tableConfig =>
      if negb (Enabled tableConfig) then
        mkParsedQuery (Original pq) (Type_ pq) (Statement_ pq) tableName
          (CurrencyColumns pq) (Values_ pq) false
      else
        let columns := Sqlparser.Columns stmt in
        let currency :=
          List.filter (fun col => bool_decide (is_Some (Config.Columns tableConfig !! col)))
            columns in
        let values :=
          match Rows stmt with
          | Values (row :: _) =>
              match columns with
              | [] => Values_ pq
              | _ => zipValues columns row (Values_ pq)
              end
          | _ => Values_ pq
          end in
        mkParsedQuery (Original pq) (Type_ pq) (Statement_ pq) tableName
          (CurrencyColumns pq ++ currency)%list values
          (match currency with [] => NeedsTransform pq | _ => true end)
  | None =>
      mkParsedQuery (Original pq) (Type_ pq) (Statement_ pq) tableName
        (CurrencyColumns pq) (Values_ pq) false
  end.

(** The loop over [stmt.Exprs] of [analyzeUpdate]. *)
Fixpoint analyzeSet (tableConfig : TableConfig) (exprs : list UpdateExpr)
  (pq : ParsedQuery) : ParsedQuery :=
  match exprs with
  | [] => pq
  | expr :: rest =>
      let colName := Name expr in
      match Config.Columns tableConfig !! colName with
      | Some _ =>
          analyzeSet tableConfig rest
            (mkParsedQuery (Original pq) (Type_ pq) (Statement_ pq) (TableName pq)
               (CurrencyColumns pq ++ [colName])%list
               (<[colName := extractValue (Expr_ expr)]> (Values_ pq)) true)
      | None => analyzeSet tableConfig rest pq
      end
  end.

Definition analyzeUpdate (tables : gmap string TableConfig) (stmt : Update)
  (pq : ParsedQuery) : ParsedQuery :=
  let pq :=
    match TableExprs stmt with
    | AliasedTableName name _ :: _ =>
        mkParsedQuery (Original pq) (Type_ pq) (Statement_ pq) name
          (CurrencyColumns pq) (Values_ pq) (NeedsTransform pq)
    | _ => pq
    end in
  match tables !! TableName pq with
  | Some tableConfig =>
      if negb (Enabled tableConfig) then
        mkParsedQuery (Original pq) (Type_ pq) (Statement_ pq) (TableName pq)
          (CurrencyColumns pq) (Values_ pq) false
      else analyzeSet tableConfig (Exprs stmt) pq
  | None =>
      mkParsedQuery (Original pq) (Type_ pq) (Statement_ pq) (TableName pq)
        (CurrencyColumns pq) (Values_ pq) false
  end.

Definition analyzeOther (ty : QueryType) (tables : list TableExpr)
  (pq : ParsedQuery) : ParsedQuery :=
  mkParsedQuery (Original pq) ty (Statement_ pq)
    (match tables with AliasedTableName name _ :: _ => name | _ => TableName pq end)
    (CurrencyColumns pq) (Values_ pq) false.

(** [Parse]: [parsed] is what [sqlparser.Parse(query)] returned, [None]
    for a syntax error. *)
Definition Parse (tables : gmap string TableConfig) (query : string)
  (parsed : option Statement) : option ParsedQuery :=
  match parsed with
  | None => None
  | Some stmt =>
      let pq := mkParsedQuery query QueryTypeUnknown stmt "" [] ∅ false in
      Some
        match stmt with
        | StmtSelect from => analyzeOther QueryTypeSelect from pq
        | StmtInsert i =>
            analyzeInsert tables i
              (mkParsedQuery query QueryTypeInsert stmt "" [] ∅ false)
        | StmtUpdate u =>
            analyzeUpdate tables u
              (mkParsedQuery query QueryTypeUpdate stmt "" [] ∅ false)
        | StmtDelete ts => analyzeOther QueryTypeDelete ts pq
        | StmtOther => pq
        end
  end.

(** The shadow columns [rewriteInsert] adds to the column list. *)
Definition shadowColumns (tableConfig : TableConfig) (currencyColumns : list string)
  : list string :=
  omap (fun col => TargetColumn <$> (Config.Columns tableConfig !! col)) currencyColumns.

(** The literals [rewriteInsert] adds to every row. *)
Definition shadowValues (currencyColumns : list string)
  (convertedValues : gmap string Float64.float64) : list Expr :=
  omap (fun col => (fun v => NewFloatVal (Fmt.Sprintf_f 4 v)) <$> (convertedValues !! col))
    currencyColumns.

Definition rewriteInsert_stmt (stmt : Insert) (pq : ParsedQuery)
  (tableConfig : TableConfig) (convertedValues : gmap string Float64.float64)
  : Insert :=
  let newColumns := (Sqlparser.Columns stmt ++ shadowColumns tableConfig (CurrencyColumns pq))%list in
  let newRows :=
    match Rows stmt with
    | Values rows =>
        Values (map (fun row => (row ++ shadowValues (CurrencyColumns pq) convertedValues)%list) rows)
    | other => other
    end in
  mkInsert (Action stmt) (Ignore stmt) (Table stmt) newColumns newRows (OnDup stmt).

Definition rewriteInsert (stmt : Insert) (pq : ParsedQuery)
  (tableConfig : TableConfig) (convertedValues : gmap string Float64.float64)
  : string :=
  String_Insert (rewriteInsert_stmt stmt pq tableConfig convertedValues).

(** The assignments [rewriteUpdate] adds to the SET list. *)
Definition shadowExprs (tableConfig : TableConfig) (currencyColumns : list string)
  (convertedValues : gmap string Float64.float64) : list UpdateExpr :=
  omap (fun col =>
          match Config.Columns tableConfig !! col, convertedValues !! col with
          | Some colConfig, Some convertedValue =>
              Some (mkUpdateExpr (TargetColumn colConfig)
                      (NewFloatVal (Fmt.Sprintf_f 4 convertedValue)))
          | _, _ => None
          end)
    currencyColumns.

Definition rewriteUpdate_stmt (stmt : Update) (pq : ParsedQuery)
  (tableConfig : TableConfig) (convertedValues : gmap string Float64.float64)
  : Update :=
  mkUpdate (TableExprs stmt)
    (Exprs stmt ++ shadowExprs tableConfig (CurrencyColumns pq) convertedValues)%list
    (Where stmt) (OrderBy stmt) (Limit_ stmt).

Definition rewriteUpdate (stmt : Update) (pq : ParsedQuery)
  (tableConfig : TableConfig) (convertedValues : gmap string Float64.float64)
  : string :=
  String_Update (rewriteUpdate_stmt stmt pq tableConfig convertedValues).

Definition RewriteForDualWrite (tables : gmap string TableConfig) (pq : ParsedQuery)
  (convertedValues : gmap string Float64.float64) : string :=
  if negb (NeedsTransform pq) then Original pq
  else
    let tableConfig := default zeroTableConfig (tables !! TableName pq) in
    match Statement_ pq with
    | StmtInsert stmt => rewriteInsert stmt pq tableConfig convertedValues
    | StmtUpdate stmt => rewriteUpdate stmt pq tableConfig convertedValues
    | _ => Original pq
    end.

End Parser.

(* ===================================================================== *)
(** * Package proxy: the query path of a session                          *)
(* ===================================================================== *)

Module Session.
Import Float64 Sqlparser Config Parser.
Local Open Scope string_scope.

(** The loop of [handleQuery] that fills [convertedValues]: a value that
    is a string is scanned with ["%f"] (a failed scan leaves 0) and
    divided by the ratio; the other values get no entry. *)
Definition convertValue (ratio : Z) (val : GoValue) : option float64 :=
  match val with
  | VString strVal =>
      let floatVal := default (S754_zero false) (Fmt.Sscanf_f strVal) in
      Some (fdiv floatVal (of_Z ratio))
  | _ => None
  end.

Definition convertValues (ratio : Z) (values : gmap string GoValue)
  : gmap string float64 :=
  omap (convertValue ratio) values.

(** The transaction flag [handleQuery] keeps. *)
Definition trackTransaction (inTx : bool) (query : string) : bool :=
  let upperQuery := Fmt.ToUpper (Fmt.TrimSpace query) in
  if String.eqb upperQuery "BEGIN" || String.eqb upperQuery "START TRANSACTION" then true
  else if String.eqb upperQuery "COMMIT" || String.eqb upperQuery "ROLLBACK" then false
  else inTx.

(** [handleQuery]: the new transaction flag and the query text that is
    forwarded to the backend (after the command byte).  [parsed] is the
    answer of the SQL parser for [query]. *)
Definition handleQuery (cfg : Config) (inTx : bool) (query : string)
  (parsed : option Statement) : bool * string :=
  let inTx' := trackTransaction inTx query in
  match Parse (Tables cfg) query parsed with
  | None => (inTx', query)
  | Some pq =>
      if negb (NeedsTransform pq) then (inTx', query)
      else
        let convertedValues := convertValues (Ratio (Conversion cfg)) (Values_ pq) in
        (inTx', RewriteForDualWrite (Tables cfg) pq convertedValues)
  end.

(** The literal the specification asks for: the rounding engine at the
    column's precision and mode, printed with that many decimals. *)
Definition strategy_of (name : string) : Rounding.Strategy :=
  if String.eqb name "BANKERS_ROUND" then Rounding.BankersRound
  else if String.eqb name "ARITHMETIC_ROUND" then Rounding.ArithmeticRound
  else if String.eqb name "NO_ROUND" then Rounding.NoRound
  else Rounding.OtherStrategy name.

Definition spec_literal (cfg : Config) (col : ColumnConfig) (source : Z) : string :=
  let engine := Rounding.NewEngine (strategy_of (RoundingStrategy col)) (Precision col) in
  Fmt.Sprintf_f (Z.to_nat (Precision col))
    (Rounding.ConvertIDRtoIDN engine source (Ratio (Conversion cfg))).


(** The text of a statement from the keyword WHERE on, if it has one. *)
Fixpoint where_clause_of (query : string) : option string :=
  match query with
  | EmptyString => None
  | String _ rest =>
      if String.prefix "WHERE" (Fmt.ToUpper query) then Some query
      else where_clause_of rest
  end.

Definition is_suffix (t s : string) : bool :=
  String.prefix (Fmt.rev_string t "") (Fmt.rev_string s "").

(** Byte-for-byte preservation of the WHERE clause and what follows. *)
Definition where_bytes_preserved (query rewritten : string) : Prop :=
  forall tail, where_clause_of query = Some tail -> is_suffix tail rewritten = true.

End Session.

(* ===================================================================== *)
(** * The configuration and the statements of the end-to-end scenarios    *)
(* ===================================================================== *)

Module Scenario.
Import Sqlparser Config Parser Session.
Local Open Scope string_scope.

Definition column (source target : string) (precision : Z) : ColumnConfig :=
  mkColumnConfig source target "BIGINT" "DECIMAL(19,4)" "BANKERS_ROUND" precision.

Definition orders (precision : Z) : TableConfig :=
  mkTableConfig true
    (<["total_amount" := column "total_amount" "total_amount_idn" precision]>
      (<["shipping_fee" := column "shipping_fee" "shipping_fee_idn" precision]> ∅)).

(** ratio 1000, the given precision, banker's rounding, table [orders]. *)
Definition cfg (precision : Z) : Config :=
  mkConfig (mkConversionConfig 1000 precision "BANKERS_ROUND")
    (<["orders" := orders precision]> ∅).

Definition int (text : string) : Expr := SQLVal IntVal text.

Definition insert_orders (columns : list string) (rows : list (list Expr)) : Statement :=
  StmtInsert (mkInsert "insert" "" "orders" columns (Values rows) []).

(** S1 *)
Definition s1_query :=
  "INSERT INTO orders (customer_id, total_amount, shipping_fee) VALUES (123, 500000, 25000)".
Definition s1_stmt :=
  insert_orders ["customer_id"; "total_amount"; "shipping_fee"]
    [[int "123"; int "500000"; int "25000"]].

(** S2 *)
Definition s2_query := "UPDATE orders SET total_amount = 750000 WHERE id = 123".
Definition s2_update : Update :=
  mkUpdate [AliasedTableName "orders" ""]
    [mkUpdateExpr "total_amount" (int "750000")]
    (Some (ComparisonExpr "=" (ColName "id") (int "123"))) [] None.
Definition s2_stmt := StmtUpdate s2_update.

(** S3 *)
Definition s3_query :=
  "INSERT INTO orders (customer_id, total_amount) VALUES (1, 500500), (2, 501500), (3, 502500)".
Definition s3_stmt :=
  insert_orders ["customer_id"; "total_amount"]
    [[int "1"; int "500500"]; [int "2"; int "501500"]; [int "3"; int "502500"]].

(** S5 *)
Definition s5_query := "INSERT INTO orders (customer_id, total_amount) VALUES (1, NULL)".
Definition s5_stmt :=
  insert_orders ["customer_id"; "total_amount"] [[int "1"; NullVal]].

(** An insert whose quotient has more than two decimals. *)
Definition p2_query := "INSERT INTO orders (customer_id, total_amount) VALUES (1, 1234567)".
Definition p2_stmt :=
  insert_orders ["customer_id"; "total_amount"] [[int "1"; int "1234567"]].

End Scenario.


(* ===================================================================== *)
(** * Package protocol: integers, strings and result packets              *)
(* ===================================================================== *)

Module Wire.
Import Protocol.
Local Open Scope string_scope.
Local Open Scope Z_scope.

(** What a function that can fail in two ways gives: a value, the error it
    returns, or a run-time panic (an index or a slice out of range). *)
Inductive result (A : Type) :=
| Ok (a : A)
| Error (msg : string)
| Panic.
Arguments Ok {A} a.
Arguments Error {A} msg.
Arguments Panic {A}.

(** [get o k]: go on with the value of [o], panic when there is none. *)
Definition get {A B : Type} (o : option A) (k : A -> result B) : result B :=
  match o with
  | Some a => k a
  | None => Panic
  end.

Definition wrap_u64 (n : Z) : Z := n mod 2 ^ 64.
Definition wrap_int (n : Z) : Z := (n + 2 ^ 63) mod 2 ^ 64 - 2 ^ 63.

(** The slice [b[lo:hi]] and the slice [b[lo:]]; [None] is the panic. *)
Definition slice (b : list byte) (lo hi : Z) : option (list byte) :=
  if (0 <=? lo) && (lo <=? hi) && (hi <=? Z.of_nat (length b))
  then Some (firstn (Z.to_nat (hi - lo)) (skipn (Z.to_nat lo) b))
  else None.

Definition slice_from (b : list byte) (lo : Z) : option (list byte) :=
  slice b lo (Z.of_nat (length b)).

(** The element [b[i]]. *)
Definition index (b : list byte) (i : Z) : option byte :=
  if 0 <=? i then nth_error b (Z.to_nat i) else None.

(** ** encoding/binary, little endian *)

Fixpoint le_decode (bs : list byte) : Z :=
  match bs with
  | [] => 0
  | b :: rest => Z.lor (Z_of_byte b) (Z.shiftl (le_decode rest) 8)
  end.

Fixpoint le_encode (k : nat) (n : Z) : list byte :=
  match k with
  | O => []
  | S k' => byte_of_Z n :: le_encode k' (Z.shiftr n 8)
  end.

(** [binary.LittleEndian.Uint16(b)] and [Uint64(b)]: they panic on a slice
    that is too short. *)
Definition Uint16 (b : list byte) : option Z :=
  if (2 <=? length b)%nat then Some (le_decode (firstn 2 b)) else None.

Definition Uint64 (b : list byte) : option Z :=
  if (8 <=? length b)%nat then Some (le_decode (firstn 8 b)) else None.

(** ** packet.go *)

Definition WriteString (buf : list byte) (s : list byte) : list byte :=
  buf ++ s ++ [Byte.x00].

Definition WriteUint16 (buf : list byte) (n : Z) : list byte :=
  buf ++ le_encode 2 n.

Definition WriteUint32 (buf : list byte) (n : Z) : list byte :=
  buf ++ le_encode 4 n.

(** ** resultset.go *)

Definition OK_PACKET : Z := 0.
Definition EOF_PACKET : Z := 254.
Definition ERR_PACKET : Z := 255.

Record OKPacket := mkOKPacket {
  AffectedRows : Z;
  LastInsertID : Z;
  OKStatusFlags : Z;
  OKWarnings : Z;
  Info : list byte
}.

Record ERRPacket := mkERRPacket {
  ErrorCode : Z;
  SQLState : list byte;
  ErrorMessage : list byte
}.

Record EOFPacket := mkEOFPacket {
  EOFWarnings : Z;
  EOFStatusFlags : Z
}.

(** [readLengthEncodedInt]: the value and the number of bytes read; [None]
    is a panic. *)
Definition readLengthEncodedInt (b : list byte) : option (Z * Z) :=
  match b with
  | [] => Some (0, 0)
  | b0 :: _ =>
      let c := Z_of_byte b0 in
      if c =? 251 then Some (0, 1)
      else if c =? 252 then
        if Z.of_nat (length b) <? 3 then Some (0, 0)
        else s ← slice b 1 3; v ← Uint16 s; Some (v, 3)
      else if c =? 253 then
        if Z.of_nat (length b) <? 4 then Some (0, 0)
        else
          b1 ← index b 1; b2 ← index b 2; b3 ← index b 3;
          Some (Z.lor (Z.lor (Z_of_byte b1) (Z.shiftl (Z_of_byte b2) 8))
                  (Z.shiftl (Z_of_byte b3) 16), 4)
      else if c =? 254 then
        if Z.of_nat (length b) <? 9 then Some (0, 0)
        else s ← slice b 1 9; v ← Uint64 s; Some (v, 9)
      else Some (c, 1)
  end.

(** [readLengthEncodedString]: the string and the number of bytes read.
    The sum [uint64(n)+length] wraps around. *)
Definition readLengthEncodedString (b : list byte) : result (list byte * Z) :=
  get (readLengthEncodedInt b) (fun r =>
    let length := fst r in
    let n := snd r in
    if n =? 0 then Error "failed to read length"
    else if length =? 0 then Ok ([], n)
    else if Z.of_nat (List.length b) <? wrap_u64 (n + length) then
      Error "not enough data for string"
    else
      get (slice b n (wrap_u64 (n + length))) (fun s =>
        Ok (s, wrap_int (n + wrap_int length)))).

Definition WriteLengthEncodedInt (buf : list byte) (n : Z) : list byte :=
  if n <? 251 then buf ++ [byte_of_Z n]
  else if n <? 2 ^ 16 then (buf ++ [Byte.xfc]) ++ le_encode 2 (n mod 2 ^ 16)
  else if n <? 2 ^ 24 then
    (buf ++ [Byte.xfd])
      ++ [byte_of_Z n; byte_of_Z (Z.shiftr n 8); byte_of_Z (Z.shiftr n 16)]
  else (buf ++ [Byte.xfe]) ++ le_encode 8 n.

(** The bytes [WriteLengthEncodedInt] appends. *)
Definition lenenc (n : Z) : list byte := WriteLengthEncodedInt [] n.

Definition WriteLengthEncodedString (buf : list byte) (s : list byte) : list byte :=
  WriteLengthEncodedInt buf (wrap_u64 (Z.of_nat (length s))) ++ s.

Definition first_is (payload : list byte) (c : Z) : bool :=
  match payload with
  | b0 :: _ => Z_of_byte b0 =? c
  | [] => false
  end.

Notation "'got' x <- e ; k" := (get e (fun x => k))
  (at level 10, x name, e at level 100, k at level 200).

Definition ParseOKPacket (payload : list byte) : result OKPacket :=
  let len := Z.of_nat (length payload) in
  if len <? 7 then Error "OK packet too short"
  else
    got p0 <- index payload 0;
    if negb (Z_of_byte p0 =? OK_PACKET) then Error "not an OK packet"
    else
      let pos := 1 in
      got b1 <- slice_from payload pos;
      got r1 <- readLengthEncodedInt b1;
      let affectedRows := fst r1 in
      let pos := pos + snd r1 in
      got b2 <- slice_from payload pos;
      got r2 <- readLengthEncodedInt b2;
      let lastInsertID := fst r2 in
      let pos := pos + snd r2 in
      if len <? pos + 4 then Error "unexpected end of OK packet"
      else
        got b3 <- slice_from payload pos;
        got statusFlags <- Uint16 b3;
        let pos := pos + 2 in
        got b4 <- slice_from payload pos;
        got warnings <- Uint16 b4;
        let pos := pos + 2 in
        if pos <? len then
          got info <- slice_from payload pos;
          Ok (mkOKPacket affectedRows lastInsertID statusFlags warnings info)
        else Ok (mkOKPacket affectedRows lastInsertID statusFlags warnings []).

Definition ParseERRPacket (payload : list byte) : result ERRPacket :=
  let len := Z.of_nat (length payload) in
  if len <? 9 then Error "ERR packet too short"
  else
    got p0 <- index payload 0;
    if negb (Z_of_byte p0 =? ERR_PACKET) then Error "not an ERR packet"
    else
      got s <- slice payload 1 3;
      got errorCode <- Uint16 s;
      let pos := 3 in
      got marker <- index payload pos;
      if Z_of_byte marker =? 35 then
        got sqlState <- slice payload (pos + 1) (pos + 6);
        got errorMessage <- slice_from payload (pos + 6);
        Ok (mkERRPacket errorCode sqlState errorMessage)
      else
        got errorMessage <- slice_from payload pos;
        Ok (mkERRPacket errorCode [] errorMessage).

Definition ParseEOFPacket (payload : list byte) : result EOFPacket :=
  let len := Z.of_nat (length payload) in
  if len <? 5 then Error "EOF packet too short"
  else
    got p0 <- index payload 0;
    if negb (Z_of_byte p0 =? EOF_PACKET) then Error "not an EOF packet"
    else
      got s1 <- slice payload 1 3;
      got warnings <- Uint16 s1;
      got s2 <- slice payload 3 5;
      got statusFlags <- Uint16 s2;
      Ok (mkEOFPacket warnings statusFlags).

Definition IsOKPacket (payload : list byte) : bool :=
  if Z.of_nat (length payload) <? 7 then false else first_is payload OK_PACKET.

Definition IsEOFPacket (payload : list byte) : bool :=
  if Z.of_nat (length payload) <? 5 then false
  else first_is payload EOF_PACKET && (Z.of_nat (length payload) <? 9).

Definition IsERRPacket (payload : list byte) : bool :=
  if Z.of_nat (length payload) <? 3 then false else first_is payload ERR_PACKET.

(** ** commands.go *)

Definition upper_char (c : ascii) : ascii :=
  let n := nat_of_ascii c in
  if ((97 <=? n) && (n <=? 122))%nat then ascii_of_nat (n - 32) else c.

Fixpoint toUpper (s : string) : string :=
  match s with
  | String c rest => String (upper_char c) (toUpper rest)
  | EmptyString => EmptyString
  end.

Definition IsTransactionCommand (query : string) : bool :=
  let upperQuery := toUpper query in
  String.eqb upperQuery "BEGIN" || String.eqb upperQuery "START TRANSACTION"
  || String.eqb upperQuery "COMMIT" || String.eqb upperQuery "ROLLBACK".

End Wire.

(* ===================================================================== *)
(** * The other two rounding modes against exact arithmetic               *)
(* ===================================================================== *)

Module RoundingModes.
Import Float64 Rounding.

(** [n / d] rounded to the nearest integer, halves away from zero, as
    [math.Round] does. *)
Definition half_away_div (n d : Z) : Z :=
  let q := Z.abs n / d in
  let r2 := 2 * (Z.abs n mod d) in
  Z.sgn n * (if r2 <? d then q else q + 1).

(** The binary64 nearest to [s / r] rounded half away from zero to [p]
    fractional digits. *)
Definition spec_arithmetic_f64 (s r p : Z) : float64 :=
  of_ratio (half_away_div (s * 10 ^ p) r) (Z.to_pos (10 ^ p)).

Definition agrees_arithmetic (s r p : Z) : bool :=
  feq (ConvertIDRtoIDN (NewEngine ArithmeticRound p) s r) (spec_arithmetic_f64 s r p).

(** [s / r] cut after [p] fractional digits, as an integer count of units
    [10 ^ -p]. *)
Definition truncated_units (s r p : Z) : Z := Z.quot (s * 10 ^ p) r.

(** The conversion without rounding gives the binary64 nearest to the
    truncated value, or to the value one unit nearer to zero. *)
Definition truncates_within_one (s r p : Z) : bool :=
  let x := ConvertIDRtoIDN (NewEngine NoRound p) s r in
  let t := truncated_units s r p in
  feq x (of_ratio t (Z.to_pos (10 ^ p)))
  || (negb (t =? 0) && feq x (of_ratio (t - Z.sgn t) (Z.to_pos (10 ^ p)))).

(** [f s r p] for every ratio, every precision from 0 to 10 and every
    [s] between [- bound] and [bound]. *)
Definition check_modes (f : Z -> Z -> Z -> bool) (bound : Z) : bool :=
  forallb
    (fun r =>
       forall_from 11 0
         (fun p => forall_from (Z.to_nat (2 * bound + 1)) (- bound)
                     (fun s => f s r p)))
    ratios.

Definition modes_bound : Z := 100.

End RoundingModes.

(* ===================================================================== *)
(** * Runs of failures seen by the circuit breaker                        *)
(* ===================================================================== *)

Module BreakerRuns.
Import Breaker.

(** Every run of consecutive failing calls of [cs], the first one
    counted from [f] failures already seen, stays below [limit]. *)
Fixpoint runs_below (limit f : Z) (cs : list CallInput) : bool :=
  match cs with
  | [] => true
  | c :: rest =>
      if fn_err c then (f + 1 <? limit) && runs_below limit (f + 1) rest
      else runs_below limit 0 rest
  end.

(** The outcomes of a sequence of calls, in order. *)
Fixpoint outcomes (cb : CircuitBreaker) (cs : list CallInput) : list Outcome :=
  match cs with
  | [] => []
  | c :: rest => snd (Call cb c) :: outcomes (fst (Call cb c)) rest
  end.

End BreakerRuns.

(* ===================================================================== *)
(** * The idle channel of the backend pool                                *)
(* ===================================================================== *)

Module PoolChannel.
Import Breaker Pool.

(** The drain loop of [cleanupStaleConnections], one [select] per unit of
    fuel.  [chan_closed] tells whether [close(bp.connections)] has run: a
    receive from a closed and empty channel does not block, it yields
    [nil], and the loop goes on ([continue]); on an open and empty channel
    the [default] case leaves the loop.  The result is [healthyConns] and
    the number of evictions; [None]: the fuel ran out inside the loop. *)
Fixpoint drain (fuel : nat) (chan_closed : bool) (stale : BackendConn -> bool)
  (idle healthyConns : list BackendConn) (evicted : Z)
  : option (list BackendConn * Z) :=
  match fuel with
  | O => None
  | S fuel' =>
      match idle with
      | conn :: rest =>
          if stale conn then drain fuel' chan_closed stale rest healthyConns (evicted + 1)
          else drain fuel' chan_closed stale rest (healthyConns ++ [conn]) evicted
      | [] =>
          if chan_closed then drain fuel' chan_closed stale [] healthyConns evicted
          else Some (healthyConns, evicted)
      end
  end.

(** Operations that the users of the pool call ([Acquire], [Release]). *)
Definition is_user_op (op : Op) : bool :=
  match op with
  | OpAcquire _ _ | OpRelease _ => true
  | OpCleanup _ | OpClose => false
  end.

(** A connection in the state [Reset] leaves it in. *)
Definition clean (conn : BackendConn) : Prop :=
  inTransaction conn = false /\ database conn = "".

Definition clean_idle (bp : BackendPool) : Prop := Forall clean (connections bp).

End PoolChannel.

(* ===================================================================== *)
(** * internal/dualwrite: the orchestrator                                *)
(* ===================================================================== *)

Module Orchestrator.
Import Float64 Rounding Sqlparser Config Parser.
Local Open Scope string_scope.
Local Open Scope Z_scope.

(** [strconv.ParseUint(s, 10, 64)]: a non-empty run of decimal digits
    whose value fits 64 bits; [None] is an error. *)
Fixpoint parse_digits (s : string) (acc : Z) : option Z :=
  match s with
  | EmptyString => Some acc
  | String c rest =>
      match Fmt.digit_val c with
      | Some d => parse_digits rest (10 * acc + d)
      | None => None
      end
  end.

Definition ParseUint (s : string) : option Z :=
  match s with
  | EmptyString => None
  | _ =>
      match parse_digits s 0 with
      | Some un => if un <? 2 ^ 64 then Some un else None
      | None => None
      end
  end.

(** [strconv.ParseInt(s, 10, 64)]: an optional sign, then digits, the
    value within [int64]. *)
Definition ParseInt (s : string) : option Z :=
  match s with
  | EmptyString => None
  | String c rest =>
      let neg := Ascii.eqb c "-" in
      let body := if Ascii.eqb c "+" || Ascii.eqb c "-" then rest else s in
      match ParseUint body with
      | None => None
      | Some un =>
          if negb neg && (2 ^ 63 <=? un) then None
          else if neg && (2 ^ 63 <? un) then None
          else Some (if neg then - un else un)
      end
  end.

Inductive error :=
| ErrParseQuery
| ErrParseValue (colName : string)
| ErrUnsupportedValueType (colName : string).

(** The loop of [convertCurrencyValues] over [pq.CurrencyColumns]. *)
Fixpoint convertLoop (engine : Engine) (ratio : Z) (values : gmap string GoValue)
  (columns : list string) (converted : gmap string float64)
  : error + gmap string float64 :=
  match columns with
  | [] => inr converted
  | colName :: rest =>
      match values !! colName with
      | None => convertLoop engine ratio values rest converted
      | Some (VString v) =>
          match ParseInt v with
          | Some intValue =>
              convertLoop engine ratio values rest
                (<[colName := ConvertIDRtoIDN engine intValue ratio]> converted)
          | None => inl (ErrParseValue colName)
          end
      | Some _ => inl (ErrUnsupportedValueType colName)
      end
  end.

Definition convertCurrencyValues (engine : Engine) (ratio : Z) (pq : ParsedQuery)
  : error + gmap string float64 :=
  convertLoop engine ratio (Values_ pq) (CurrencyColumns pq) ∅.

(** [NewOrchestrator] builds the engine from the conversion settings. *)
Definition engine_of (cfg : Config) : Engine :=
  NewEngine (Session.strategy_of (ConversionRoundingStrategy (Conversion cfg)))
    (ConversionPrecision (Conversion cfg)).

(** [InterceptAndRewrite]: [parsed] is what [sqlparser.Parse(query)]
    returned. *)
Definition InterceptAndRewrite (cfg : Config) (query : string)
  (parsed : option Statement) : error + string :=
  match Parse (Tables cfg) query parsed with
  | None => inl ErrParseQuery
  | Some pq =>
      if negb (NeedsTransform pq) then inr query
      else
        match convertCurrencyValues (engine_of cfg) (Ratio (Conversion cfg)) pq with
        | inl e => inl e
        | inr convertedValues =>
            inr (RewriteForDualWrite (Tables cfg) pq convertedValues)
        end
  end.

(** The integer a value stands for, if it is the text of one. *)
Definition integer_of (v : GoValue) : option Z :=
  match v with
  | VString s => ParseInt s
  | _ => None
  end.

(** A currency column whose recorded value is not the text of an integer. *)
Definition bad_value (values : gmap string GoValue) (col : string) : Prop :=
  exists v, values !! col = Some v /\ integer_of v = None.

End Orchestrator.

(* ===================================================================== *)
(** * What a statement names                                              *)
(* ===================================================================== *)

Module Written.
Import Float64 Rounding Sqlparser Config Parser.
Local Open Scope string_scope.

(** The columns of [names] that the table configures, in order. *)
Definition configured (tc : TableConfig) (names : list string) : list string :=
  List.filter (fun col => bool_decide (is_Some (Config.Columns tc !! col))) names.

Definition nonempty {A : Type} (l : list A) : bool :=
  match l with [] => false | _ => true end.

(** The configured columns a statement names: those of the column list of
    an INSERT or of the SET list of an UPDATE, when the table is
    configured and enabled. *)
Definition written_columns (tables : gmap string TableConfig) (stmt : Statement)
  : list string :=
  match stmt with
  | StmtInsert i =>
      match tables !! Table i with
      | Some tc => if Enabled tc then configured tc (Sqlparser.Columns i) else []
      | None => []
      end
  | StmtUpdate u =>
      match tables !! firstTableName (TableExprs u) with
      | Some tc => if Enabled tc then configured tc (map Name (Exprs u)) else []
      | None => []
      end
  | _ => []
  end.

End Written.

(* ===================================================================== *)
(** * internal/replica: the router and its health checker                 *)
(* ===================================================================== *)

Module Replica.
Import Wire.
Local Open Scope string_scope.
Local Open Scope Z_scope.

(** A database handle ([*sql.DB]) is named by a number. *)
Abbreviation DB := Z.

Record HealthChecker := mkHealthChecker {
  hc_replicas : list DB;
  healthStatus : list bool
}.

(** [NewHealthChecker]: every replica starts as healthy. *)
Definition NewHealthChecker (replicas : list DB) : HealthChecker :=
  mkHealthChecker replicas (map (fun _ => true) replicas).

(** [checkAllReplicas]: [ping] tells whether the ping of a replica
    succeeds. *)
Definition checkAllReplicas (hc : HealthChecker) (ping : DB -> bool) : HealthChecker :=
  mkHealthChecker (hc_replicas hc) (map ping (hc_replicas hc)).

(** The loop of [GetHealthyReplicas] over [healthStatus]; [None] is the
    panic of [hc.replicas[i]] out of range. *)
Fixpoint healthy_from (status : list bool) (replicas : list DB) : option (list DB) :=
  match status with
  | [] => Some []
  | isHealthy :: status' =>
      match replicas with
      | [] => if isHealthy then None else healthy_from status' []
      | replica :: replicas' =>
          rest ← healthy_from status' replicas';
          Some (if isHealthy then replica :: rest else rest)
      end
  end.

Definition GetHealthyReplicas (hc : HealthChecker) : option (list DB) :=
  healthy_from (healthStatus hc) (hc_replicas hc).

Record Router := mkRouter {
  primary : DB;
  replicas : list DB;
  replicaIndex : Z;
  strategy : string;
  healthChecker : HealthChecker
}.

(** [NewRouter] once the connections are opened. *)
Definition NewRouter (primary : DB) (replicas : list DB) (strategy : string) : Router :=
  mkRouter primary replicas 0
    (if String.eqb strategy "" then "ROUND_ROBIN" else strategy)
    (NewHealthChecker replicas).

(** [l[i]] for an [int] index. *)
Definition at_index (l : list DB) (i : Z) : option DB :=
  if 0 <=? i then nth_error l (Z.to_nat i) else None.

(** [getReadConnection]; [now] is [time.Now().UnixNano()], read by the
    strategy RANDOM only.  Every other strategy takes the replica at
    [replicaIndex % len(healthyReplicas)] and then increments the index. *)
Definition getReadConnection (r : Router) (now : Z) : result (Router * DB) :=
  match replicas r with
  | [] => Ok (r, primary r)
  | _ =>
      got healthyReplicas <- GetHealthyReplicas (healthChecker r);
      match healthyReplicas with
      | [] => Ok (r, primary r)
      | _ =>
          let len := Z.of_nat (length healthyReplicas) in
          if String.eqb (strategy r) "RANDOM" then
            got replica <- at_index healthyReplicas (Z.rem now len);
            Ok (r, replica)
          else
            got replica <- at_index healthyReplicas (Z.rem (replicaIndex r) len);
            Ok (mkRouter (primary r) (replicas r) (wrap_int (replicaIndex r + 1))
                  (strategy r) (healthChecker r),
                replica)
      end
  end.

Definition QueryTypeRead : Z := 0.
Definition QueryTypeWrite : Z := 1.

Definition GetConnection (r : Router) (queryType : Z) (now : Z) : result (Router * DB) :=
  if queryType =? QueryTypeWrite then Ok (r, primary r)
  else if queryType =? QueryTypeRead then getReadConnection r now
  else Error "unknown query type".

(** [n] reads one after the other, with no health check in between: the
    router after them and the connections they got, in order. *)
Fixpoint reads (r : Router) (now : Z) (n : nat) : result (Router * list DB) :=
  match n with
  | O => Ok (r, [])
  | S n' =>
      match getReadConnection r now with
      | Ok (r1, db) =>
          match reads r1 now n' with
          | Ok (r2, dbs) => Ok (r2, db :: dbs)
          | Error msg => Error msg
          | Panic => Panic
          end
      | Error msg => Error msg
      | Panic => Panic
      end
  end.

(** The router holds the replicas its health checker watches, one status
    per replica, and the index has not wrapped around. *)
Definition well_formed (r : Router) : Prop :=
  hc_replicas (healthChecker r) = replicas r /\
  length (healthStatus (healthChecker r)) = length (replicas r) /\
  0 <= replicaIndex r < 2 ^ 63 - 1.

(** The replicas whose last check succeeded. *)
Definition healthy_replicas (r : Router) : list DB :=
  map fst (List.filter snd (combine (replicas r) (healthStatus (healthChecker r)))).

End Replica.

(* ===================================================================== *)
(** * Package backfill on a table with several currency columns          *)
(* ===================================================================== *)

Module BackfillTable.
Import Float64 Rounding Config.
Local Open Scope string_scope.
Local Open Scope Z_scope.

(** A row of the table: its id, the values of its source columns (an
    absent column is NULL) and the values of its shadow columns (absent:
    NULL); a shadow cell holds the number the UPDATE sent. *)
Record TableRow := mkTableRow {
  row_id : Z;
  source : gmap string Z;
  shadow : gmap string float64
}.

(** The table in the order the server returns its rows, and the number
    of UPDATE statements issued so far. *)
Record DB := mkDB {
  table : list TableRow;
  execs : nat
}.

Record Worker := mkWorker {
  config : Backfill.BackfillConfig;
  ratio : Z;
  roundingEngine : Engine
}.

Inductive error :=
| ErrNoCurrencyColumns
| ErrQueryBatch
| ErrScanRow
| ErrUpdateRow (row : Z).

Inductive JobError :=
| ErrCountRows
| ErrBatchProcessing (e : error).

Definition zeroColumnConfig : ColumnConfig := mkColumnConfig "" "" "" "" "" 0.

(** [for col, cfg := range columns { ...; break }]: a [range] over a Go
    map starts at an entry of its choice, so which entry comes first is an
    input, [order]; an empty map leaves the zero values. *)
Definition first_entry (columns : gmap string ColumnConfig) (order : nat)
  : string * ColumnConfig :=
  let entries := map_to_list columns in
  match nth_error entries (order mod length entries) with
  | Some entry => entry
  | None => ("", zeroColumnConfig)
  end.

(** [WHERE <target> IS NULL] *)
Definition is_null (target : string) (r : TableRow) : bool :=
  match shadow r !! target with
  | None => true
  | Some _ => false
  end.

(** [SELECT id, <column> FROM t WHERE <target> IS NULL LIMIT <limit>]:
    the id and the source value ([None]: NULL) of each row selected. *)
Definition selectBatch (column target : string) (limit : nat) (t : list TableRow)
  : list (Z * option Z) :=
  map (fun r => (row_id r, source r !! column))
    (firstn limit (List.filter (is_null target) t)).

(** [UPDATE t SET <target> = value WHERE id = i] *)
Definition execUpdate (target : string) (value : float64) (i : Z) (t : list TableRow)
  : list TableRow :=
  map (fun r =>
         if row_id r =? i
         then mkTableRow (row_id r) (source r) (<[target := value]> (shadow r))
         else r)
    t.

(** [countPendingRows]; [None] is the error.  A statement built from an
    empty column name is refused by the server. *)
Definition countPendingRows (be : Backfill.Backend) (tc : TableConfig) (order : nat)
  (db : DB) : option Z :=
  let firstConfig := snd (first_entry (Columns tc) order) in
  if Backfill.count_fails be || String.eqb (TargetColumn firstConfig) "" then None
  else Some (Z.of_nat (length (List.filter (is_null (TargetColumn firstConfig)) (table db)))).

(** The loop [for rows.Next()] of [processBatch] over the rows of the
    batch: scan, convert, update. *)
Fixpoint updateRows (w : Worker) (be : Backfill.Backend) (target : string)
  (rows : list (Z * option Z)) (db : DB) (processed : Z) : DB * Z * option error :=
  match rows with
  | [] => (db, processed, None)
  | (id, scanned) :: rest =>
      match scanned with
      | None => (db, processed, Some ErrScanRow)
      | Some value =>
          let convertedValue := ConvertIDRtoIDN (roundingEngine w) value (ratio w) in
          if Backfill.exec_fails be (execs db) id then
            (mkDB (table db) (S (execs db)), processed, Some (ErrUpdateRow id))
          else
            updateRows w be target rest
              (mkDB (execUpdate target convertedValue id (table db)) (S (execs db)))
              (processed + 1)
      end
  end.

Definition processBatch (w : Worker) (be : Backfill.Backend) (tc : TableConfig)
  (order : nat) (db : DB) : DB * Z * option error :=
  let '(firstColumn, firstConfig) := first_entry (Columns tc) order in
  if String.eqb firstColumn "" then (db, 0, Some ErrNoCurrencyColumns)
  else if Backfill.query_fails be || (Backfill.BatchSize (config w) <? 0)
          || String.eqb (TargetColumn firstConfig) "" then
    (db, 0, Some ErrQueryBatch)
  else
    updateRows w be (TargetColumn firstConfig)
      (selectBatch firstColumn (TargetColumn firstConfig)
         (Z.to_nat (Backfill.BatchSize (config w))) (table db))
      db 0.

Definition shouldRetry (w : Worker) (p : Backfill.Progress) : bool :=
  Backfill.errors p <? Backfill.RetryAttempts (config w).

(** The batch loop of [Start] when no pause, stop or cancellation signal
    arrives; [order k] is the entry the [range] of the [k]-th call of
    [processBatch] yields first.  [None]: the fuel ran out. *)
Fixpoint batchLoop (fuel : nat) (w : Worker) (be : Backfill.Backend) (tc : TableConfig)
  (order : nat -> nat) (k : nat) (p : Backfill.Progress) (db : DB)
  : option (option JobError * Backfill.Progress * DB) :=
  match fuel with
  | O => None
  | S fuel' =>
      let '(db', processed, err) := processBatch w be tc (order k) db in
      match err with
      | Some e =>
          let p' := Backfill.IncrementErrors p in
          if shouldRetry w p' then batchLoop fuel' w be tc order (S k) p' db'
          else Some (Some (ErrBatchProcessing e), p', db')
      | None =>
          if processed =? 0 then Some (None, Backfill.Complete p, db')
          else
            batchLoop fuel' w be tc order (S k)
              (Backfill.IncrementCompleted p processed) db'
      end
  end.

(** [Start]: [order 0] is the choice of [countPendingRows], [order k] the
    one of the [k]-th batch. *)
Definition Start (fuel : nat) (w : Worker) (be : Backfill.Backend) (tc : TableConfig)
  (order : nat -> nat) (db : DB)
  : option (option JobError * Backfill.Progress * DB) :=
  let p := Backfill.ProgressStart Backfill.NewProgress in
  match countPendingRows be tc (order O) db with
  | None => Some (Some ErrCountRows, p, db)
  | Some totalRows =>
      let p := Backfill.SetTotal p totalRows in
      if totalRows =? 0 then Some (None, Backfill.Complete p, db)
      else batchLoop fuel w be tc order 1 p db
  end.

(** ** What the statements about a job say *)

(** The number of rows whose shadow column [target] is NULL. *)
Definition count_null (target : string) (t : list TableRow) : nat :=
  length (List.filter (is_null target) t).

(** Every configured column has a name and a target, and there is one. *)
Definition well_configured (tc : TableConfig) : bool :=
  match map_to_list (Columns tc) with
  | [] => false
  | entries =>
      forallb (fun e => negb (String.eqb (fst e) "")
                        && negb (String.eqb (TargetColumn (snd e)) ""))
        entries
  end.

(** No row has a NULL in a configured source column. *)
Definition sources_present (tc : TableConfig) (t : list TableRow) : bool :=
  forallb (fun r =>
             forallb (fun e => match source r !! fst e with
                               | Some _ => true
                               | None => false
                               end)
               (map_to_list (Columns tc)))
    t.

(** From [r] to [r']: the id and the source values are kept, and every
    shadow cell is as it was, or was NULL and now holds the conversion of
    the row's own value of a source column configured with that target. *)
Definition migrated_from (w : Worker) (tc : TableConfig) (r r' : TableRow) : Prop :=
  row_id r' = row_id r /\ source r' = source r /\
  forall target,
    shadow r' !! target = shadow r !! target \/
    (shadow r !! target = None /\
     exists column cfg value,
       Columns tc !! column = Some cfg /\ TargetColumn cfg = target /\
       source r !! column = Some value /\
       shadow r' !! target
       = Some (ConvertIDRtoIDN (roundingEngine w) value (ratio w))).

(** ** What a batch does to the table *)

(** The rows with an id of [ids] get, in the shadow column [target], the
    conversion of their own value of [column]. *)
Definition migrate_row (w : Worker) (column target : string) (ids : list Z)
  (r : TableRow) : TableRow :=
  if existsb (Z.eqb (row_id r)) ids then
    match source r !! column with
    | Some value =>
        mkTableRow (row_id r) (source r)
          (<[target := ConvertIDRtoIDN (roundingEngine w) value (ratio w)]> (shadow r))
    | None => r
    end
  else r.

(** The NULL shadow cells of the table, over the configured entries. *)
Definition nulls (tc : TableConfig) (t : list TableRow) : nat :=
  list_sum (map (fun e => count_null (TargetColumn (snd e)) t)
              (map_to_list (Columns tc))).

(** The rows of a batch that are still to come carry the value that the
    rows of the table with their id have in [column]. *)
Definition consistent (column : string) (rows : list (Z * option Z))
  (t : list TableRow) : Prop :=
  forall i v, In (i, v) rows ->
    is_Some v /\ forall r, In r t -> row_id r = i -> source r !! column = v.

(** ** The table [orders] of the repository *)

Definition demo_worker : Worker :=
  mkWorker (Backfill.mkBackfillConfig 100 0 3 0) 1000 (NewEngine BankersRound 4).

Definition no_failure : Backfill.Backend :=
  Backfill.mkBackend false false (fun _ _ => false).

Definition order_row (i total_amount shipping_fee : Z) : TableRow :=
  mkTableRow i
    (<["total_amount" := total_amount]> (<["shipping_fee" := shipping_fee]> ∅)) ∅.

Definition orders_rows : list TableRow :=
  [order_row 1 500000 25000; order_row 2 1250000 30000; order_row 3 750000 20000].

End BackfillTable.

(* ===================================================================== *)
(** * Theorems: packet framing                                            *)
(* ===================================================================== *)

Module ProtocolFacts.
Import Protocol.

Lemma Z_of_byte_of_Z (n : Z) : Z_of_byte (byte_of_Z n) = n mod 256.
Proof.
  unfold Z_of_byte, byte_of_Z.
  assert (Hr : 0 <= n mod 256 < 256) by (apply Z.mod_pos_bound; lia).
  destruct (Byte.of_N (Z.to_N (n mod 256))) as [b|] eqn:Hb.
  - apply Byte.to_of_N in Hb. rewrite Hb. lia.
  - apply Byte.of_N_None_iff in Hb. lia.
Qed.

(** The three length bytes of the header give the length back. *)
Lemma length_bytes_decode (n : Z) :
  0 <= n <= 16777215 ->
  Z.lor (Z.lor (n mod 256) (Z.shiftl (Z.shiftr n 8 mod 256) 8))
    (Z.shiftl (Z.shiftr n 16 mod 256) 16) = n.
Proof.
  intros Hn.
  apply Z.bits_inj'. intros i Hi.
  rewrite !Z.lor_spec.
  change 256 with (2 ^ 8).
  destruct (Z.lt_ge_cases i 8) as [H8|H8].
  - rewrite Z.mod_pow2_bits_low by lia.
    rewrite !Z.shiftl_spec_low by lia.
    now rewrite !orb_false_r.
  - rewrite Z.mod_pow2_bits_high by lia.
    rewrite Z.shiftl_spec by lia.
    destruct (Z.lt_ge_cases i 16) as [H16|H16].
    + rewrite Z.mod_pow2_bits_low by lia.
      rewrite Z.shiftr_spec by lia.
      rewrite Z.shiftl_spec_low by lia.
      rewrite orb_false_r. simpl. f_equal. lia.
    + rewrite Z.mod_pow2_bits_high by lia.
      rewrite Z.shiftl_spec by lia.
      destruct (Z.lt_ge_cases i 24) as [H24|H24].
      * rewrite Z.mod_pow2_bits_low by lia.
        rewrite Z.shiftr_spec by lia.
        simpl. f_equal. lia.
      * rewrite Z.mod_pow2_bits_high by lia.
        simpl. symmetry.
        apply Z.bits_above_log2; [lia|].
        destruct (Z.eq_dec n 0) as [->|Hnz]; [simpl; lia|].
        apply Z.log2_lt_pow2; [lia|].
        assert (2 ^ 24 <= 2 ^ i) by (apply Z.pow_le_mono_r; lia).
        lia.
Qed.

Lemma ReadFull_app (a rest : list byte) :
  ReadFull (a ++ rest) (length a) = inr (a, rest).
Proof.
  unfold ReadFull.
  destruct a as [|x a'] eqn:Ea; [reflexivity|].
  rewrite <- Ea.
  assert (Hlen : (length a <=? length (a ++ rest))%nat = true).
  { apply Nat.leb_le. rewrite length_app. lia. }
  rewrite Hlen, take_app_length, drop_app_length.
  subst a. reflexivity.
Qed.

Lemma WritePacket_ok (s : byte) (p : list byte) :
  Z.of_nat (length p) <= 16777215 ->
  WritePacket s p =
    inr ([ byte_of_Z (Z.of_nat (length p));
           byte_of_Z (Z.shiftr (Z.of_nat (length p)) 8);
           byte_of_Z (Z.shiftr (Z.of_nat (length p)) 16);
           s ] ++ p).
Proof.
  intros H. unfold WritePacket.
  destruct (16777215 <? Z.of_nat (length p)) eqn:E; [apply Z.ltb_lt in E; lia|].
  reflexivity.
Qed.

Lemma ReadPacket_header (b0 b1 b2 s : byte) (p rest : list byte) :
  Z.lor (Z.lor (Z_of_byte b0) (Z.shiftl (Z_of_byte b1) 8))
    (Z.shiftl (Z_of_byte b2) 16) = Z.of_nat (length p) ->
  ReadPacket ([b0; b1; b2; s] ++ p ++ rest)
  = inr (mkPacket (Z.of_nat (length p)) s p, rest).
Proof.
  intros Hlen.
  unfold ReadPacket.
  change 4%nat with (length [b0; b1; b2; s]).
  rewrite ReadFull_app.
  cbn [nth]. rewrite Hlen, Nat2Z.id, ReadFull_app. reflexivity.
Qed.

(** C9.  A payload of at most 2^24 - 1 bytes written by [WritePacket]
    with sequence id [s] is read back by [ReadPacket] as the packet with
    that sequence id and that payload, leaving what follows in the stream
    untouched; a longer payload makes [WritePacket] return an error. *)
Theorem framer_roundtrip (s : byte) (p : list byte) :
  (Z.of_nat (length p) <= 2 ^ 24 - 1 ->
     exists w,
       WritePacket s p = inr w /\
       forall rest,
         ReadPacket (w ++ rest)
         = inr (mkPacket (Z.of_nat (length p)) s p, rest)) /\
  (2 ^ 24 - 1 < Z.of_nat (length p) ->
     WritePacket s p = inl (ErrPacketTooLarge (Z.of_nat (length p)))).
Proof.
  change (2 ^ 24 - 1) with 16777215.
  split.
  - intros Hle. eexists. split; [apply WritePacket_ok; exact Hle|].
    intros rest. rewrite <- app_assoc.
    apply ReadPacket_header.
    rewrite !Z_of_byte_of_Z.
    apply length_bytes_decode. lia.
  - intros Hgt. unfold WritePacket.
    apply Z.ltb_lt in Hgt. now rewrite Hgt.
Qed.

Lemma framer_roundtrip_witness :
  exists w,
    WritePacket Byte.x07 [Byte.x03; Byte.x53; Byte.x45] = inr w /\
    forall rest,
      ReadPacket (w ++ rest)
      = inr (mkPacket 3 Byte.x07 [Byte.x03; Byte.x53; Byte.x45], rest).
Proof.
  apply (proj1 (framer_roundtrip Byte.x07 [Byte.x03; Byte.x53; Byte.x45])).
  simpl. lia.
Defined.

End ProtocolFacts.

(* ===================================================================== *)
(** * Theorems: circuit breaker                                           *)
(* ===================================================================== *)

Module BreakerFacts.
Import Breaker.

Ltac unfold_breaker :=
  unfold Call, beforeRequest, afterRequest, onSuccess, onFailure, setState,
    set_halfOpenRequests, set_failures, incr_totalRequests,
    incr_totalSuccesses, incr_totalRejections, record_failure, Reset in *;
  cbn [state config failures lastFailureTime lastStateChange halfOpenRequests
       totalRequests totalSuccesses totalFailures totalRejections
       enter fn_err leave fst snd state_eqb] in *.




Lemma wrap_int_small (n : Z) : - 2 ^ 63 <= n < 2 ^ 63 -> wrap_int n = n.
Proof. intros H. unfold wrap_int. rewrite Z.mod_small; lia. Qed.

(** ** Counters *)













(** ** Transitions *)

(** In [Closed], failures that keep the count below [MaxFailures] leave
    the circuit closed. *)
Lemma failing_below_threshold (k : nat) (cb : CircuitBreaker) (t : Z) :
  state cb = StateClosed ->
  0 <= failures cb ->
  failures cb + Z.of_nat k < MaxFailures (config cb) ->
  MaxFailures (config cb) < 2 ^ 63 ->
  let cb' := failing cb t k in
  state cb' = StateClosed /\ failures cb' = failures cb + Z.of_nat k /\
  config cb' = config cb.
Proof.
  revert cb t. induction k as [|k IH]; intros cb t Hst H0 Hlt Hmax.
  - cbn. repeat split; first [assumption | lia].
  - cbn [failing].
    assert (Hstep : state (fst (Call cb (fail_at t))) = StateClosed /\
                    failures (fst (Call cb (fail_at t))) = failures cb + 1 /\
                    config (fst (Call cb (fail_at t))) = config cb).
    { destruct cb as [cfg st fl lft lsc hor tr ts tf tj]. cbn in *. subst st.
      unfold fail_at. unfold_breaker.
      rewrite wrap_int_small by lia.
      destruct (MaxFailures cfg <=? fl + 1) eqn:E; [apply Z.leb_le in E; lia|].
      cbn. auto. }
    destruct Hstep as (Hs1 & Hf1 & Hc1).
    specialize (IH (fst (Call cb (fail_at t))) (t + 1) Hs1).
    rewrite Hf1, Hc1 in IH.
    destruct IH as (Ha & Hb & Hc); try lia.
    repeat split; [exact Ha | lia | exact Hc].
Qed.

(** The failure that brings the count of consecutive failures to
    [MaxFailures] opens the circuit. *)
Lemma failure_at_threshold_opens (cb : CircuitBreaker) (t : Z) :
  state cb = StateClosed ->
  0 <= failures cb ->
  failures cb + 1 = MaxFailures (config cb) ->
  MaxFailures (config cb) < 2 ^ 63 ->
  let cb' := fst (Call cb (fail_at t)) in
  state cb' = StateOpen /\ lastFailureTime cb' = Some t /\ config cb' = config cb.
Proof.
  intros Hst H0 Heq Hmax.
  destruct cb as [cfg st fl lft lsc hor tr ts tf tj]. cbn in *. subst st.
  unfold fail_at. unfold_breaker.
  rewrite wrap_int_small by lia.
  destruct (MaxFailures cfg <=? fl + 1) eqn:E; [|apply Z.leb_gt in E; lia].
  cbn. auto.
Qed.

(** X10.  A new circuit opens at the [MaxFailures]-th consecutive failure
    and not before. *)
Lemma opens_exactly_at_max_failures (cfg : CircuitBreakerConfig) (now t : Z) (k : nat) :
  1 <= MaxFailures cfg < 2 ^ 63 ->
  Z.of_nat k <= MaxFailures cfg ->
  state (failing (NewCircuitBreaker cfg now) t k)
  = if Z.of_nat k <? MaxFailures cfg then StateClosed else StateOpen.
Proof.
  intros Hm Hk.
  destruct (Z.of_nat k <? MaxFailures cfg) eqn:E.
  - apply Z.ltb_lt in E.
    apply (failing_below_threshold k (NewCircuitBreaker cfg now) t); cbn;
      first [reflexivity | lia].
  - apply Z.ltb_ge in E.
    destruct k as [|k]; [cbn in E; lia|].
    assert (Hsplit : forall n cb u, failing cb u (S n)
              = fst (Call (failing cb u n) (fail_at (u + Z.of_nat n)))).
    { induction n as [|n IHn]; intros cb u.
      - cbn. now rewrite Z.add_0_r.
      - change (failing cb u (S (S n)))
          with (failing (fst (Call cb (fail_at u))) (u + 1) (S n)).
        rewrite IHn. cbn [failing]. do 3 f_equal. lia. }
    rewrite Hsplit.
    destruct (failing_below_threshold k (NewCircuitBreaker cfg now) t)
      as (Hs & Hf & Hc); cbn; try first [reflexivity | lia].
    apply failure_at_threshold_opens; rewrite ?Hf, ?Hc; cbn; try lia.
    exact Hs.
Qed.

Lemma opens_exactly_at_max_failures_witness :
  state (failing (NewCircuitBreaker (mkConfig 3 100 2) 0) 1 2) = StateClosed /\
  state (failing (NewCircuitBreaker (mkConfig 3 100 2) 0) 1 3) = StateOpen.
Proof.
  split.
  - apply (opens_exactly_at_max_failures (mkConfig 3 100 2) 0 1 2); cbn; lia.
  - apply (opens_exactly_at_max_failures (mkConfig 3 100 2) 0 1 3); cbn; lia.
Defined.

(** X11.  While [Open] and until the timeout has passed since the last
    failure, a call is rejected and [fn] does not run. *)
Lemma open_rejects (cb : CircuitBreaker) (c : CallInput) (t0 : Z) :
  state cb = StateOpen ->
  lastFailureTime cb = Some t0 ->
  enter c - t0 <= Timeout (config cb) ->
  snd (Call cb c) = Rejected /\ state (fst (Call cb c)) = StateOpen.
Proof.
  intros Hst Hlf Hle.
  destruct cb as [cfg st fl lft lsc hor tr ts tf tj]. cbn in *. subst st lft.
  unfold_breaker. unfold Since.
  destruct (Timeout cfg <? enter c - t0) eqn:E; [apply Z.ltb_lt in E; lia|].
  cbn. auto.
Qed.

Lemma open_rejects_witness :
  let cb := failing (NewCircuitBreaker (mkConfig 2 100 2) 0) 1 2 in
  snd (Call cb (ok_at 102)) = Rejected /\ state (fst (Call cb (ok_at 102))) = StateOpen.
Proof.
  apply (open_rejects (failing (NewCircuitBreaker (mkConfig 2 100 2) 0) 1 2)
           (ok_at 102) 2); cbn; first [reflexivity | lia].
Defined.

(** X12.  Once the timeout has passed since the last failure, the next
    call is admitted as a probe: [fn] runs and the circuit is half-open. *)
Lemma open_admits_after_timeout (cb : CircuitBreaker) (c : CallInput) (t0 : Z) :
  state cb = StateOpen ->
  lastFailureTime cb = Some t0 ->
  Timeout (config cb) < enter c - t0 ->
  snd (Call cb c) = Ran (fn_err c) /\
  state (fst (beforeRequest cb (enter c))) = StateHalfOpen.
Proof.
  intros Hst Hlf Hlt.
  destruct cb as [cfg st fl lft lsc hor tr ts tf tj]. cbn in *. subst st lft.
  unfold_breaker. unfold Since.
  destruct (Timeout cfg <? enter c - t0) eqn:E; [|apply Z.ltb_ge in E; lia].
  cbn. auto.
Qed.

Lemma open_admits_after_timeout_witness :
  let cb := failing (NewCircuitBreaker (mkConfig 2 100 2) 0) 1 2 in
  snd (Call cb (ok_at 103)) = Ran false /\
  state (fst (beforeRequest cb 103)) = StateHalfOpen.
Proof.
  apply (open_admits_after_timeout
           (failing (NewCircuitBreaker (mkConfig 2 100 2) 0) 1 2) (ok_at 103) 2);
    cbn; first [reflexivity | lia].
Defined.

(** X13.  A failure of a call that was admitted while [HalfOpen] reopens
    the circuit. *)
Lemma halfopen_failure_reopens (cb : CircuitBreaker) (c : CallInput) :
  state cb = StateHalfOpen ->
  snd (Call cb c) = Ran true ->
  state (fst (Call cb c)) = StateOpen.
Proof.
  intros Hst.
  destruct cb as [cfg st fl lft lsc hor tr ts tf tj]. cbn in *. subst st.
  destruct c as [t1 err t2].
  unfold_breaker.
  destruct (MaxRequests cfg <=? hor); cbn; [discriminate|].
  intros [= ->]. reflexivity.
Qed.

Lemma halfopen_failure_reopens_witness :
  let opened := failing (NewCircuitBreaker (mkConfig 2 100 2) 0) 1 2 in
  state (fst (Call (fst (Call opened (ok_at 200))) (fail_at 201))) = StateOpen.
Proof.
  apply (halfopen_failure_reopens
           (fst (Call (failing (NewCircuitBreaker (mkConfig 2 100 2) 0) 1 2)
                   (ok_at 200)))
           (fail_at 201)); reflexivity.
Defined.

(** A successful probe in [HalfOpen] closes the circuit only when, with
    it, [halfOpenRequests] reaches [MaxRequests]. *)
Lemma halfopen_success (cb : CircuitBreaker) (t : Z) :
  state cb = StateHalfOpen ->
  0 <= halfOpenRequests cb < MaxRequests (config cb) ->
  MaxRequests (config cb) < 2 ^ 63 ->
  let cb' := fst (Call cb (ok_at t)) in
  config cb' = config cb /\
  if halfOpenRequests cb + 1 <? MaxRequests (config cb)
  then state cb' = StateHalfOpen /\ halfOpenRequests cb' = halfOpenRequests cb + 1
  else state cb' = StateClosed.
Proof.
  intros Hst Hh Hmax.
  destruct cb as [cfg st fl lft lsc hor tr ts tf tj]. cbn in *. subst st.
  unfold ok_at. unfold_breaker.
  destruct (MaxRequests cfg <=? hor) eqn:E1; [apply Z.leb_le in E1; lia|].
  cbn. rewrite wrap_int_small by lia.
  destruct (hor + 1 <? MaxRequests cfg) eqn:E2.
  - apply Z.ltb_lt in E2.
    destruct (MaxRequests cfg <=? hor + 1) eqn:E3; [apply Z.leb_le in E3; lia|].
    cbn. auto.
  - apply Z.ltb_ge in E2.
    destruct (MaxRequests cfg <=? hor + 1) eqn:E3; [|apply Z.leb_gt in E3; lia].
    cbn. auto.
Qed.

(** In [HalfOpen] with [h] counted probes, [k] further successes with
    [h + k < MaxRequests] leave the circuit half-open. *)
Lemma halfopen_stays (k : nat) (cb : CircuitBreaker) (t : Z) :
  state cb = StateHalfOpen ->
  0 <= halfOpenRequests cb ->
  halfOpenRequests cb + Z.of_nat k < MaxRequests (config cb) ->
  MaxRequests (config cb) < 2 ^ 63 ->
  let cb' := successes cb t k in
  state cb' = StateHalfOpen /\
  halfOpenRequests cb' = halfOpenRequests cb + Z.of_nat k /\
  config cb' = config cb.
Proof.
  revert cb t. induction k as [|k IH]; intros cb t Hst H0 Hlt Hmax.
  - cbn. repeat split; first [assumption | lia].
  - cbn [successes].
    destruct (halfopen_success cb t Hst) as (Hc & Hcase); try lia.
    destruct (halfOpenRequests cb + 1 <? MaxRequests (config cb)) eqn:E;
      [|apply Z.ltb_ge in E; lia].
    destruct Hcase as (Hs1 & Hh1).
    specialize (IH (fst (Call cb (ok_at t))) (t + 1) Hs1).
    rewrite Hh1, Hc in IH.
    destruct IH as (Ha & Hb & Hd); try lia.
    repeat split; [exact Ha | lia | exact Hd].
Qed.

(** The probe that moves an open circuit to [HalfOpen] is admitted
    without being counted in [halfOpenRequests]. *)
Lemma first_probe_not_counted (cb : CircuitBreaker) (t t0 : Z) :
  state cb = StateOpen ->
  lastFailureTime cb = Some t0 ->
  Timeout (config cb) < t - t0 ->
  1 <= MaxRequests (config cb) ->
  let cb' := fst (Call cb (ok_at t)) in
  state cb' = StateHalfOpen /\ halfOpenRequests cb' = 0 /\ config cb' = config cb.
Proof.
  intros Hst Hlf Hlt Hm.
  destruct cb as [cfg st fl lft lsc hor tr ts tf tj]. cbn in *. subst st lft.
  unfold ok_at. unfold_breaker. unfold Since.
  destruct (Timeout cfg <? t - t0) eqn:E; [|apply Z.ltb_ge in E; lia].
  cbn.
  destruct (MaxRequests cfg <=? 0) eqn:E1; [apply Z.leb_le in E1; lia|].
  cbn. auto.
Qed.

(** X14.  After the timeout, [MaxRequests] successful probes in a row
    leave the circuit half-open; it takes one more to close it. *)
Theorem closing_takes_one_more_probe (cb : CircuitBreaker) (t t0 : Z) :
  state cb = StateOpen ->
  lastFailureTime cb = Some t0 ->
  Timeout (config cb) < t - t0 ->
  1 <= MaxRequests (config cb) < 2 ^ 63 ->
  let n := Z.to_nat (MaxRequests (config cb)) in
  state (successes cb t n) = StateHalfOpen /\
  state (successes cb t (S n)) = StateClosed.
Proof.
  intros Hst Hlf Hlt Hm n.
  assert (Hn : n = S (Z.to_nat (MaxRequests (config cb) - 1))).
  { unfold n. rewrite <- Z2Nat.inj_succ by lia. f_equal. lia. }
  destruct (first_probe_not_counted cb t t0 Hst Hlf Hlt) as (Hs1 & Hh1 & Hc1); [lia|].
  set (m := Z.to_nat (MaxRequests (config cb) - 1)) in *.
  destruct (halfopen_stays m (fst (Call cb (ok_at t))) (t + 1) Hs1)
    as (Hs2 & Hh2 & Hc2); rewrite ?Hh1, ?Hc1; unfold m; try lia.
  split.
  - rewrite Hn. exact Hs2.
  - rewrite Hn.
    assert (Hsplit : forall k b u, successes b u (S k)
              = fst (Call (successes b u k) (ok_at (u + Z.of_nat k)))).
    { induction k as [|k IHk]; intros b u.
      - cbn. now rewrite Z.add_0_r.
      - change (successes b u (S (S k)))
          with (successes (fst (Call b (ok_at u))) (u + 1) (S k)).
        rewrite IHk. cbn [successes]. do 3 f_equal. lia. }
    rewrite Hsplit.
    change (successes cb t (S m))
      with (successes (fst (Call cb (ok_at t))) (t + 1) m).
    destruct (halfopen_success (successes (fst (Call cb (ok_at t))) (t + 1) m)
                (t + Z.of_nat (S m)) Hs2) as (_ & Hcase).
    + rewrite Hh2, Hc2, Hh1, Hc1. unfold m. lia.
    + rewrite Hc2, Hc1. lia.
    + destruct (_ <? _) eqn:E in Hcase; [|exact Hcase].
      apply Z.ltb_lt in E. rewrite Hh2, Hc2, Hh1, Hc1 in E. unfold m in E. lia.
Qed.

Lemma closing_takes_one_more_probe_witness :
  let cb := failing (NewCircuitBreaker (mkConfig 2 100 2) 0) 1 2 in
  state (successes cb 200 2) = StateHalfOpen /\
  state (successes cb 200 3) = StateClosed.
Proof.
  apply (closing_takes_one_more_probe
           (failing (NewCircuitBreaker (mkConfig 2 100 2) 0) 1 2) 200 2);
    vm_compute; first [reflexivity | split; congruence].
Defined.

(** C6, evaluated: with [MaxFailures = 2], [Timeout = 100] and
    [MaxRequests = 2], two failures open the circuit; a call inside the
    timeout is rejected without running; after the timeout two successful
    probes are admitted and the circuit is still half-open, where the
    claim has it closed; the third success closes it. *)
Theorem two_probes_do_not_close :
  let cfg := mkConfig 2 100 2 in
  let opened := failing (NewCircuitBreaker cfg 0) 1 2 in
  state opened = StateOpen /\
  snd (Call opened (ok_at 50)) = Rejected /\
  snd (Call opened (ok_at 200)) = Ran false /\
  snd (Call (successes opened 200 1) (ok_at 201)) = Ran false /\
  state (successes opened 200 2) = StateHalfOpen /\
  state (successes opened 200 3) = StateClosed.
Proof. vm_compute. repeat split; reflexivity. Qed.

End BreakerFacts.

(* ===================================================================== *)
(** * Theorems: backend pool                                              *)
(* ===================================================================== *)

Module PoolFacts.
Import Breaker Pool.

Lemma createConnection_idle (bp : BackendPool) (dial : CallInput) :
  connections (fst (createConnection bp dial)) = connections bp /\
  capacity (fst (createConnection bp dial)) = capacity bp.
Proof.
  unfold createConnection.
  destruct (Call (circuitBreaker bp) dial) as [cb [|[|]]]; cbn; auto.
Qed.

Lemma Acquire_idle (bp : BackendPool) (healthy : bool) (dial : CallInput) :
  idle_ok bp ->
  idle_ok (fst (Acquire bp healthy dial)) /\
  capacity (fst (Acquire bp healthy dial)) = capacity bp.
Proof.
  unfold idle_ok, Acquire. intros H.
  destruct (closed bp); [auto|].
  destruct (connections bp) as [|conn rest] eqn:Hc.
  - destruct (createConnection_idle bp dial) as [-> ->]. rewrite Hc. auto.
  - destruct healthy.
    + cbn in *. split; [lia | reflexivity].
    + match goal with |- context [createConnection ?b dial] =>
        destruct (createConnection_idle b dial) as [-> ->] end.
      cbn in *. split; [lia | reflexivity].
Qed.

Lemma try_send_idle (bp bp' : BackendPool) (conn : BackendConn) :
  idle_ok bp -> try_send bp conn = Some bp' ->
  idle_ok bp' /\ capacity bp' = capacity bp.
Proof.
  unfold idle_ok, try_send. intros H.
  destruct (length (connections bp) <? capacity bp)%nat eqn:E; [|discriminate].
  intros [= <-]. cbn. apply Nat.ltb_lt in E.
  rewrite length_app. cbn. split; [lia | reflexivity].
Qed.

Lemma Release_idle (bp : BackendPool) (conn : BackendConn) :
  idle_ok bp ->
  idle_ok (Release bp conn) /\ capacity (Release bp conn) = capacity bp.
Proof.
  intros H. unfold Release.
  destruct (closed bp); [split; [exact H | reflexivity]|].
  destruct (inTransaction conn); [split; [exact H | reflexivity]|].
  destruct (try_send bp (Reset conn)) as [bp'|] eqn:E.
  - destruct (try_send_idle _ _ _ H E) as [H1 H2]. split; assumption.
  - split; [exact H | reflexivity].
Qed.

Lemma resend_idle (conns : list BackendConn) (bp : BackendPool) :
  idle_ok bp ->
  let bp' :=
    fold_left
      (fun p c => match try_send p c with Some p' => p' | None => close_conn p end)
      conns bp in
  idle_ok bp' /\ capacity bp' = capacity bp.
Proof.
  revert bp. induction conns as [|c conns IH]; intros bp H; cbn.
  - auto.
  - destruct (try_send bp c) as [bp1|] eqn:E.
    + destruct (try_send_idle _ _ _ H E) as [H1 H2].
      destruct (IH bp1 H1) as [H3 H4]. split; [exact H3 | congruence].
    + apply (IH (close_conn bp)). exact H.
Qed.

Lemma step_idle (bp : BackendPool) (op : Op) :
  idle_ok bp ->
  idle_ok (step bp op) /\ capacity (step bp op) = capacity bp.
Proof.
  intros H. destruct op as [healthy dial|conn|stale|]; cbn [step].
  - now apply Acquire_idle.
  - now apply Release_idle.
  - unfold cleanupStaleConnections.
    match goal with |- context [fold_left _ ?cs ?b] =>
      destruct (resend_idle cs b) as [H1 H2] end.
    + unfold idle_ok. cbn. lia.
    + split; [exact H1 | rewrite H2; reflexivity].
  - unfold Close. destruct (closed bp); [auto|].
    unfold idle_ok. cbn. split; [lia | reflexivity].
Qed.

Lemma run_idle (ops : list Op) (bp : BackendPool) :
  idle_ok bp ->
  idle_ok (run bp ops) /\ capacity (run bp ops) = capacity bp.
Proof.
  unfold run. revert bp.
  induction ops as [|op ops IH]; intros bp H; cbn [fold_left].
  - auto.
  - destruct (step_idle bp op H) as [H1 H2].
    destruct (IH _ H1) as [H3 H4]. split; [exact H3 | congruence].
Qed.

(** With no idle connection and the breaker closed, [Acquire] dials, and
    a dial that succeeds adds an open connection, however many are leased. *)
Lemma Acquire_dials (bp : BackendPool) (healthy : bool) (dial : CallInput) :
  closed bp = false ->
  connections bp = [] ->
  state (circuitBreaker bp) = StateClosed ->
  fn_err dial = false ->
  exists conn,
    snd (Acquire bp healthy dial) = Acquired conn /\
    live (fst (Acquire bp healthy dial)) = live bp + 1.
Proof.
  intros Hcl Hidle Hst Hok.
  unfold Acquire. rewrite Hcl, Hidle.
  unfold createConnection, Call, beforeRequest, incr_totalRequests.
  cbn [state]. rewrite Hst, Hok. cbn.
  eexists. split; reflexivity.
Qed.

(** C7, as the code has it.  The configured pool size bounds the idle
    queue only: after any sequence of operations on a new pool at most
    [poolSize] connections are idle.  [Acquire] never waits: when no
    connection is idle (and the breaker is closed) it dials, and a dial
    that succeeds yields one more open connection whatever the number
    already leased. *)
Theorem pool_size_bounds_idle_only (poolSize : nat) (now : Z) (ops : list Op) :
  let bp := run (NewBackendPool poolSize now) ops in
  (length (connections bp) <= poolSize)%nat /\
  (forall healthy dial,
      closed bp = false ->
      connections bp = [] ->
      state (circuitBreaker bp) = StateClosed ->
      fn_err dial = false ->
      exists conn,
        snd (Acquire bp healthy dial) = Acquired conn /\
        live (fst (Acquire bp healthy dial)) = live bp + 1).
Proof.
  intros bp. split.
  - destruct (run_idle ops (NewBackendPool poolSize now)) as [H1 H2].
    + unfold idle_ok. cbn. lia.
    + fold bp in H1, H2. unfold idle_ok in H1. rewrite H2 in H1. exact H1.
  - intros healthy dial. apply Acquire_dials.
Qed.

Lemma pool_size_bounds_idle_only_witness :
  let bp := run (NewBackendPool 1 0) [OpAcquire true (ok_at 1)] in
  exists conn,
    snd (Acquire bp true (ok_at 2)) = Acquired conn /\
    live (fst (Acquire bp true (ok_at 2))) = live bp + 1.
Proof.
  apply (proj2 (pool_size_bounds_idle_only 1 0 [OpAcquire true (ok_at 1)]));
    reflexivity.
Defined.

(** C7 as stated fails: on a pool of size 1, two [Acquire] in a row with
    no [Release] in between both return a freshly dialed connection, and
    two backend connections are open at once. *)
Lemma pool_size_exceeded :
  let bp0 := NewBackendPool 1 0 in
  let '(bp1, r1) := Acquire bp0 true (ok_at 1) in
  let '(bp2, r2) := Acquire bp1 true (ok_at 2) in
  r1 = Acquired (mkConn 1 false "") /\
  r2 = Acquired (mkConn 2 false "") /\
  live bp2 = 2 /\
  ~ (live bp2 <= Z.of_nat (capacity bp2)).
Proof. vm_compute. repeat split; congruence. Qed.

End PoolFacts.

(* ===================================================================== *)
(** * Theorems: backfill worker                                           *)
(* ===================================================================== *)

Module BackfillFacts.
Import Float64 Rounding Backfill.

Section HeadRowKeepsFailing.
Variables (w : Worker) (be : Backend) (row : Row) (rest : list Row).
Hypothesis Hcols : has_columns w = true.
Hypothesis Hquery : query_fails be = false.
Hypothesis Hbatch : 1 <= BatchSize (config w).
Hypothesis Hfail : forall n, exec_fails be n (id row) = true.



End HeadRowKeepsFailing.




End BackfillFacts.

(* ===================================================================== *)
(** * Theorems: rounding engine                                           *)
(* ===================================================================== *)

Module RoundingFacts.
Import Float64 Rounding.

Lemma forall_from_spec (n : nat) (lo : Z) (f : Z -> bool) :
  forall_from n lo f = true ->
  forall z, lo <= z < lo + Z.of_nat n -> f z = true.
Proof.
  revert lo. induction n as [|n IH]; intros lo H z Hz; [lia|].
  cbn [forall_from] in H. apply andb_prop in H. destruct H as [H0 H1].
  destruct (Z.eq_dec z lo) as [->|Hne]; [exact H0|].
  apply (IH (lo + 1) H1). lia.
Qed.

Lemma check_box_spec (bound : Z) :
  check_box bound = true ->
  forall s r p,
    - bound <= s <= bound -> In r ratios -> 0 <= p <= 10 ->
    agrees s r p = true.
Proof.
  intros H s r p Hs Hr Hp.
  unfold check_box in H. rewrite forallb_forall in H.
  specialize (H r Hr).
  pose proof (forall_from_spec _ _ _ H p ltac:(lia)) as H1. cbn beta in H1.
  apply (forall_from_spec _ _ _ H1 s). lia.
Qed.

Lemma check_box_holds : check_box box_bound = true.
Proof. vm_compute. reflexivity. Qed.

(** On small source values the law holds.  The engine computes in
    binary64: for every source value [s] with [|s| <= box_bound], every
    ratio in {10, 100, 1000, 10000} and every precision in [0, 10], the
    banker's conversion returns the binary64 nearest to [s / r] rounded
    half-to-even to [p] fractional digits.  The halfway inputs 0.5, 1.5,
    2.5 and -0.5 at precision 0 are instances: they give 0, 2, 2 and
    (minus) 0. *)
Theorem bankers_nearest_binary64 (s r p : Z) :
  - box_bound <= s <= box_bound ->
  In r ratios ->
  0 <= p <= 10 ->
  feq (ConvertIDRtoIDN (NewEngine BankersRound p) s r) (spec_bankers_f64 s r p)
  = true.
Proof.
  intros Hs Hr Hp.
  apply (check_box_spec box_bound check_box_holds s r p Hs Hr Hp).
Qed.

Lemma bankers_nearest_binary64_witness :
  feq (ConvertIDRtoIDN (NewEngine BankersRound 0) 25 10) (spec_bankers_f64 25 10 0)
  = true.
Proof.
  apply (bankers_nearest_binary64 25 10 0).
  - unfold box_bound. lia.
  - unfold ratios. simpl. auto.
  - lia.
Defined.

(** The halfway cases of the rounding law and the values of the
    end-to-end scenarios, exactly. *)
Lemma halfway_cases :
  let bankers p s r := ConvertIDRtoIDN (NewEngine BankersRound p) s r in
  bankers 0 5 10 = S754_zero false /\
  bankers 0 15 10 = of_Z 2 /\
  bankers 0 25 10 = of_Z 2 /\
  bankers 0 (-5) 10 = S754_zero true /\
  bankers 4 500000 1000 = of_Z 500 /\
  bankers 4 750000 1000 = of_Z 750 /\
  bankers 4 500500 1000 = of_ratio 5005 10 /\
  bankers 4 501500 1000 = of_ratio 5015 10 /\
  bankers 4 502500 1000 = of_ratio 5025 10.
Proof. vm_compute. repeat split; reflexivity. Qed.

(** The result is a binary64, the nearest one to the rounded value and
    not in general that value: 1/10 rounded to one decimal is 1/10, which
    is not a binary64; the engine returns 3602879701896397 / 2^55. *)
Lemma one_tenth_not_exact : ~ exact_law 1 10 1.
Proof.
  unfold exact_law. intros [_ H]. vm_compute in H. discriminate H.
Qed.

(** C1.  The banker's conversion misses a halfway case that its own
    comment (exactly 0.5: round to even) promises.  The source value
    131072045 with ratio 1000 and precision 2 lies in the range of the
    rounding law; 131072045 / 1000 = 131072.045 is exactly halfway between
    131072.04 and 131072.05, and 13107204 is even, so half-to-even gives
    131072.04.  The binary64 product is 13107204.500000002: its fraction
    is above 0.5 + epsilon, the constant epsilon = 1e-9 being smaller than
    the error of the product at this magnitude, and the engine rounds up
    to 131072.05, which is not the binary64 nearest to the result of the
    law. *)
Theorem large_tie_rounds_to_odd :
  let s := 131072045 in
  let r := 1000 in
  let p := 2 in
  (- 10 ^ 15 <= s <= 10 ^ 15 /\ In r ratios /\ 0 <= p <= 10) /\
  (2 * ((s * 10 ^ p) mod r) = r /\ Z.even (s * 10 ^ p / r) = true /\
   half_even_scaled s r p = 13107204 /\
   spec_bankers_f64 s r p = of_ratio 13107204 100) /\
  (let adjusted := fmul (fdiv (of_Z s) (of_Z r)) (Pow10 p) in
   Floor adjusted = of_Z 13107204 /\
   fgt (fsub adjusted (Floor adjusted)) half_plus_epsilon = true) /\
  ConvertIDRtoIDN (NewEngine BankersRound p) s r = of_ratio 13107205 100 /\
  agrees s r p = false.
Proof.
  cbv zeta. split; [|vm_compute; repeat split; reflexivity].
  split; [lia|]. split; [|lia]. unfold ratios. cbn. auto.
Qed.

End RoundingFacts.

(* ===================================================================== *)
(** * Theorems: query rewriting                                           *)
(* ===================================================================== *)

Module RewriteFacts.
Import Float64 Sqlparser Config Parser Session Scenario.
Local Open Scope string_scope.

Lemma append_assoc (a b c : string) : (a +:+ b) +:+ c = a +:+ b +:+ c.
Proof.
  induction a as [|x a IH]; [reflexivity|].
  change (String x ((a +:+ b) +:+ c) = String x (a +:+ b +:+ c)).
  now rewrite IH.
Qed.

Lemma join_app (sep : string) (xs ys : list string) :
  xs <> [] -> ys <> [] ->
  join sep (xs ++ ys) = join sep xs +:+ sep +:+ join sep ys.
Proof.
  intros Hx Hy. induction xs as [|x xs IH]; [congruence|].
  destruct xs as [|x' xs].
  - destruct ys as [|y ys]; [congruence|]. reflexivity.
  - change (join sep ((x :: x' :: xs) ++ ys))
      with (x +:+ sep +:+ join sep ((x' :: xs) ++ ys)).
    rewrite IH by congruence.
    change (join sep (x :: x' :: xs)) with (x +:+ sep +:+ join sep (x' :: xs)).
    now rewrite !append_assoc.
Qed.

(** C5, as the code has it.  [rewriteUpdate] prints the parsed statement
    again: the rewritten text is the canonical text of the original
    statement up to its SET list, then the original assignments, then one
    assignment [target = literal] for each currency column that is
    configured and has a converted value (in SET order, the literal
    printed with four decimals), then the WHERE, ORDER BY and LIMIT parts
    as the printer renders the parsed ones, which is the same text the
    printer gives for the original statement. *)
Theorem rewriteUpdate_shape (stmt : Update) (pq : ParsedQuery)
  (tableConfig : TableConfig) (convertedValues : gmap string float64) :
  Exprs stmt <> [] ->
  shadowExprs tableConfig (CurrencyColumns pq) convertedValues <> [] ->
  let head := "update " +:+ join ", " (map String_TableExpr (TableExprs stmt)) +:+ " set " in
  String_Update stmt
    = head +:+ String_UpdateExprs (Exprs stmt) +:+ String_UpdateTail stmt /\
  rewriteUpdate stmt pq tableConfig convertedValues
    = head +:+ String_UpdateExprs (Exprs stmt) +:+ ", "
        +:+ String_UpdateExprs (shadowExprs tableConfig (CurrencyColumns pq) convertedValues)
        +:+ String_UpdateTail stmt /\
  Forall2
    (fun col u =>
       exists colConfig v,
         Config.Columns tableConfig !! col = Some colConfig /\
         convertedValues !! col = Some v /\
         u = mkUpdateExpr (TargetColumn colConfig) (NewFloatVal (Fmt.Sprintf_f 4 v)))
    (List.filter
       (fun col => bool_decide (is_Some (Config.Columns tableConfig !! col)) &&
                   bool_decide (is_Some (convertedValues !! col)))
       (CurrencyColumns pq))
    (shadowExprs tableConfig (CurrencyColumns pq) convertedValues).
Proof.
  intros He Hs head. split; [|split].
  - unfold String_Update, head. now rewrite !append_assoc.
  - unfold rewriteUpdate, rewriteUpdate_stmt, String_Update, String_UpdateTail, head.
    cbn [TableExprs Exprs Where OrderBy Limit_].
    unfold String_UpdateExprs at 1.
    rewrite map_app, join_app.
    + fold (String_UpdateExprs (Exprs stmt)).
      fold (String_UpdateExprs (shadowExprs tableConfig (CurrencyColumns pq) convertedValues)).
      now rewrite !append_assoc.
    + destruct (Exprs stmt); [congruence | discriminate].
    + destruct (shadowExprs tableConfig (CurrencyColumns pq) convertedValues);
        [congruence | discriminate].
  - clear He Hs head. unfold shadowExprs.
    induction (CurrencyColumns pq) as [|col cols IH]; cbn; [constructor|].
    destruct (Config.Columns tableConfig !! col) as [cc|] eqn:Ec;
      destruct (convertedValues !! col) as [v|] eqn:Ev; cbn;
      rewrite ?bool_decide_eq_true_2, ?bool_decide_eq_false_2
        by (first [eexists; reflexivity | intros [? ?]; discriminate]);
      cbn; try exact IH.
    constructor; [|exact IH]. exists cc, v. auto.
Qed.

Lemma rewriteUpdate_shape_witness :
  rewriteUpdate s2_update
    (mkParsedQuery s2_query QueryTypeUpdate s2_stmt "orders" ["total_amount"] ∅ true)
    (orders 4) {["total_amount" := of_Z 750]}
  = "update orders set total_amount = 750000, total_amount_idn = 750.0000 where id = 123".
Proof.
  refine (proj1 (proj2 (rewriteUpdate_shape s2_update
    (mkParsedQuery s2_query QueryTypeUpdate s2_stmt "orders" ["total_amount"] ∅ true)
    (orders 4) {["total_amount" := of_Z 750]} _ _)));
    vm_compute; congruence.
Defined.

(** C5 as stated fails: for the UPDATE of scenario S2 the rewritten text
    does not end with the WHERE clause of the input ("WHERE id = 123"); the
    printer writes its keywords in lower case. *)
Lemma where_clause_not_byte_preserved :
  let rewritten := snd (handleQuery (cfg 4) false s2_query (Some s2_stmt)) in
  rewritten
    = "update orders set total_amount = 750000, total_amount_idn = 750.0000 where id = 123" /\
  where_clause_of s2_query = Some "WHERE id = 123" /\
  ~ where_bytes_preserved s2_query rewritten.
Proof.
  split; [vm_compute; reflexivity|]. split; [vm_compute; reflexivity|].
  intros H. specialize (H "WHERE id = 123" ltac:(vm_compute; reflexivity)).
  vm_compute in H. discriminate H.
Qed.

(** C2, evaluated.  With the precision configured as 2, the literal the
    proxy appends for 1234567 is the unrounded quotient printed with four
    decimals; the rounding engine at precision 2, printed with two
    decimals, gives 1234.57.  The same holds for an UPDATE. *)
Theorem literal_ignores_precision :
  snd (handleQuery (cfg 2) false p2_query (Some p2_stmt))
    = "insert into orders(customer_id, total_amount, total_amount_idn) values (1, 1234567, 1234.5670)" /\
  snd (handleQuery (cfg 2) false "UPDATE orders SET total_amount = 1234567"
         (Some (StmtUpdate (mkUpdate [AliasedTableName "orders" ""]
                              [mkUpdateExpr "total_amount" (int "1234567")] None [] None))))
    = "update orders set total_amount = 1234567, total_amount_idn = 1234.5670" /\
  spec_literal (cfg 2) (column "total_amount" "total_amount_idn" 2) 1234567 = "1234.57".
Proof. vm_compute. repeat split; reflexivity. Qed.

(** C3, evaluated.  In the three-row INSERT of scenario S3 every row gets
    the literal computed from the first row, 500.5000; the rows' own
    values give 500.5000, 501.5000 and 502.5000. *)
Theorem multirow_repeats_first_row :
  snd (handleQuery (cfg 4) false s3_query (Some s3_stmt))
    = "insert into orders(customer_id, total_amount, total_amount_idn) values (1, 500500, 500.5000), (2, 501500, 500.5000), (3, 502500, 500.5000)" /\
  map (spec_literal (cfg 4) (column "total_amount" "total_amount_idn" 4))
    [500500; 501500; 502500]
    = ["500.5000"; "501.5000"; "502.5000"].
Proof. vm_compute. split; reflexivity. Qed.

(** Every row of a rewritten INSERT receives the same appended literals. *)
Lemma rewriteInsert_same_suffix (stmt : Insert) (pq : ParsedQuery)
  (tableConfig : TableConfig) (convertedValues : gmap string float64)
  (rows : list (list Expr)) :
  Rows stmt = Values rows ->
  Rows (rewriteInsert_stmt stmt pq tableConfig convertedValues)
  = Values (map (fun row => row ++ shadowValues (CurrencyColumns pq) convertedValues)%list
              rows).
Proof. intros H. unfold rewriteInsert_stmt. cbn. now rewrite H. Qed.

(** C4, evaluated.  For the INSERT of scenario S5, whose currency value
    is NULL, the forwarded text is not the original: the shadow column is
    added to the column list and no value is added to the row, so the
    statement names three columns and gives two values. *)
Theorem null_insert_is_rewritten :
  let forwarded := snd (handleQuery (cfg 4) false s5_query (Some s5_stmt)) in
  forwarded
    = "insert into orders(customer_id, total_amount, total_amount_idn) values (1, null)" /\
  forwarded <> s5_query /\
  (exists pq,
      Parse (Tables (cfg 4)) s5_query (Some s5_stmt) = Some pq /\
      match Statement_ pq with
      | StmtInsert stmt =>
          let stmt' := rewriteInsert_stmt stmt pq (orders 4)
                         (convertValues 1000 (Values_ pq)) in
          Sqlparser.Columns stmt' = ["customer_id"; "total_amount"; "total_amount_idn"] /\
          Rows stmt' = Values [[int "1"; NullVal]]
      | _ => False
      end).
Proof.
  split; [vm_compute; reflexivity|]. split; [vm_compute; congruence|].
  eexists. split; [reflexivity|]. vm_compute. split; reflexivity.
Qed.

End RewriteFacts.

(* ===================================================================== *)
(** * Theorems: integers, strings and result packets on the wire          *)
(* ===================================================================== *)

Module WireFacts.
Import Protocol Wire.
Local Open Scope Z_scope.

Lemma Z_of_byte_range (b : byte) : 0 <= Z_of_byte b < 256.
Proof.
  unfold Z_of_byte. pose proof (Byte.to_N_bounded b). lia.
Qed.

Lemma lor_shiftl_add (a b k : Z) :
  0 <= k -> 0 <= a < 2 ^ k -> 0 <= b ->
  Z.lor a (Z.shiftl b k) = a + b * 2 ^ k.
Proof.
  intros Hk Ha Hb.
  rewrite <- Z.shiftl_mul_pow2 by lia.
  rewrite <- Z.lxor_lor, <- Z.add_nocarry_lxor; try reflexivity.
  all: apply Z.bits_inj'; intros i Hi; rewrite Z.land_spec, Z.bits_0.
  all: destruct (Z.lt_ge_cases i k) as [Hlt|Hge].
  all: try (rewrite Z.shiftl_spec_low by lia; apply andb_false_r).
  all: rewrite <- (Z.mod_small a (2 ^ k)) by lia.
  all: rewrite Z.mod_pow2_bits_high by lia; reflexivity.
Qed.

Lemma le_decode_encode (k : nat) (n : Z) :
  0 <= n -> le_decode (le_encode k n) = n mod 2 ^ (8 * Z.of_nat k).
Proof.
  revert n. induction k as [|k IH]; intros n Hn.
  - cbn. now rewrite Z.mod_1_r.
  - cbn [le_encode le_decode].
    rewrite ProtocolFacts.Z_of_byte_of_Z, IH by (rewrite Z.shiftr_div_pow2; [apply Z.div_pos|]; lia).
    rewrite lor_shiftl_add.
    + rewrite Z.shiftr_div_pow2 by lia.
      replace (8 * Z.of_nat (S k)) with (8 + 8 * Z.of_nat k) by lia.
      rewrite Z.pow_add_r by lia.
      change (2 ^ 8) with 256.
      rewrite (Z.rem_mul_r n 256 (2 ^ (8 * Z.of_nat k))) by lia.
      lia.
    + lia.
    + change (2 ^ 8) with 256. apply Z.mod_pos_bound. lia.
    + apply Z.mod_pos_bound. lia.
Qed.

Lemma le_encode_length (k : nat) (n : Z) : length (le_encode k n) = k.
Proof. revert n. induction k as [|k IH]; intros n; cbn; [reflexivity | now rewrite IH]. Qed.

Lemma le_decode_app_exact (bs rest : list byte) :
  le_decode (firstn (length bs) (bs ++ rest)) = le_decode bs.
Proof. now rewrite take_app_length. Qed.

Lemma byte_of_Z_small (n : Z) : 0 <= n < 256 -> Z_of_byte (byte_of_Z n) = n.
Proof. intros H. rewrite ProtocolFacts.Z_of_byte_of_Z. now apply Z.mod_small. Qed.

(** X1.  [WriteUint16] and [WriteUint32] keep the buffer as a prefix and
    append two, respectively four, bytes whose little-endian value is the
    number written; [Uint16] reads the two bytes back, whatever follows. *)
Theorem WriteUint_little_endian (buf rest : list byte) (n m : Z) :
  0 <= n < 2 ^ 16 ->
  0 <= m < 2 ^ 32 ->
  (exists bs, WriteUint16 buf n = buf ++ bs /\ length bs = 2%nat /\
              Uint16 (bs ++ rest) = Some n) /\
  (exists bs, WriteUint32 buf m = buf ++ bs /\ length bs = 4%nat /\
              le_decode bs = m).
Proof.
  intros Hn Hm. split.
  - exists (le_encode 2 n). split; [reflexivity|]. split; [apply le_encode_length|].
    unfold Uint16. rewrite length_app, le_encode_length. cbn [Nat.leb Nat.add].
    change 2%nat with (length (le_encode 2 n)) at 1.
    rewrite le_decode_app_exact, le_decode_encode by lia.
    f_equal. apply Z.mod_small. cbn. lia.
  - exists (le_encode 4 m). split; [reflexivity|]. split; [apply le_encode_length|].
    rewrite le_decode_encode by lia. apply Z.mod_small. cbn. lia.
Qed.

Lemma WriteUint_little_endian_witness :
  (exists bs, WriteUint16 [Byte.x0a] 513 = [Byte.x0a] ++ bs /\ length bs = 2%nat /\
              Uint16 (bs ++ [Byte.xff]) = Some 513) /\
  (exists bs, WriteUint32 [Byte.x0a] 70000 = [Byte.x0a] ++ bs /\ length bs = 4%nat /\
              le_decode bs = 70000).
Proof.
  apply (WriteUint_little_endian [Byte.x0a] [Byte.xff] 513 70000); lia.
Defined.

Lemma WriteLengthEncodedInt_app (buf : list byte) (n : Z) :
  WriteLengthEncodedInt buf n = buf ++ lenenc n.
Proof.
  unfold lenenc, WriteLengthEncodedInt.
  repeat case_match; rewrite <- ?app_assoc; reflexivity.
Qed.

Lemma slice_app_mid (pre mid rest : list byte) :
  slice (pre ++ mid ++ rest) (Z.of_nat (length pre))
    (Z.of_nat (length pre) + Z.of_nat (length mid)) = Some mid.
Proof.
  unfold slice.
  replace (0 <=? Z.of_nat (length pre)) with true by (symmetry; apply Z.leb_le; lia).
  replace (Z.of_nat (length pre) <=? Z.of_nat (length pre) + Z.of_nat (length mid))
    with true by (symmetry; apply Z.leb_le; lia).
  replace (Z.of_nat (length pre) + Z.of_nat (length mid)
           <=? Z.of_nat (length (pre ++ mid ++ rest)))
    with true by (symmetry; apply Z.leb_le; rewrite !length_app; lia).
  cbn [andb]. f_equal.
  rewrite Nat2Z.id, drop_app_length.
  replace (Z.to_nat (Z.of_nat (length pre) + Z.of_nat (length mid) - Z.of_nat (length pre)))
    with (length mid) by lia.
  apply take_app_length.
Qed.

Lemma slice_from_app (pre rest : list byte) :
  slice_from (pre ++ rest) (Z.of_nat (length pre)) = Some rest.
Proof.
  unfold slice_from.
  pose proof (slice_app_mid pre rest []) as H.
  rewrite app_nil_r in H. rewrite <- H. f_equal.
  rewrite length_app. lia.
Qed.

(** Reading back what [WriteLengthEncodedInt] wrote. *)
Lemma read_lenenc (n : Z) (rest : list byte) :
  0 <= n < 2 ^ 64 ->
  readLengthEncodedInt (lenenc n ++ rest) = Some (n, Z.of_nat (length (lenenc n))).
Proof.
  intros Hn. unfold lenenc, WriteLengthEncodedInt.
  destruct (n <? 251) eqn:E1; [apply Z.ltb_lt in E1|apply Z.ltb_ge in E1].
  { cbn [app readLengthEncodedInt length].
    rewrite byte_of_Z_small by lia.
    rewrite !(proj2 (Z.eqb_neq _ _)) by lia. reflexivity. }
  destruct (n <? 2 ^ 16) eqn:E2; [apply Z.ltb_lt in E2|apply Z.ltb_ge in E2].
  { cbn [app readLengthEncodedInt].
    change (Z_of_byte Byte.xfc) with 252. cbn [Z.eqb Pos.eqb].
    match goal with |- context [Z.of_nat ?l <? 3] => destruct (Z.of_nat l <? 3) eqn:EL end.
    { apply Z.ltb_lt in EL. cbn [length] in EL.
      rewrite length_app, le_encode_length in EL. lia. }
    assert (slice (Byte.xfc :: le_encode 2 (n mod 2 ^ 16) ++ rest) 1 3
            = Some (le_encode 2 (n mod 2 ^ 16))) as Hs.
    { pose proof (slice_app_mid [Byte.xfc] (le_encode 2 (n mod 2 ^ 16)) rest) as Hs.
      rewrite le_encode_length in Hs. exact Hs. }
    rewrite Hs. cbn [mbind option_bind].
    unfold Uint16. rewrite le_encode_length. cbn [Nat.leb].
    rewrite firstn_all2 by (rewrite le_encode_length; lia).
    rewrite le_decode_encode by (apply Z.mod_pos_bound; lia).
    cbn [mbind option_bind]. do 2 f_equal.
    change (8 * Z.of_nat 2) with 16. rewrite Z.mod_mod by lia. apply Z.mod_small. lia. }
  destruct (n <? 2 ^ 24) eqn:E3; [apply Z.ltb_lt in E3|apply Z.ltb_ge in E3].
  { cbn [app readLengthEncodedInt length].
    change (Z_of_byte Byte.xfd) with 253. cbn [Z.eqb Pos.eqb].
    match goal with |- context [Z.of_nat ?l <? 4] => destruct (Z.of_nat l <? 4) eqn:EL end.
    { apply Z.ltb_lt in EL. lia. }
    unfold index. cbn [Z.leb Z.compare].
    change (Z.to_nat 1) with 1%nat. change (Z.to_nat 2) with 2%nat.
    change (Z.to_nat 3) with 3%nat. cbn [nth_error mbind option_bind].
    rewrite !ProtocolFacts.Z_of_byte_of_Z.
    rewrite ProtocolFacts.length_bytes_decode by (change (2 ^ 24) with 16777216 in E3; lia).
    reflexivity. }
  { cbn [app readLengthEncodedInt].
    change (Z_of_byte Byte.xfe) with 254. cbn [Z.eqb Pos.eqb].
    match goal with |- context [Z.of_nat ?l <? 9] => destruct (Z.of_nat l <? 9) eqn:EL end.
    { apply Z.ltb_lt in EL. cbn [length] in EL.
      rewrite length_app, le_encode_length in EL. lia. }
    assert (slice (Byte.xfe :: le_encode 8 n ++ rest) 1 9 = Some (le_encode 8 n)) as Hs.
    { pose proof (slice_app_mid [Byte.xfe] (le_encode 8 n) rest) as Hs.
      rewrite le_encode_length in Hs. exact Hs. }
    rewrite Hs. cbn [mbind option_bind].
    unfold Uint64. rewrite le_encode_length. cbn [Nat.leb].
    rewrite firstn_all2 by (rewrite le_encode_length; lia).
    rewrite le_decode_encode by lia.
    cbn [mbind option_bind]. do 2 f_equal.
    change (8 * Z.of_nat 8) with 64. apply Z.mod_small. lia. }
Qed.

(** X2.  A length-encoded integer round trip: for every 64-bit [n],
    [WriteLengthEncodedInt] keeps the buffer as a prefix, and
    [readLengthEncodedInt] on the bytes it appended, whatever follows them,
    gives [n] and the number of those bytes. *)
Theorem lenenc_int_roundtrip (buf rest : list byte) (n : Z) :
  0 <= n < 2 ^ 64 ->
  exists enc,
    WriteLengthEncodedInt buf n = buf ++ enc /\
    readLengthEncodedInt (enc ++ rest) = Some (n, Z.of_nat (length enc)).
Proof.
  intros Hn. exists (lenenc n). split.
  - apply WriteLengthEncodedInt_app.
  - now apply read_lenenc.
Qed.

Lemma lenenc_int_roundtrip_witness :
  exists enc,
    WriteLengthEncodedInt [Byte.x00] 70000 = [Byte.x00] ++ enc /\
    readLengthEncodedInt (enc ++ [Byte.x01]) = Some (70000, Z.of_nat (length enc)).
Proof. apply (lenenc_int_roundtrip [Byte.x00] [Byte.x01] 70000). lia. Defined.

Lemma lenenc_length (n : Z) : 1 <= Z.of_nat (length (lenenc n)) <= 9.
Proof.
  unfold lenenc, WriteLengthEncodedInt.
  repeat case_match; rewrite ?length_app, ?le_encode_length; cbn; lia.
Qed.

(** X3.  A length-encoded string round trip: [WriteLengthEncodedString]
    keeps the buffer as a prefix, and [readLengthEncodedString] on the
    bytes it appended, whatever follows them, gives the string and the
    number of those bytes. *)
Theorem lenenc_string_roundtrip (buf s rest : list byte) :
  Z.of_nat (length s) + 9 < 2 ^ 63 ->
  exists enc,
    WriteLengthEncodedString buf s = buf ++ enc /\
    readLengthEncodedString (enc ++ rest) = Ok (s, Z.of_nat (length enc)).
Proof.
  intros Hs.
  set (L := Z.of_nat (length s)) in *.
  assert (HL : 0 <= L) by (unfold L; lia).
  exists (lenenc L ++ s). split.
  - unfold WriteLengthEncodedString, wrap_u64. fold L.
    rewrite Z.mod_small by lia.
    rewrite WriteLengthEncodedInt_app. now rewrite app_assoc.
  - pose proof (lenenc_length L) as Hn.
    unfold readLengthEncodedString.
    rewrite <- app_assoc, read_lenenc by lia.
    cbn [get fst snd].
    destruct (Z.of_nat (length (lenenc L)) =? 0) eqn:E0; [apply Z.eqb_eq in E0; lia|].
    destruct (L =? 0) eqn:EL.
    + apply Z.eqb_eq in EL.
      assert (s = []) as -> by (destruct s; [reflexivity | cbn in L; lia]).
      rewrite app_nil_r. reflexivity.
    + unfold wrap_u64, wrap_int.
      rewrite (Z.mod_small (Z.of_nat (length (lenenc L)) + L)) by lia.
      rewrite (Z.mod_small (L + 2 ^ 63)) by lia.
      replace (L + 2 ^ 63 - 2 ^ 63) with L by lia.
      rewrite (Z.mod_small (Z.of_nat (length (lenenc L)) + L + 2 ^ 63)) by lia.
      match goal with |- context [?a <? ?b] => destruct (a <? b) eqn:EC end.
      { apply Z.ltb_lt in EC. rewrite !length_app in EC. lia. }
      unfold L at 2. rewrite slice_app_mid. cbn [get].
      do 2 f_equal. rewrite length_app. lia.
Qed.

Lemma lenenc_string_roundtrip_witness :
  exists enc,
    WriteLengthEncodedString [Byte.x00] [Byte.x61; Byte.x62] = [Byte.x00] ++ enc /\
    readLengthEncodedString (enc ++ [Byte.x01])
    = Ok ([Byte.x61; Byte.x62], Z.of_nat (length enc)).
Proof.
  apply (lenenc_string_roundtrip [Byte.x00] [Byte.x61; Byte.x62] [Byte.x01]).
  cbn. lia.
Defined.

(** ** Slices and indices in range *)

Lemma slice_Some (b : list byte) (lo hi : Z) :
  0 <= lo <= hi -> hi <= Z.of_nat (length b) ->
  exists s, slice b lo hi = Some s /\ Z.of_nat (length s) = hi - lo.
Proof.
  intros H1 H2. unfold slice.
  replace (0 <=? lo) with true by (symmetry; apply Z.leb_le; lia).
  replace (lo <=? hi) with true by (symmetry; apply Z.leb_le; lia).
  replace (hi <=? Z.of_nat (length b)) with true by (symmetry; apply Z.leb_le; lia).
  cbn [andb]. eexists. split; [reflexivity|].
  rewrite length_take, length_drop. lia.
Qed.

Lemma slice_from_Some (b : list byte) (lo : Z) :
  0 <= lo <= Z.of_nat (length b) ->
  exists s, slice_from b lo = Some s /\ Z.of_nat (length s) = Z.of_nat (length b) - lo.
Proof. intros H. unfold slice_from. apply slice_Some; lia. Qed.

Lemma index_Some (b : list byte) (i : Z) :
  0 <= i < Z.of_nat (length b) -> exists x, index b i = Some x.
Proof.
  intros H. unfold index.
  replace (0 <=? i) with true by (symmetry; apply Z.leb_le; lia).
  destruct (nth_error b (Z.to_nat i)) as [x|] eqn:E; [now exists x|].
  apply nth_error_None in E. lia.
Qed.

Lemma le_decode_range (bs : list byte) :
  0 <= le_decode bs < 2 ^ (8 * Z.of_nat (length bs)).
Proof.
  induction bs as [|x bs IH].
  - cbn. lia.
  - cbn [le_decode length].
    pose proof (Z_of_byte_range x) as Hx.
    rewrite lor_shiftl_add by (change (2 ^ 8) with 256; lia).
    replace (8 * Z.of_nat (S (length bs))) with (8 + 8 * Z.of_nat (length bs)) by lia.
    rewrite Z.pow_add_r by lia. change (2 ^ 8) with 256. nia.
Qed.

Lemma Uint16_Some (b : list byte) :
  2 <= Z.of_nat (length b) -> exists v, Uint16 b = Some v /\ 0 <= v < 2 ^ 16.
Proof.
  intros H. unfold Uint16.
  replace (2 <=? length b)%nat with true by (symmetry; apply Nat.leb_le; lia).
  eexists. split; [reflexivity|].
  pose proof (le_decode_range (firstn 2 b)) as Hr.
  rewrite length_take in Hr.
  replace (8 * Z.of_nat (2 `min` length b)) with 16 in Hr by lia. exact Hr.
Qed.

Lemma Uint64_Some (b : list byte) :
  8 <= Z.of_nat (length b) -> exists v, Uint64 b = Some v /\ 0 <= v < 2 ^ 64.
Proof.
  intros H. unfold Uint64.
  replace (8 <=? length b)%nat with true by (symmetry; apply Nat.leb_le; lia).
  eexists. split; [reflexivity|].
  pose proof (le_decode_range (firstn 8 b)) as Hr.
  rewrite length_take in Hr.
  replace (8 * Z.of_nat (8 `min` length b)) with 64 in Hr by lia. exact Hr.
Qed.

Lemma three_bytes_range (x y z : byte) :
  0 <= Z.lor (Z.lor (Z_of_byte x) (Z.shiftl (Z_of_byte y) 8))
         (Z.shiftl (Z_of_byte z) 16) < 2 ^ 24.
Proof.
  pose proof (Z_of_byte_range x). pose proof (Z_of_byte_range y).
  pose proof (Z_of_byte_range z).
  rewrite (lor_shiftl_add (Z_of_byte x)) by (change (2 ^ 8) with 256; lia).
  rewrite lor_shiftl_add by (change (2 ^ 8) with 256; change (2 ^ 16) with 65536; lia).
  change (2 ^ 8) with 256. change (2 ^ 16) with 65536. change (2 ^ 24) with 16777216.
  lia.
Qed.

(** [readLengthEncodedInt] always returns: a 64-bit value and a count of
    bytes read that the input holds. *)
Lemma readLengthEncodedInt_total (b : list byte) :
  exists v n,
    readLengthEncodedInt b = Some (v, n) /\
    0 <= v < 2 ^ 64 /\ 0 <= n <= Z.of_nat (length b) /\ n <= 9.
Proof.
  destruct b as [|b0 tl]; [exists 0, 0; cbn; repeat split; lia|].
  cbn [readLengthEncodedInt].
  assert (Hlen : 1 <= Z.of_nat (length (b0 :: tl))) by (cbn [length]; lia).
  pose proof (Z_of_byte_range b0) as Hb0.
  generalize dependent (b0 :: tl). intros b Hlen.
  destruct (Z_of_byte b0 =? 251) eqn:E1; [exists 0, 1; repeat split; lia|].
  destruct (Z_of_byte b0 =? 252) eqn:E2.
  { destruct (Z.of_nat (length b) <? 3) eqn:EL;
      [exists 0, 0; repeat split; lia | apply Z.ltb_ge in EL].
    destruct (slice_Some b 1 3) as (s & Hs & Hsl); [lia|lia|].
    destruct (Uint16_Some s) as (v & Hv & Hvr); [lia|].
    exists v, 3. rewrite Hs. cbn [mbind option_bind]. rewrite Hv.
    cbn [mbind option_bind]. repeat split; lia. }
  destruct (Z_of_byte b0 =? 253) eqn:E3.
  { destruct (Z.of_nat (length b) <? 4) eqn:EL;
      [exists 0, 0; repeat split; lia | apply Z.ltb_ge in EL].
    destruct (index_Some b 1) as (x & Hx); [lia|].
    destruct (index_Some b 2) as (y & Hy); [lia|].
    destruct (index_Some b 3) as (z & Hz); [lia|].
    rewrite Hx, Hy, Hz. cbn [mbind option_bind].
    pose proof (three_bytes_range x y z) as Hr.
    change (2 ^ 24) with 16777216 in Hr.
    eexists _, 4. split; [reflexivity|]. repeat split; lia. }
  destruct (Z_of_byte b0 =? 254) eqn:E4.
  { destruct (Z.of_nat (length b) <? 9) eqn:EL;
      [exists 0, 0; repeat split; lia | apply Z.ltb_ge in EL].
    destruct (slice_Some b 1 9) as (s & Hs & Hsl); [lia|lia|].
    destruct (Uint64_Some s) as (v & Hv & Hvr); [lia|].
    exists v, 9. rewrite Hs. cbn [mbind option_bind]. rewrite Hv.
    cbn [mbind option_bind]. repeat split; lia. }
  exists (Z_of_byte b0), 1. repeat split; lia.
Qed.

(** X4.  [readLengthEncodedInt] never reads outside its input: on every
    byte slice it returns (no index or slice out of range) a value below
    2^64 and a count of consumed bytes between 0 and the length of the
    input. *)
Theorem readLengthEncodedInt_in_bounds (b : list byte) :
  exists v n,
    readLengthEncodedInt b = Some (v, n) /\
    0 <= v < 2 ^ 64 /\ 0 <= n <= Z.of_nat (length b).
Proof.
  destruct (readLengthEncodedInt_total b) as (v & n & H & Hv & Hn & _).
  now exists v, n.
Qed.

(** X5.  [readLengthEncodedString] panics (slice bounds out of range)
    exactly when the announced length and the size of the length prefix
    add up to 2^64 or more: the sum wraps around as [uint64], passes the
    test against [len(b)], and is then used as the upper bound of the
    slice. *)
Theorem readLengthEncodedString_panics_iff (b : list byte) :
  readLengthEncodedString b = Panic <->
  exists len n, readLengthEncodedInt b = Some (len, n) /\ 2 ^ 64 <= n + len.
Proof.
  destruct (readLengthEncodedInt_total b) as (v & n & H & Hv & Hn & Hn9).
  unfold readLengthEncodedString. rewrite H. cbn [get fst snd].
  split.
  - intros HP. exists v, n. split; [reflexivity|].
    destruct (n =? 0) eqn:E0; [discriminate|].
    destruct (v =? 0) eqn:Ev; [discriminate|].
    destruct (Z.of_nat (length b) <? wrap_u64 (n + v)) eqn:Ec; [discriminate|].
    apply Z.ltb_ge in Ec.
    destruct (Z.lt_ge_cases (n + v) (2 ^ 64)) as [Hlt|Hge]; [|exact Hge].
    unfold wrap_u64 in *. rewrite Z.mod_small in * by lia.
    destruct (slice_Some b n (n + v)) as (s & Hs & _); [lia|lia|].
    rewrite Hs in HP. discriminate.
  - intros (len & n' & Heq & Hsum). injection Heq as <- <-.
    assert (Hw : wrap_u64 (n + v) = n + v - 2 ^ 64).
    { unfold wrap_u64. symmetry. apply (Z.mod_unique_pos _ _ 1); lia. }
    rewrite Hw.
    destruct (n =? 0) eqn:E0; [apply Z.eqb_eq in E0; lia|].
    destruct (v =? 0) eqn:Ev; [apply Z.eqb_eq in Ev; lia|].
    assert (Hlen : 9 <= Z.of_nat (length b)).
    { destruct b as [|b0 tl]; [cbn in H; injection H as <- <-; lia|].
      revert H. unfold readLengthEncodedInt.
      pose proof (Z_of_byte_range b0).
      repeat case_match; intros H'; try (injection H' as <- <-; lia).
      - destruct (slice (b0 :: tl) 1 3) as [s|]; [|discriminate].
        cbn [mbind option_bind] in H'.
        unfold Uint16 in H'. destruct (2 <=? length s)%nat; [|discriminate].
        cbn [mbind option_bind] in H'. injection H' as <- <-.
        pose proof (le_decode_range (firstn 2 s)) as Hr.
        rewrite length_take in Hr.
        assert (2 ^ (8 * Z.of_nat (2 `min` length s)) <= 2 ^ 16)
          by (apply Z.pow_le_mono_r; lia).
        change (2 ^ 16) with 65536 in *. lia.
      - destruct (index (b0 :: tl) 1) as [x|]; [|discriminate].
        destruct (index (b0 :: tl) 2) as [y|]; [|discriminate].
        destruct (index (b0 :: tl) 3) as [z|]; [|discriminate].
        cbn [mbind option_bind] in H'. injection H' as <- <-.
        pose proof (three_bytes_range x y z) as Hr.
        change (2 ^ 24) with 16777216 in Hr. lia.
      - apply Z.ltb_ge. assumption. }
    destruct (Z.of_nat (length b) <? n + v - 2 ^ 64) eqn:Ec;
      [apply Z.ltb_lt in Ec; lia|].
    unfold slice.
    replace (n <=? n + v - 2 ^ 64) with false by (symmetry; apply Z.leb_gt; lia).
    rewrite andb_false_r. reflexivity.
Qed.

Lemma first_is_index (payload : list byte) (c : Z) (p0 : byte) :
  index payload 0 = Some p0 -> first_is payload c = (Z_of_byte p0 =? c).
Proof. destruct payload; cbn; [discriminate | now intros [= ->]]. Qed.

Ltac use_some H := rewrite H; cbn [get].

(** X6.  The three packet parsers never panic: on every payload each of
    them returns a packet or an error, so no index or slice it takes is
    out of range. *)
Theorem parsers_never_panic (payload : list byte) :
  ParseOKPacket payload <> Panic /\
  ParseERRPacket payload <> Panic /\
  ParseEOFPacket payload <> Panic.
Proof.
  repeat split.
  - unfold ParseOKPacket. cbv zeta.
    destruct (Z.of_nat (length payload) <? 7) eqn:EL; [discriminate|].
    apply Z.ltb_ge in EL.
    destruct (index_Some payload 0) as (p0 & Hp0); [lia|]. use_some Hp0.
    destruct (negb (Z_of_byte p0 =? OK_PACKET)); [discriminate|].
    destruct (slice_from_Some payload 1) as (b1 & Hb1 & Hl1); [lia|]. use_some Hb1.
    destruct (readLengthEncodedInt_total b1) as (v1 & n1 & Hr1 & _ & Hn1 & _).
    use_some Hr1. cbn [fst snd].
    destruct (slice_from_Some payload (1 + n1)) as (b2 & Hb2 & Hl2); [lia|]. use_some Hb2.
    destruct (readLengthEncodedInt_total b2) as (v2 & n2 & Hr2 & _ & Hn2 & _).
    use_some Hr2. cbn [fst snd].
    destruct (Z.of_nat (length payload) <? 1 + n1 + n2 + 4) eqn:E4; [discriminate|].
    apply Z.ltb_ge in E4.
    destruct (slice_from_Some payload (1 + n1 + n2)) as (b3 & Hb3 & Hl3); [lia|].
    use_some Hb3.
    destruct (Uint16_Some b3) as (sf & Hsf & _); [lia|]. use_some Hsf.
    destruct (slice_from_Some payload (1 + n1 + n2 + 2)) as (b4 & Hb4 & Hl4); [lia|].
    use_some Hb4.
    destruct (Uint16_Some b4) as (wn & Hwn & _); [lia|]. use_some Hwn.
    destruct (1 + n1 + n2 + 2 + 2 <? Z.of_nat (length payload)) eqn:E5; [|discriminate].
    apply Z.ltb_lt in E5.
    destruct (slice_from_Some payload (1 + n1 + n2 + 2 + 2)) as (b5 & Hb5 & _); [lia|].
    use_some Hb5. discriminate.
  - unfold ParseERRPacket. cbv zeta.
    destruct (Z.of_nat (length payload) <? 9) eqn:EL; [discriminate|].
    apply Z.ltb_ge in EL.
    destruct (index_Some payload 0) as (p0 & Hp0); [lia|]. use_some Hp0.
    destruct (negb (Z_of_byte p0 =? ERR_PACKET)); [discriminate|].
    destruct (slice_Some payload 1 3) as (s & Hs & Hsl); [lia|lia|]. use_some Hs.
    destruct (Uint16_Some s) as (ec & Hec & _); [lia|]. use_some Hec.
    destruct (index_Some payload 3) as (mk & Hmk); [lia|]. use_some Hmk.
    destruct (Z_of_byte mk =? 35).
    + destruct (slice_Some payload (3 + 1) (3 + 6)) as (st & Hst & _); [lia|lia|].
      use_some Hst.
      destruct (slice_from_Some payload (3 + 6)) as (em & Hem & _); [lia|].
      use_some Hem. discriminate.
    + destruct (slice_from_Some payload 3) as (em & Hem & _); [lia|].
      use_some Hem. discriminate.
  - unfold ParseEOFPacket. cbv zeta.
    destruct (Z.of_nat (length payload) <? 5) eqn:EL; [discriminate|].
    apply Z.ltb_ge in EL.
    destruct (index_Some payload 0) as (p0 & Hp0); [lia|]. use_some Hp0.
    destruct (negb (Z_of_byte p0 =? EOF_PACKET)); [discriminate|].
    destruct (slice_Some payload 1 3) as (s1 & Hs1 & Hl1); [lia|lia|]. use_some Hs1.
    destruct (Uint16_Some s1) as (w & Hw & _); [lia|]. use_some Hw.
    destruct (slice_Some payload 3 5) as (s2 & Hs2 & Hl2); [lia|lia|]. use_some Hs2.
    destruct (Uint16_Some s2) as (f & Hf & _); [lia|]. use_some Hf.
    discriminate.
Qed.

(** X7.  The packet classifiers exclude one another: no payload is
    taken for two of OK, EOF and ERR. *)
Theorem classifiers_exclusive (payload : list byte) :
  (IsOKPacket payload = true -> IsEOFPacket payload = false /\ IsERRPacket payload = false) /\
  (IsEOFPacket payload = true -> IsOKPacket payload = false /\ IsERRPacket payload = false) /\
  (IsERRPacket payload = true -> IsOKPacket payload = false /\ IsEOFPacket payload = false).
Proof.
  unfold IsOKPacket, IsEOFPacket, IsERRPacket, first_is, OK_PACKET, EOF_PACKET, ERR_PACKET.
  destruct payload as [|b0 tl].
  - repeat case_match; repeat split; intros; congruence.
  - destruct (Z_of_byte b0 =? 0) eqn:E0; destruct (Z_of_byte b0 =? 254) eqn:E1;
      destruct (Z_of_byte b0 =? 255) eqn:E2;
      rewrite ?Z.eqb_eq in *; try lia;
      repeat case_match; cbn [andb]; repeat split; intros; congruence.
Qed.

(** X8.  The classifiers agree with the parsers: a payload that
    [ParseOKPacket] accepts is one [IsOKPacket] accepts, likewise for
    [ParseERRPacket] and [IsERRPacket], and every payload [IsEOFPacket]
    accepts is parsed by [ParseEOFPacket]. *)
Theorem classifiers_agree_with_parsers (payload : list byte) :
  (forall p, ParseOKPacket payload = Ok p -> IsOKPacket payload = true) /\
  (forall p, ParseERRPacket payload = Ok p -> IsERRPacket payload = true) /\
  (IsEOFPacket payload = true -> exists p, ParseEOFPacket payload = Ok p).
Proof.
  repeat split.
  - intros p. unfold ParseOKPacket, IsOKPacket. cbv zeta.
    destruct (Z.of_nat (length payload) <? 7) eqn:EL; [discriminate|].
    destruct (index payload 0) as [p0|] eqn:Hp0; [|discriminate]. cbn [get].
    rewrite (first_is_index _ _ _ Hp0).
    destruct (Z_of_byte p0 =? OK_PACKET); [reflexivity | discriminate].
  - intros p. unfold ParseERRPacket, IsERRPacket. cbv zeta.
    destruct (Z.of_nat (length payload) <? 9) eqn:EL; [discriminate|].
    apply Z.ltb_ge in EL.
    destruct (Z.of_nat (length payload) <? 3) eqn:E3; [apply Z.ltb_lt in E3; lia|].
    destruct (index payload 0) as [p0|] eqn:Hp0; [|discriminate]. cbn [get].
    rewrite (first_is_index _ _ _ Hp0).
    destruct (Z_of_byte p0 =? ERR_PACKET); [reflexivity | discriminate].
  - unfold ParseEOFPacket, IsEOFPacket. cbv zeta.
    destruct (Z.of_nat (length payload) <? 5) eqn:EL; [discriminate|].
    apply Z.ltb_ge in EL. intros HE. apply andb_prop in HE as [HE _].
    destruct (index_Some payload 0) as (p0 & Hp0); [lia|]. use_some Hp0.
    rewrite (first_is_index _ _ _ Hp0) in HE. rewrite HE. cbn [negb].
    destruct (slice_Some payload 1 3) as (s1 & Hs1 & Hl1); [lia|lia|]. use_some Hs1.
    destruct (Uint16_Some s1) as (w & Hw & _); [lia|]. use_some Hw.
    destruct (slice_Some payload 3 5) as (s2 & Hs2 & Hl2); [lia|lia|]. use_some Hs2.
    destruct (Uint16_Some s2) as (f & Hf & _); [lia|]. use_some Hf.
    eexists. reflexivity.
Qed.

Lemma classifiers_exclusive_witness :
  IsEOFPacket [Byte.x00; Byte.x00; Byte.x00; Byte.x02; Byte.x00; Byte.x00; Byte.x00] = false /\
  IsERRPacket [Byte.x00; Byte.x00; Byte.x00; Byte.x02; Byte.x00; Byte.x00; Byte.x00] = false.
Proof.
  apply (proj1 (classifiers_exclusive
    [Byte.x00; Byte.x00; Byte.x00; Byte.x02; Byte.x00; Byte.x00; Byte.x00])).
  reflexivity.
Defined.

Lemma classifiers_agree_with_parsers_witness :
  IsOKPacket [Byte.x00; Byte.x01; Byte.x05; Byte.x02; Byte.x00; Byte.x00; Byte.x00] = true.
Proof.
  apply (proj1 (classifiers_agree_with_parsers
    [Byte.x00; Byte.x01; Byte.x05; Byte.x02; Byte.x00; Byte.x00; Byte.x00])
    (mkOKPacket 1 5 2 0 [])).
  reflexivity.
Defined.

(** ** Reading a packet, then writing it *)

Lemma byte_of_Z_of_byte (b : byte) : byte_of_Z (Z_of_byte b) = b.
Proof.
  unfold byte_of_Z. pose proof (Z_of_byte_range b) as H.
  rewrite Z.mod_small by lia. unfold Z_of_byte.
  rewrite N2Z.id, Byte.of_to_N. reflexivity.
Qed.

Lemma byte_of_Z_mod (n : Z) : byte_of_Z (n mod 256) = byte_of_Z n.
Proof. unfold byte_of_Z. rewrite Z.mod_mod by lia. reflexivity. Qed.

Lemma header_bytes (b0 b1 b2 : byte) :
  let len := Z.lor (Z.lor (Z_of_byte b0) (Z.shiftl (Z_of_byte b1) 8))
               (Z.shiftl (Z_of_byte b2) 16) in
  byte_of_Z len = b0 /\ byte_of_Z (Z.shiftr len 8) = b1 /\
  byte_of_Z (Z.shiftr len 16) = b2.
Proof.
  pose proof (Z_of_byte_range b0). pose proof (Z_of_byte_range b1).
  pose proof (Z_of_byte_range b2).
  cbv zeta.
  rewrite (lor_shiftl_add (Z_of_byte b0)) by (change (2 ^ 8) with 256; lia).
  rewrite lor_shiftl_add by (change (2 ^ 8) with 256; change (2 ^ 16) with 65536; lia).
  rewrite !Z.shiftr_div_pow2 by lia.
  change (2 ^ 8) with 256. change (2 ^ 16) with 65536.
  set (z0 := Z_of_byte b0) in *. set (z1 := Z_of_byte b1) in *.
  set (z2 := Z_of_byte b2) in *.
  repeat split.
  - rewrite <- byte_of_Z_mod.
    replace ((z0 + z1 * 256 + z2 * 65536) mod 256) with z0
      by (apply (Z.mod_unique_pos _ _ (z1 + z2 * 256)); lia).
    apply byte_of_Z_of_byte.
  - rewrite <- byte_of_Z_mod.
    replace ((z0 + z1 * 256 + z2 * 65536) / 256) with (z1 + z2 * 256)
      by (apply (Z.div_unique_pos _ _ _ z0); lia).
    replace ((z1 + z2 * 256) mod 256) with z1
      by (apply (Z.mod_unique_pos _ _ z2); lia).
    apply byte_of_Z_of_byte.
  - rewrite <- byte_of_Z_mod.
    replace ((z0 + z1 * 256 + z2 * 65536) / 65536) with z2
      by (apply (Z.div_unique_pos _ _ _ (z0 + z1 * 256)); lia).
    rewrite Z.mod_small by lia.
    apply byte_of_Z_of_byte.
Qed.

(** X9.  A packet that [ReadPacket] returns is written back by
    [WritePacket] as exactly the bytes that were consumed: the stream is
    those bytes followed by what [ReadPacket] left, and the [Length] field
    is the length of the payload. *)
Theorem read_then_write (r rest : list byte) (pkt : Packet) :
  ReadPacket r = inr (pkt, rest) ->
  Length pkt = Z.of_nat (length (Payload pkt)) /\
  exists w, WritePacket (SequenceID pkt) (Payload pkt) = inr w /\ r = w ++ rest.
Proof.
  unfold ReadPacket.
  destruct r as [|b0 [|b1 [|b2 [|b3 r1]]]]; try discriminate.
  cbn [ReadFull length Nat.leb firstn skipn nth].
  pose proof (three_bytes_range b0 b1 b2) as Hr.
  destruct (header_bytes b0 b1 b2) as (H0 & H1 & H2).
  set (len := Z.lor (Z.lor (Z_of_byte b0) (Z.shiftl (Z_of_byte b1) 8))
                (Z.shiftl (Z_of_byte b2) 16)) in *.
  change (2 ^ 24) with 16777216 in Hr.
  assert (Hp : forall payload r2,
             ReadFull r1 (Z.to_nat len) = inr (payload, r2) ->
             Z.of_nat (length payload) = len /\ r1 = payload ++ r2).
  { intros payload r2. unfold ReadFull.
    destruct (Z.to_nat len) as [|k] eqn:Ek.
    - intros [= <- <-]. split; [cbn; lia | reflexivity].
    - destruct r1 as [|x r1']; [discriminate|].
      destruct (S k <=? length (x :: r1'))%nat eqn:El; [|discriminate].
      apply Nat.leb_le in El.
      intros [= <- <-]. split.
      + cbn [length] in *. rewrite length_take. lia.
      + cbn [app]. now rewrite take_drop. }
  change (drop 0 r1) with r1.
  destruct (ReadFull r1 (Z.to_nat len)) as [e|[payload r2]]; [discriminate|].
  intros [= <- <-]. cbn [Length SequenceID Payload].
  destruct (Hp payload r2 eq_refl) as [Hlen ->].
  split; [symmetry; exact Hlen|].
  rewrite ProtocolFacts.WritePacket_ok by lia.
  eexists. split; [reflexivity|].
  rewrite Hlen, H0, H1, H2. reflexivity.
Qed.

Lemma read_then_write_witness :
  Length (mkPacket 1 Byte.x05 [Byte.x0e]) = 1 /\
  exists w, WritePacket Byte.x05 [Byte.x0e] = inr w /\
            [Byte.x01; Byte.x00; Byte.x00; Byte.x05; Byte.x0e; Byte.xff] = w ++ [Byte.xff].
Proof.
  apply (read_then_write
           [Byte.x01; Byte.x00; Byte.x00; Byte.x05; Byte.x0e; Byte.xff]
           [Byte.xff] (mkPacket 1 Byte.x05 [Byte.x0e])).
  reflexivity.
Defined.

End WireFacts.

(* ===================================================================== *)
(** * Theorems: failures must be consecutive to open the circuit          *)
(* ===================================================================== *)

Module BreakerRunsFacts.
Import Breaker BreakerRuns.

Lemma closed_Call (cb : CircuitBreaker) (c : CallInput) :
  state cb = StateClosed ->
  0 <= failures cb ->
  (fn_err c = true -> failures cb + 1 < MaxFailures (config cb)) ->
  MaxFailures (config cb) < 2 ^ 63 ->
  let cb' := fst (Call cb c) in
  snd (Call cb c) = Ran (fn_err c) /\
  state cb' = StateClosed /\ config cb' = config cb /\
  failures cb' = (if fn_err c then failures cb + 1 else 0).
Proof.
  intros Hst Hf Hlim Hmax.
  destruct cb as [cfg st fl lft lsc hor tr ts tf tj].
  destruct c as [t1 err t2]. cbn in *. subst st.
  unfold Call, beforeRequest, incr_totalRequests. cbn.
  destruct err; cbn.
  - specialize (Hlim eq_refl).
    unfold onFailure, record_failure. cbn.
    rewrite BreakerFacts.wrap_int_small by lia.
    destruct (MaxFailures cfg <=? fl + 1) eqn:E; [apply Z.leb_le in E; lia|].
    cbn. auto.
  - unfold onSuccess, incr_totalSuccesses. cbn.
    destruct (0 <? fl) eqn:E; cbn; repeat split; try reflexivity.
    apply Z.ltb_ge in E. lia.
Qed.

Lemma runs_below_closed (cs : list CallInput) :
  forall (cb : CircuitBreaker),
    state cb = StateClosed ->
    0 <= failures cb ->
    MaxFailures (config cb) < 2 ^ 63 ->
    runs_below (MaxFailures (config cb)) (failures cb) cs = true ->
    state (calls cb cs) = StateClosed /\
    outcomes cb cs = map (fun c => Ran (fn_err c)) cs.
Proof.
  induction cs as [|c rest IH]; intros cb Hst Hf Hmax Hruns; [now split|].
  cbn [runs_below] in Hruns.
  destruct (closed_Call cb c Hst Hf) as (Ho & Hs' & Hc' & Hf'); [|exact Hmax|].
  { intros He. rewrite He in Hruns. apply andb_prop in Hruns as [H _].
    now apply Z.ltb_lt in H. }
  unfold calls. cbn [fold_left outcomes map].
  fold (calls (fst (Call cb c)) rest).
  destruct (IH (fst (Call cb c))) as [H1 H2]; try assumption.
  - rewrite Hf'. destruct (fn_err c); lia.
  - now rewrite Hc'.
  - rewrite Hc', Hf'. destruct (fn_err c); [|exact Hruns].
    apply andb_prop in Hruns as [_ H]. exact H.
  - split; [exact H1|]. now rewrite Ho, H2.
Qed.

(** X15.  Only consecutive failures open the circuit: a success in
    [Closed] resets the failure count, so on a new breaker a sequence of
    calls in which every run of consecutive failures is shorter than
    [MaxFailures] leaves the circuit closed, and every call of it runs. *)
Theorem closed_while_runs_short (cfg : CircuitBreakerConfig) (now : Z)
  (cs : list CallInput) :
  MaxFailures cfg < 2 ^ 63 ->
  runs_below (MaxFailures cfg) 0 cs = true ->
  state (calls (NewCircuitBreaker cfg now) cs) = StateClosed /\
  outcomes (NewCircuitBreaker cfg now) cs = map (fun c => Ran (fn_err c)) cs.
Proof.
  intros Hmax Hruns.
  apply runs_below_closed; cbn; first [reflexivity | lia | assumption].
Qed.

Lemma closed_while_runs_short_witness :
  let cs := [fail_at 1; fail_at 2; ok_at 3; fail_at 4; fail_at 5; ok_at 6] in
  state (calls (NewCircuitBreaker (mkConfig 3 100 2) 0) cs) = StateClosed /\
  outcomes (NewCircuitBreaker (mkConfig 3 100 2) 0) cs
  = map (fun c => Ran (fn_err c)) cs.
Proof.
  apply (closed_while_runs_short (mkConfig 3 100 2) 0
           [fail_at 1; fail_at 2; ok_at 3; fail_at 4; fail_at 5; ok_at 6]);
    [cbn; lia | reflexivity].
Defined.

End BreakerRunsFacts.

(* ===================================================================== *)
(** * Theorems: pooled connections                                        *)
(* ===================================================================== *)

Module PoolChannelFacts.
Import Breaker Pool PoolChannel.

Lemma createConnection_clean (bp : BackendPool) (dial : CallInput) :
  clean_idle bp ->
  clean_idle (fst (createConnection bp dial)) /\
  forall conn, snd (createConnection bp dial) = Acquired conn -> clean conn.
Proof.
  intros H. unfold createConnection, clean_idle.
  destruct (Call (circuitBreaker bp) dial) as [cb [|[|]]]; cbn;
    (split; [exact H|]); intros conn; try discriminate.
  intros [= <-]. now split.
Qed.

Lemma Acquire_clean (bp : BackendPool) (healthy : bool) (dial : CallInput) :
  clean_idle bp ->
  clean_idle (fst (Acquire bp healthy dial)) /\
  forall conn, snd (Acquire bp healthy dial) = Acquired conn -> clean conn.
Proof.
  intros H. unfold Acquire.
  destruct (closed bp); [split; [exact H | discriminate]|].
  destruct (connections bp) as [|c rest] eqn:E.
  - now apply createConnection_clean.
  - unfold clean_idle in H. rewrite E in H.
    apply Forall_cons in H as [Hc Hrest].
    destruct healthy.
    + cbn. split; [exact Hrest|]. now intros conn [= <-].
    + apply createConnection_clean. exact Hrest.
Qed.

Lemma try_send_clean (bp bp' : BackendPool) (conn : BackendConn) :
  clean_idle bp -> clean conn -> try_send bp conn = Some bp' -> clean_idle bp'.
Proof.
  unfold try_send, clean_idle. intros H Hc.
  destruct (_ <? _)%nat; [|discriminate]. intros [= <-]. cbn.
  apply Forall_app. split; [exact H|]. now constructor.
Qed.

Lemma Release_clean (bp : BackendPool) (conn : BackendConn) :
  clean_idle bp -> clean_idle (Release bp conn).
Proof.
  intros H. unfold Release.
  destruct (closed bp); [exact H|].
  destruct (inTransaction conn); [exact H|].
  destruct (try_send bp (Reset conn)) as [bp'|] eqn:E; [|exact H].
  apply (try_send_clean bp bp' (Reset conn)) in E; [exact E | exact H | now split].
Qed.

Lemma resend_clean (conns : list BackendConn) :
  forall bp, clean_idle bp -> Forall clean conns ->
  clean_idle
    (fold_left
       (fun p c => match try_send p c with Some p' => p' | None => close_conn p end)
       conns bp).
Proof.
  induction conns as [|c conns IH]; intros bp H Hc; [exact H|].
  apply Forall_cons in Hc as [Hc1 Hc2]. cbn [fold_left].
  apply IH; [|exact Hc2].
  destruct (try_send bp c) as [bp'|] eqn:E; [|exact H].
  now apply (try_send_clean bp bp' c).
Qed.

Lemma step_clean (bp : BackendPool) (op : Op) :
  clean_idle bp -> clean_idle (step bp op).
Proof.
  intros H. destruct op as [healthy dial|conn|stale|]; cbn [step].
  - now apply Acquire_clean.
  - now apply Release_clean.
  - unfold cleanupStaleConnections. apply resend_clean.
    + constructor.
    + unfold clean_idle in H. rewrite List.Forall_forall in *.
      intros c Hin. apply H. apply filter_In in Hin. tauto.
  - unfold Close. destruct (closed bp); [exact H | constructor].
Qed.

Lemma run_clean (ops : list Op) :
  forall bp, clean_idle bp -> clean_idle (run bp ops).
Proof.
  induction ops as [|op ops IH]; intros bp H; [exact H|].
  apply IH. now apply step_clean.
Qed.

(** X16.  A pooled connection is handed out in a clean state: after any
    sequence of operations on a new pool, every connection [Acquire]
    returns, reused or freshly dialed, is outside a transaction and has no
    database selected (a connection released inside a transaction is
    closed, every other one is reset before it is queued; the releaser is
    taken not to touch a connection after releasing it). *)
Theorem acquired_connections_are_clean (poolSize : nat) (now : Z) (ops : list Op)
  (healthy : bool) (dial : CallInput) (conn : BackendConn) :
  snd (Acquire (run (NewBackendPool poolSize now) ops) healthy dial) = Acquired conn ->
  inTransaction conn = false /\ database conn = "".
Proof.
  intros H.
  assert (Hc : clean_idle (run (NewBackendPool poolSize now) ops)).
  { apply run_clean. constructor. }
  exact (proj2 (Acquire_clean _ healthy dial Hc) conn H).
Qed.

Lemma acquired_connections_are_clean_witness :
  inTransaction (mkConn 7 false "") = false /\ database (mkConn 7 false "") = "".
Proof.
  apply (acquired_connections_are_clean 2 0
           [OpRelease (mkConn 7 false "shop")] true (ok_at 1) (mkConn 7 false "")).
  reflexivity.
Defined.

Lemma createConnection_closed (bp : BackendPool) (dial : CallInput) :
  closed (fst (createConnection bp dial)) = closed bp.
Proof.
  unfold createConnection.
  now destruct (Call (circuitBreaker bp) dial) as [cb [|[|]]].
Qed.

Lemma resend_closed (conns : list BackendConn) :
  forall bp,
  closed
    (fold_left
       (fun p c => match try_send p c with Some p' => p' | None => close_conn p end)
       conns bp) = closed bp.
Proof.
  induction conns as [|c conns IH]; intros bp; [reflexivity|].
  cbn [fold_left]. rewrite IH. unfold try_send.
  now destruct (_ <? _)%nat.
Qed.

(** The idle channel of a closed pool is empty, whatever happens next. *)
Lemma closed_step (bp : BackendPool) (op : Op) :
  (closed bp = true -> connections bp = []) ->
  closed (step bp op) = true -> connections (step bp op) = [].
Proof.
  intros Hinv. destruct op as [healthy dial|conn|stale|]; cbn [step].
  - unfold Acquire. destruct (closed bp) eqn:Hc; [cbn; auto|].
    destruct (connections bp) as [|c rest]; [|destruct healthy; cbn];
      rewrite ?createConnection_closed; cbn; congruence.
  - unfold Release. destruct (closed bp) eqn:Hc; [cbn; auto|].
    destruct (inTransaction conn); [cbn; congruence|].
    unfold try_send. destruct (_ <? _)%nat; cbn; congruence.
  - unfold cleanupStaleConnections. rewrite resend_closed. cbn [closed].
    intros Hc. rewrite (Hinv Hc). reflexivity.
  - unfold Close. destruct (closed bp) eqn:Hc; [auto | reflexivity].
Qed.

Lemma closed_run (ops : list Op) :
  forall bp, (closed bp = true -> connections bp = []) ->
  closed (run bp ops) = true -> connections (run bp ops) = [].
Proof.
  induction ops as [|op ops IH]; intros bp Hinv; [exact Hinv|].
  apply (IH (step bp op)). now apply closed_step.
Qed.

Lemma user_ops_keep_closed (ops : list Op) :
  forall bp, closed bp = true -> forallb is_user_op ops = true ->
  closed (run bp ops) = true.
Proof.
  induction ops as [|op ops IH]; intros bp Hc Hops; [exact Hc|].
  cbn [forallb] in Hops. apply andb_prop in Hops as [Hop Hops].
  apply IH; [|exact Hops].
  destruct op as [healthy dial|conn|stale|]; try discriminate; cbn [step].
  - unfold Acquire. now rewrite Hc.
  - unfold Release. now rewrite Hc.
Qed.

(** X17.  A closed pool hands out nothing and keeps nothing: once a pool
    was closed, whatever [Acquire] and [Release] calls follow, every
    [Acquire] fails with the pool-closed error without dialing, no
    connection is idle, and a released connection is closed. *)
Theorem closed_pool_refuses (poolSize : nat) (now : Z) (before after : list Op)
  (healthy : bool) (dial : CallInput) (conn : BackendConn) :
  forallb is_user_op after = true ->
  let bp := run (Close (run (NewBackendPool poolSize now) before)) after in
  Acquire bp healthy dial = (bp, ErrPoolClosed) /\
  connections bp = [] /\
  Release bp conn = close_conn bp.
Proof.
  intros Hops bp.
  assert (Hc : closed bp = true).
  { apply user_ops_keep_closed; [|exact Hops].
    unfold Close.
    destruct (closed (run (NewBackendPool poolSize now) before)) eqn:E;
      [exact E | reflexivity]. }
  assert (Hi : connections bp = []).
  { assert (Heq : bp = run (NewBackendPool poolSize now) (before ++ OpClose :: after))
      by (unfold bp, run; now rewrite fold_left_app).
    rewrite Heq in *. apply closed_run; [discriminate | exact Hc]. }
  unfold Acquire, Release. rewrite Hc. auto.
Qed.

Lemma closed_pool_refuses_witness :
  let bp := run (Close (run (NewBackendPool 2 0) [OpRelease (mkConn 1 false "")]))
              [OpRelease (mkConn 2 false "")] in
  Acquire bp true (ok_at 5) = (bp, ErrPoolClosed) /\
  connections bp = [] /\
  Release bp (mkConn 3 false "") = close_conn bp.
Proof.
  apply (closed_pool_refuses 2 0 [OpRelease (mkConn 1 false "")]
           [OpRelease (mkConn 2 false "")] true (ok_at 5) (mkConn 3 false "")).
  reflexivity.
Defined.

(** X18.  After [Close] the cleanup never ends: on the closed channel
    the drain loop of [cleanupStaleConnections] receives [nil] again and
    again and does not reach the part that returns the healthy
    connections, whatever the number of rounds; on an open channel it ends
    after one round per idle connection and one more, with the connections
    that are not stale, in order, and the number of the others. *)
Theorem cleanup_ends_iff_open (stale : BackendConn -> bool) (idle : list BackendConn) :
  (forall fuel, drain fuel true stale idle [] 0 = None) /\
  (forall fuel, (length idle < fuel)%nat ->
     drain fuel false stale idle [] 0
     = Some (List.filter (fun c => negb (stale c)) idle,
             Z.of_nat (length idle)
             - Z.of_nat (length (List.filter (fun c => negb (stale c)) idle)))).
Proof.
  split.
  - intros fuel. generalize (@nil BackendConn) at 1. generalize 0.
    revert idle.
    induction fuel as [|fuel IH]; intros idle ev hs; [reflexivity|].
    cbn [drain]. destruct idle as [|c rest]; [apply IH|].
    destruct (stale c); apply IH.
  - assert (H : forall fuel idle' hs ev, (length idle' < fuel)%nat ->
       drain fuel false stale idle' hs ev
       = Some (hs ++ List.filter (fun c => negb (stale c)) idle',
               ev + (Z.of_nat (length idle')
               - Z.of_nat (length (List.filter (fun c => negb (stale c)) idle'))))).
    { induction fuel as [|fuel IH]; intros idle' hs ev Hlt; [lia|].
      cbn [drain]. destruct idle' as [|c rest].
      - cbn. rewrite app_nil_r. do 2 f_equal. lia.
      - cbn [length] in Hlt. cbn [List.filter].
        destruct (stale c); cbn [negb]; rewrite IH by lia.
        + do 2 f_equal. cbn [length]. lia.
        + rewrite <- app_assoc. do 2 f_equal. cbn [length]. lia. }
    intros fuel Hlt. now rewrite H.
Qed.

Lemma cleanup_ends_iff_open_witness :
  drain 3 false inTransaction [mkConn 1 false ""; mkConn 2 true ""] [] 0
  = Some ([mkConn 1 false ""], 1).
Proof.
  apply (proj2 (cleanup_ends_iff_open inTransaction
                  [mkConn 1 false ""; mkConn 2 true ""]) 3%nat).
  cbn. lia.
Defined.

End PoolChannelFacts.

(* ===================================================================== *)
(** * Theorems: backfill jobs that end                                    *)
(* ===================================================================== *)

Module BackfillRunFacts.
Import Float64 Rounding Backfill.

(** X20.  A batch size of zero makes the job report completion at once:
    the first batch selects no row, which [Start] takes for the end of the
    work, so it returns without error and with the status completed while
    every row is still pending and none was updated. *)
Theorem zero_batch_size_completes_nothing (w : Worker) (be : Backend)
  (rows : list Row) (fuel : nat) :
  has_columns w = true ->
  count_fails be = false ->
  query_fails be = false ->
  BatchSize (config w) = 0 ->
  rows <> [] ->
  Start (S fuel) w be (mkDB rows [] 0)
  = Some (None,
          mkProgress (Z.of_nat (length rows)) 0 0 StatusCompleted,
          mkDB rows [] 0).
Proof.
  intros Hcols Hcount Hquery Hb Hrows. unfold Start. rewrite Hcount. cbn [pending].
  destruct (Z.of_nat (length rows) =? 0) eqn:E.
  { apply Z.eqb_eq in E. destruct rows; [congruence | cbn [length] in E; lia]. }
  cbn [batchLoop]. unfold processBatch. rewrite Hcols, Hquery, Hb. reflexivity.
Qed.

Section QueryKeepsFailing.
Variables (w : Worker) (be : Backend).
Hypothesis Hcols : has_columns w = true.
Hypothesis Hquery : query_fails be = true.

Lemma batchLoop_query_fails (k : nat) :
  forall (e : Z) (fuel : nat) (total done : Z) (st : Status) (db : DB),
    Z.to_nat (RetryAttempts (config w) - e - 1) = k ->
    (k < fuel)%nat ->
    batchLoop fuel w be (mkProgress total done e st) db
    = Some (Some (ErrBatchProcessing ErrQueryBatch),
            mkProgress total done (e + 1 + Z.of_nat k) st, db).
Proof.
  induction k as [|k IH]; intros e fuel total done st db Hk Hfuel;
    (destruct fuel as [|fuel]; [lia|]);
    cbn [batchLoop]; unfold processBatch; rewrite Hcols, Hquery; cbn [negb orb];
    unfold shouldRetry, IncrementErrors; cbn [errors config totalRows completedRows status].
  - destruct (e + 1 <? RetryAttempts (config w)) eqn:E; [apply Z.ltb_lt in E; lia|].
    replace (e + 1 + Z.of_nat 0) with (e + 1) by lia. reflexivity.
  - destruct (e + 1 <? RetryAttempts (config w)) eqn:E; [|apply Z.ltb_ge in E; lia].
    rewrite (IH (e + 1) fuel) by lia.
    replace (e + 1 + 1 + Z.of_nat k) with (e + 1 + Z.of_nat (S k)) by lia.
    reflexivity.
Qed.

End QueryKeepsFailing.

(** X21.  A structural error is retried like any other: when the batch
    SELECT fails every time (say the source column does not exist), the
    job runs the batch [max 1 RetryAttempts] times, counting one error
    each, and only then returns the error, with no UPDATE issued and the
    table untouched; the status is left at running. *)
Theorem failing_select_is_retried (w : Worker) (be : Backend) (db : DB) (fuel : nat) :
  has_columns w = true ->
  count_fails be = false ->
  query_fails be = true ->
  pending db <> [] ->
  (Z.to_nat (Z.max 1 (RetryAttempts (config w))) <= fuel)%nat ->
  Start fuel w be db
  = Some (Some (ErrBatchProcessing ErrQueryBatch),
          mkProgress (Z.of_nat (length (pending db))) 0
            (Z.max 1 (RetryAttempts (config w))) StatusRunning,
          db).
Proof.
  intros Hcols Hcount Hquery Hrows Hfuel. unfold Start. rewrite Hcount.
  destruct (Z.of_nat (length (pending db)) =? 0) eqn:E.
  { apply Z.eqb_eq in E. destruct (pending db); [congruence | cbn [length] in E; lia]. }
  unfold SetTotal, ProgressStart, NewProgress.
  cbn [totalRows completedRows errors status].
  rewrite (batchLoop_query_fails w be Hcols Hquery
             (Z.to_nat (RetryAttempts (config w) - 0 - 1))) by lia.
  replace (0 + 1 + Z.of_nat (Z.to_nat (RetryAttempts (config w) - 0 - 1)))
    with (Z.max 1 (RetryAttempts (config w))) by lia.
  reflexivity.
Qed.

Lemma zero_batch_size_completes_nothing_witness :
  Start 1 (mkWorker (mkBackfillConfig 0 0 3 0) 1000 (NewEngine BankersRound 4) true)
    (mkBackend false false (fun _ _ => false)) (mkDB demo_rows [] 0)
  = Some (None, mkProgress 2 0 0 StatusCompleted, mkDB demo_rows [] 0).
Proof.
  apply (zero_batch_size_completes_nothing
           (mkWorker (mkBackfillConfig 0 0 3 0) 1000 (NewEngine BankersRound 4) true)
           (mkBackend false false (fun _ _ => false)) demo_rows 0);
    first [reflexivity | discriminate].
Defined.

Lemma failing_select_is_retried_witness :
  Start 3 demo_worker (mkBackend false true (fun _ _ => false)) (mkDB demo_rows [] 0)
  = Some (Some (ErrBatchProcessing ErrQueryBatch),
          mkProgress 2 0 3 StatusRunning, mkDB demo_rows [] 0).
Proof.
  apply (failing_select_is_retried demo_worker (mkBackend false true (fun _ _ => false))
           (mkDB demo_rows [] 0) 3);
    first [reflexivity | discriminate | cbn; lia].
Defined.

End BackfillRunFacts.


(* ===================================================================== *)
(** * Theorems: a backfill job that meets no error                        *)
(* ===================================================================== *)

Module BackfillTableFacts.
Import Float64 Rounding Config BackfillTable.
Local Open Scope string_scope.
Local Open Scope Z_scope.

(** ** The entry a [range] yields first *)

Lemma first_entry_configured (columns : gmap string ColumnConfig) (order : nat) :
  map_to_list columns <> [] ->
  In (first_entry columns order) (map_to_list columns).
Proof.
  intros Hne. unfold first_entry.
  destruct (nth_error (map_to_list columns) (order mod length (map_to_list columns)))
    as [e|] eqn:E.
  - now apply nth_error_In in E.
  - apply nth_error_None in E.
    assert (length (map_to_list columns) <> 0)%nat
      by (destruct (map_to_list columns); [congruence | discriminate]).
    pose proof (Nat.mod_upper_bound order (length (map_to_list columns)) H). lia.
Qed.

Lemma first_entry_singleton (column : string) (cfg : ColumnConfig) (order : nat) :
  first_entry {[column := cfg]} order = (column, cfg).
Proof.
  unfold first_entry. rewrite map_to_list_singleton. cbn [length].
  rewrite Nat.mod_1_r. reflexivity.
Qed.

Lemma In_entries (tc : TableConfig) (column : string) (cfg : ColumnConfig) :
  In (column, cfg) (map_to_list (Columns tc)) <-> Columns tc !! column = Some cfg.
Proof. rewrite <- list_elem_of_In. apply elem_of_map_to_list. Qed.

(** ** One UPDATE, one batch *)

Section Batch.
Variables (w : Worker) (be : Backfill.Backend) (column target : string).
Hypothesis Hexec : forall n i, Backfill.exec_fails be n i = false.

Lemma execUpdate_ids (v : float64) (i : Z) (t : list TableRow) :
  map row_id (execUpdate target v i t) = map row_id t.
Proof.
  unfold execUpdate. rewrite map_map. apply map_ext.
  intros r. now destruct (row_id r =? i).
Qed.

Lemma consistent_execUpdate (rows : list (Z * option Z)) (v : float64) (i : Z)
  (t : list TableRow) :
  consistent column rows t -> consistent column rows (execUpdate target v i t).
Proof.
  intros H j x Hin. destruct (H j x Hin) as [Hs Hr]. split; [exact Hs|].
  intros r' Hr' Hid. unfold execUpdate in Hr'. apply in_map_iff in Hr' as (r & <- & Hr0).
  destruct (row_id r =? i); cbn in *; now apply Hr.
Qed.

Lemma migrate_after_update (i : Z) (s : Z) (ids : list Z) (t : list TableRow) :
  (forall r, In r t -> row_id r = i -> source r !! column = Some s) ->
  map (migrate_row w column target ids)
    (execUpdate target (ConvertIDRtoIDN (roundingEngine w) s (ratio w)) i t)
  = map (migrate_row w column target (i :: ids)) t.
Proof.
  intros Hsrc. unfold execUpdate. rewrite map_map. apply map_ext_in.
  intros r Hr. unfold migrate_row. cbn [existsb].
  destruct (row_id r =? i) eqn:Ei.
  - apply Z.eqb_eq in Ei. cbn [row_id source shadow orb].
    rewrite (Hsrc r Hr Ei).
    destruct (existsb (Z.eqb (row_id r)) ids); [|reflexivity].
    now rewrite insert_insert_eq.
  - cbn [orb]. reflexivity.
Qed.

Lemma updateRows_ok (rows : list (Z * option Z)) :
  forall (t : list TableRow) (n : nat) (processed : Z),
    consistent column rows t ->
    updateRows w be target rows (mkDB t n) processed
    = (mkDB (map (migrate_row w column target (map fst rows)) t) (n + length rows),
       processed + Z.of_nat (length rows), None).
Proof.
  induction rows as [|[i v] rows IH]; intros t n processed Hc.
  - cbn. rewrite Nat.add_0_r, Z.add_0_r.
    replace (map (migrate_row w column target []) t) with t; [reflexivity|].
    transitivity (map (fun r : TableRow => r) t); [symmetry; apply map_id|].
    apply map_ext. reflexivity.
  - destruct (Hc i v (or_introl eq_refl)) as [[s ->] Hsrc].
    cbn [updateRows execs table]. rewrite Hexec.
    rewrite IH.
    + rewrite migrate_after_update by exact Hsrc.
      cbn [map fst length].
      replace (S n + length rows)%nat with (n + S (length rows))%nat by lia.
      replace (processed + 1 + Z.of_nat (length rows))
        with (processed + Z.of_nat (S (length rows))) by lia.
      reflexivity.
    + apply consistent_execUpdate. intros j x Hin. apply Hc. now right.
Qed.

End Batch.

(** ** The table after a batch *)

Lemma length_filter_map {A B : Type} (f : B -> bool) (g : A -> B) (l : list A) :
  length (List.filter f (map g l)) = length (List.filter (fun x => f (g x)) l).
Proof.
  induction l as [|a l IH]; [reflexivity|].
  cbn. destruct (f (g a)); cbn; now rewrite IH.
Qed.

Lemma filter_andb {A : Type} (p q : A -> bool) (l : list A) :
  List.filter (fun x => p x && q x) l = List.filter q (List.filter p l).
Proof.
  induction l as [|a l IH]; [reflexivity|].
  cbn. destruct (p a); cbn; [destruct (q a)|]; now rewrite IH.
Qed.

Lemma length_filter_le {A : Type} (p q : A -> bool) (l : list A) :
  (forall x, In x l -> p x = true -> q x = true) ->
  (length (List.filter p l) <= length (List.filter q l))%nat.
Proof.
  induction l as [|a l IH]; intros H; [reflexivity|].
  cbn. destruct (p a) eqn:Ep.
  - rewrite (H a (or_introl eq_refl) Ep). cbn.
    apply le_n_S, IH. intros x Hx. apply H. now right.
  - destruct (q a); cbn; [apply Nat.le_le_succ_r|]; apply IH;
      intros x Hx; apply H; now right.
Qed.

Lemma NoDup_map_filter {A B : Type} (f : A -> B) (p : A -> bool) (l : list A) :
  List.NoDup (map f l) -> List.NoDup (map f (List.filter p l)).
Proof.
  induction l as [|a l IH]; intros H; [constructor|].
  cbn in H. apply List.NoDup_cons_iff in H as [Hnin Hnd]. cbn.
  destruct (p a); [|now apply IH]. cbn. constructor; [|now apply IH].
  intros Hin. apply Hnin. apply in_map_iff in Hin as (x & Hx & Hin).
  apply in_map_iff. exists x. split; [exact Hx|]. apply filter_In in Hin. tauto.
Qed.

Lemma NoDup_map_inj {A B : Type} (f : A -> B) (l : list A) (x y : A) :
  List.NoDup (map f l) -> In x l -> In y l -> f x = f y -> x = y.
Proof.
  induction l as [|a l IH]; intros H Hx Hy Hf; [contradiction|].
  cbn in H. apply List.NoDup_cons_iff in H as [Hnin Hnd].
  destruct Hx as [<-|Hx], Hy as [<-|Hy]; try reflexivity.
  - exfalso. apply Hnin. rewrite Hf. now apply in_map.
  - exfalso. apply Hnin. rewrite <- Hf. now apply in_map.
  - now apply IH.
Qed.

Lemma existsb_eqb_In (i : Z) (ids : list Z) :
  existsb (Z.eqb i) ids = true <-> In i ids.
Proof.
  rewrite existsb_exists. split.
  - intros (x & Hx & He). apply Z.eqb_eq in He. now subst.
  - intros H. exists i. split; [exact H | apply Z.eqb_refl].
Qed.

Lemma list_sum_cons {A : Type} (f : A -> nat) (a : A) (l : list A) :
  list_sum (map f (a :: l)) = (f a + list_sum (map f l))%nat.
Proof. reflexivity. Qed.

Lemma list_sum_le {A : Type} (f g : A -> nat) (l : list A) :
  (forall y, In y l -> (f y <= g y)%nat) ->
  (list_sum (map f l) <= list_sum (map g l))%nat.
Proof.
  induction l as [|a l IH]; intros Hle; [reflexivity|].
  rewrite !list_sum_cons.
  pose proof (Hle a (or_introl eq_refl)).
  assert ((list_sum (map f l) <= list_sum (map g l))%nat)
    by (apply IH; intros y Hy; apply Hle; now right).
  lia.
Qed.

Lemma list_sum_lt {A : Type} (f g : A -> nat) (l : list A) (x : A) :
  (forall y, In y l -> (f y <= g y)%nat) ->
  In x l -> (f x < g x)%nat ->
  (list_sum (map f l) < list_sum (map g l))%nat.
Proof.
  induction l as [|a l IH]; intros Hle Hin Hlt; [contradiction|].
  rewrite !list_sum_cons.
  pose proof (Hle a (or_introl eq_refl)) as Ha.
  assert (Hl : forall y, In y l -> (f y <= g y)%nat)
    by (intros y Hy; apply Hle; now right).
  destruct Hin as [->|Hin].
  - pose proof (list_sum_le f g l Hl). lia.
  - pose proof (IH Hl Hin Hlt). lia.
Qed.

Lemma filter_none {A : Type} (q : A -> bool) (l : list A) :
  (forall x, In x l -> q x = false) -> List.filter q l = [].
Proof.
  induction l as [|a l IH]; intros H; [reflexivity|].
  cbn. rewrite (H a (or_introl eq_refl)). apply IH. intros x Hx. apply H. now right.
Qed.

Lemma filter_all {A : Type} (q : A -> bool) (l : list A) :
  (forall x, In x l -> q x = true) -> List.filter q l = l.
Proof.
  induction l as [|a l IH]; intros H; [reflexivity|].
  cbn. rewrite (H a (or_introl eq_refl)). f_equal. apply IH.
  intros x Hx. apply H. now right.
Qed.

(** Of rows with distinct ids, those whose id is not among the first
    [limit] are the remaining ones. *)
Lemma rest_of_selection (limit : nat) (P : list TableRow) :
  List.NoDup (map row_id P) ->
  (length (List.filter
             (fun r => negb (existsb (Z.eqb (row_id r)) (map row_id (firstn limit P))))
             P)
   + length (firstn limit P) = length P)%nat.
Proof.
  intros Hnd.
  set (A := firstn limit P). set (B := skipn limit P).
  assert (HP : P = (A ++ B)%list) by (symmetry; apply firstn_skipn).
  assert (Hlen : length P = (length A + length B)%nat)
    by (rewrite HP at 1; apply length_app).
  rewrite Hlen.
  assert (Hf : List.filter
             (fun r => negb (existsb (Z.eqb (row_id r)) (map row_id A))) P
          = (List.filter (fun r => negb (existsb (Z.eqb (row_id r)) (map row_id A))) A
             ++ List.filter (fun r => negb (existsb (Z.eqb (row_id r)) (map row_id A))) B)%list)
    by (rewrite HP at 1; apply List.filter_app).
  rewrite Hf, length_app. clear Hf Hlen.
  rewrite HP, map_app in Hnd. apply NoDup_ListNoDup in Hnd. apply NoDup_app in Hnd as (_ & Hdis & _).
  rewrite filter_none, filter_all; [cbn [length]; lia | |].
  - intros r Hr. apply negb_true_iff.
    destruct (existsb _ _) eqn:E; [|reflexivity].
    apply existsb_eqb_In in E. exfalso.
    apply (Hdis (row_id r)); apply list_elem_of_In; [exact E|]. now apply in_map.
  - intros r Hr. apply negb_false_iff. apply existsb_eqb_In. now apply in_map.
Qed.

Lemma Forall2_map_same {A : Type} (R : A -> A -> Prop) (f : A -> A) (l : list A) :
  (forall x, In x l -> R x (f x)) -> Forall2 R l (map f l).
Proof.
  induction l as [|a l IH]; intros H; [constructor|].
  cbn. constructor; [apply H; now left|]. apply IH. intros x Hx. apply H. now right.
Qed.

Lemma Forall2_compose {A : Type} (R : A -> A -> Prop) :
  (forall x y z, R x y -> R y z -> R x z) ->
  forall l1 l2 l3, Forall2 R l1 l2 -> Forall2 R l2 l3 -> Forall2 R l1 l3.
Proof.
  intros HR l1 l2 l3 H12. revert l3.
  induction H12 as [|x y l1 l2 Hxy _ IH]; intros l3 H23.
  - inversion H23. constructor.
  - inversion H23 as [|? z ? l3' Hyz H23']; subst.
    constructor; [now apply HR with y | now apply IH].
Qed.

Lemma Forall2_same {A : Type} (R : A -> A -> Prop) (l : list A) :
  (forall x, R x x) -> Forall2 R l l.
Proof. intros HR. induction l; constructor; auto. Qed.

Lemma migrated_from_refl (w : Worker) (tc : TableConfig) (r : TableRow) :
  migrated_from w tc r r.
Proof. repeat split. intros g. now left. Qed.

Lemma migrated_from_trans (w : Worker) (tc : TableConfig) (r1 r2 r3 : TableRow) :
  migrated_from w tc r1 r2 -> migrated_from w tc r2 r3 -> migrated_from w tc r1 r3.
Proof.
  intros (Hi12 & Hs12 & H12) (Hi23 & Hs23 & H23).
  split; [congruence|]. split; [congruence|]. intros g.
  destruct (H23 g) as [E23|(N2 & c & cfg & v & Hc & Ht & Hv & E3)].
  - destruct (H12 g) as [E12|(N1 & c & cfg & v & Hc & Ht & Hv & E2)].
    + left. congruence.
    + right. split; [exact N1|]. exists c, cfg, v. repeat split; congruence.
  - destruct (H12 g) as [E12|(N1 & c' & cfg' & v' & Hc' & Ht' & Hv' & E2)].
    + right. split; [congruence|]. exists c, cfg, v. repeat split; congruence.
    + congruence.
Qed.

Section AfterBatch.
Variables (w : Worker) (tc : TableConfig) (column : string) (cfg : ColumnConfig).
Variables (limit : nat) (t : list TableRow).
Hypothesis Hcfg : Columns tc !! column = Some cfg.
Hypothesis Hnd : List.NoDup (map row_id t).
Hypothesis Hsrc : sources_present tc t = true.

Local Abbreviation target := (TargetColumn cfg).
Local Abbreviation sel := (firstn limit (List.filter (is_null target) t)).
Local Abbreviation ids := (map row_id sel).
Local Abbreviation after := (map (migrate_row w column target ids) t).

Lemma source_present (r : TableRow) :
  In r t -> is_Some (source r !! column).
Proof.
  intros Hr. unfold sources_present in Hsrc. rewrite forallb_forall in Hsrc.
  specialize (Hsrc r Hr). rewrite forallb_forall in Hsrc.
  specialize (Hsrc (column, cfg) (proj2 (In_entries tc column cfg) Hcfg)).
  cbn in Hsrc. destruct (source r !! column); [now eexists | discriminate].
Qed.

Lemma migrate_row_kept (r : TableRow) (l : list Z) (c g : string) :
  row_id (migrate_row w c g l r) = row_id r /\
  source (migrate_row w c g l r) = source r.
Proof.
  unfold migrate_row. destruct (existsb _ _); [|now split].
  destruct (source r !! c); now split.
Qed.

Lemma after_ids : map row_id after = map row_id t.
Proof. rewrite map_map. apply map_ext. intros r. apply migrate_row_kept. Qed.

Lemma sel_in (r : TableRow) : In r sel -> In r t /\ is_null target r = true.
Proof.
  intros H.
  assert (H' : In r (List.filter (is_null target) t)).
  { rewrite <- (firstn_skipn limit (List.filter (is_null target) t)).
    apply in_or_app. now left. }
  now apply filter_In in H'.
Qed.

(** A row with the id of a selected row is that row. *)
Lemma selected (r : TableRow) :
  In r t -> existsb (Z.eqb (row_id r)) ids = true -> In r sel.
Proof.
  intros Hr He. apply existsb_eqb_In in He. apply in_map_iff in He as (r0 & Hid & H0).
  destruct (sel_in r0 H0) as [Ht0 _].
  now rewrite <- (NoDup_map_inj row_id t r0 r Hnd Ht0 Hr Hid).
Qed.

Lemma after_null_other (g : string) (r : TableRow) :
  is_null g (migrate_row w column target ids r) = true -> is_null g r = true.
Proof.
  unfold migrate_row. destruct (existsb _ _); [|auto].
  destruct (source r !! column); [|auto].
  unfold is_null. cbn [shadow].
  destruct (decide (target = g)) as [<-|Hne].
  - now rewrite lookup_insert_eq.
  - now rewrite lookup_insert_ne.
Qed.

Lemma after_null_target (r : TableRow) :
  In r t ->
  is_null target (migrate_row w column target ids r)
  = is_null target r && negb (existsb (Z.eqb (row_id r)) ids).
Proof.
  intros Hr. unfold migrate_row.
  destruct (existsb _ _) eqn:E; [|now rewrite andb_true_r].
  destruct (source_present r Hr) as [s Hs]. rewrite Hs.
  unfold is_null at 1. cbn [shadow]. rewrite lookup_insert_eq.
  now rewrite andb_false_r.
Qed.

Lemma count_after_le (g : string) : (count_null g after <= count_null g t)%nat.
Proof.
  unfold count_null. rewrite length_filter_map.
  apply length_filter_le. intros r _. apply after_null_other.
Qed.

Lemma count_after_target :
  (count_null target after + length sel = count_null target t)%nat.
Proof.
  unfold count_null. rewrite length_filter_map.
  rewrite (filter_ext_in _ (fun r => is_null target r
                                     && negb (existsb (Z.eqb (row_id r)) ids)))
    by (intros r Hr; now apply after_null_target).
  rewrite filter_andb.
  apply rest_of_selection. now apply NoDup_map_filter.
Qed.

Lemma after_migrated : Forall2 (migrated_from w tc) t after.
Proof.
  apply Forall2_map_same. intros r Hr. unfold migrate_row.
  destruct (existsb _ _) eqn:E; [|apply migrated_from_refl].
  destruct (source r !! column) as [s|] eqn:Es; [|apply migrated_from_refl].
  split; [reflexivity|]. split; [reflexivity|]. cbn [shadow]. intros g.
  destruct (decide (TargetColumn cfg = g)) as [<-|Hne].
  - right. split.
    + pose proof (selected r Hr E) as Hs. apply sel_in in Hs as [_ Hn].
      unfold is_null in Hn. now destruct (shadow r !! TargetColumn cfg).
    + exists column, cfg, s. rewrite lookup_insert_eq. auto.
  - left. now rewrite lookup_insert_ne.
Qed.

Lemma sources_present_after : sources_present tc after = true.
Proof.
  pose proof Hsrc as H. unfold sources_present in *.
  rewrite forallb_forall in *. intros r' Hr'.
  apply in_map_iff in Hr' as (r & <- & Hr).
  rewrite (proj2 (migrate_row_kept r ids column target)). now apply H.
Qed.

Lemma nulls_after_lt : (0 < length sel)%nat -> (nulls tc after < nulls tc t)%nat.
Proof.
  intros Hpos. unfold nulls. apply list_sum_lt with (x := (column, cfg)).
  - intros y _. apply count_after_le.
  - now apply In_entries.
  - cbn [snd]. pose proof count_after_target. lia.
Qed.

Lemma sel_empty : (1 <= limit)%nat -> length sel = 0%nat -> count_null target t = 0%nat.
Proof. intros Hl He. unfold count_null. rewrite length_take in He. lia. Qed.

Lemma select_consistent : consistent column (selectBatch column target limit t) t.
Proof.
  intros i v Hin. unfold selectBatch in Hin.
  apply in_map_iff in Hin as (r & [= <- <-] & Hr).
  destruct (sel_in r Hr) as [Ht _]. split; [now apply source_present|].
  intros r' Hr' Hid. now rewrite (NoDup_map_inj row_id t r' r Hnd Hr' Ht Hid).
Qed.

Lemma select_ids : map fst (selectBatch column target limit t) = ids.
Proof. unfold selectBatch. rewrite map_map. reflexivity. Qed.

Lemma select_length : length (selectBatch column target limit t) = length sel.
Proof. unfold selectBatch. apply length_map. Qed.

End AfterBatch.

(** ** The job *)

Section Job.
Variables (w : Worker) (be : Backfill.Backend) (tc : TableConfig) (order : nat -> nat).
Hypothesis Hquery : Backfill.query_fails be = false.
Hypothesis Hexec : forall n i, Backfill.exec_fails be n i = false.
Hypothesis Hbatch : 1 <= Backfill.BatchSize (config w).
Hypothesis Hwc : well_configured tc = true.

Local Abbreviation entry k := (first_entry (Columns tc) (order k)).
Local Abbreviation batch e t :=
  (firstn (Z.to_nat (Backfill.BatchSize (config w)))
     (List.filter (is_null (TargetColumn (snd e))) t)).
Local Abbreviation after e t :=
  (map (migrate_row w (fst e) (TargetColumn (snd e)) (map row_id (batch e t))) t).

Lemma entry_ok (o : nat) :
  let e := first_entry (Columns tc) o in
  Columns tc !! fst e = Some (snd e) /\
 String.eqb (fst e) "" = false /\
 String.eqb (TargetColumn (snd e)) "" = false.
Proof.
  intros e. pose proof Hwc as H. unfold well_configured in H.
  assert (Hne : map_to_list (Columns tc) <> []).
  { destruct (map_to_list (Columns tc)); [discriminate | congruence]. }
  assert (Hall : forallb (fun e => negb (String.eqb (fst e) "")
                                   && negb (String.eqb (TargetColumn (snd e)) ""))
                   (map_to_list (Columns tc)) = true).
  { destruct (map_to_list (Columns tc)); [discriminate | exact H]. }
  pose proof (first_entry_configured (Columns tc) o Hne) as Hin. fold e in Hin.
  rewrite forallb_forall in Hall. specialize (Hall e Hin).
  apply andb_true_iff in Hall as [H1 H2].
  apply negb_true_iff in H1, H2. split; [|now split].
  apply In_entries. now destruct e.
Qed.

Lemma processBatch_ok (o : nat) (t : list TableRow) (n : nat) :
  List.NoDup (map row_id t) -> sources_present tc t = true ->
  let e := first_entry (Columns tc) o in
  processBatch w be tc o (mkDB t n)
  = (mkDB (after e t) (n + length (batch e t)), Z.of_nat (length (batch e t)), None).
Proof.
  intros Hnd Hsrc e. destruct (entry_ok o) as (Hcfg & Hc & Ht). fold e in Hcfg, Hc, Ht.
  unfold processBatch. fold e. destruct e as [column cfg]. cbn [fst snd] in *.
  rewrite Hc, Hquery, Ht.
  replace (Backfill.BatchSize (config w) <? 0) with false by (symmetry; apply Z.ltb_ge; lia).
  cbn [orb table].
  rewrite (updateRows_ok w be column (TargetColumn cfg) Hexec).
  - rewrite (select_ids column cfg), (select_length column cfg). reflexivity.
  - now apply (select_consistent tc column cfg).
Qed.

Lemma batchLoop_ok (fuel : nat) :
  forall (k : nat) (p : Backfill.Progress) (t : list TableRow) (n : nat),
    List.NoDup (map row_id t) -> sources_present tc t = true ->
    (nulls tc t < fuel)%nat ->
    exists p' t' n',
      batchLoop fuel w be tc order k p (mkDB t n) = Some (None, p', mkDB t' n') /\
     Backfill.status p' = Backfill.StatusCompleted /\
     Backfill.errors p' = Backfill.errors p /\
     Backfill.totalRows p' = Backfill.totalRows p /\
     Backfill.completedRows p' - Backfill.completedRows p = Z.of_nat n' - Z.of_nat n /\
     Forall2 (migrated_from w tc) t t' /\
     (exists column cfg,
         Columns tc !! column = Some cfg /\ count_null (TargetColumn cfg) t' = 0%nat) /\
     (forall column cfg,
         (forall j, first_entry (Columns tc) (order j) = (column, cfg)) ->
         Backfill.completedRows p'
         = Backfill.completedRows p + Z.of_nat (count_null (TargetColumn cfg) t) /\
        count_null (TargetColumn cfg) t' = 0%nat).
Proof.
  induction fuel as [|fuel IH]; intros k p t n Hnd Hsrc Hfuel; [lia|].
  cbn [batchLoop]. rewrite processBatch_ok by assumption.
  destruct (entry_ok (order k)) as (Hcfg & _ & _).
  pose proof (count_after_target w tc (fst (entry k)) (snd (entry k))
                (Z.to_nat (Backfill.BatchSize (config w))) t Hcfg Hnd Hsrc) as Hcount.
  pose proof (after_migrated w tc (fst (entry k)) (snd (entry k))
                (Z.to_nat (Backfill.BatchSize (config w))) t Hcfg Hnd) as Hmig.
  destruct (Z.of_nat (length (batch (entry k) t)) =? 0) eqn:E.
  - apply Z.eqb_eq in E.
    assert (E' : length (batch (entry k) t) = 0%nat) by lia.
    assert (Hzero : count_null (TargetColumn (snd (entry k))) t = 0%nat)
      by (apply (sel_empty (snd (entry k)) (Z.to_nat (Backfill.BatchSize (config w))));
          [lia | exact E']).
    exists (Backfill.Complete p), (after (entry k) t), (n + length (batch (entry k) t))%nat.
    split; [reflexivity|]. split; [reflexivity|]. split; [reflexivity|].
    split; [reflexivity|]. split; [cbn; lia|]. split; [exact Hmig|]. split.
    + exists (fst (entry k)), (snd (entry k)). split; [exact Hcfg | lia].
    + intros column cfg Hconst. rewrite (Hconst k) in *. cbn [fst snd] in *.
      cbn [Backfill.Complete Backfill.completedRows]. split; lia.
  - apply Z.eqb_neq in E.
    destruct (IH (S k)
                (Backfill.IncrementCompleted p (Z.of_nat (length (batch (entry k) t))))
                (after (entry k) t) (n + length (batch (entry k) t))%nat)
      as (p' & t' & n' & Hrun & Hst & Herr & Htot & Hdone & Hmig' & Hcol & Hconst').
    + rewrite map_map.
      erewrite map_ext; [exact Hnd|]. intros r. apply migrate_row_kept.
    + now apply sources_present_after.
    + pose proof (nulls_after_lt w tc (fst (entry k)) (snd (entry k))
                    (Z.to_nat (Backfill.BatchSize (config w))) t Hcfg Hnd Hsrc). lia.
    + exists p', t', n'. split; [exact Hrun|]. split; [exact Hst|].
      split; [exact Herr|]. split; [exact Htot|].
      cbn [Backfill.IncrementCompleted Backfill.completedRows] in *.
      split; [lia|]. split.
      * eapply Forall2_compose; [apply migrated_from_trans | exact Hmig | exact Hmig'].
      * split; [exact Hcol|]. intros column cfg Hconst.
        destruct (Hconst' column cfg Hconst) as [Hc1 Hc2]. split; [|exact Hc2].
        rewrite (Hconst k) in *. cbn [fst snd] in *. lia.
Qed.

(** X19 (package backfill, [Start] with [processBatch] and
    [countPendingRows], on a table with any number of configured currency
    columns).  When no statement fails, the batch size is at least one, the
    rows have distinct ids and no configured source column holds a NULL,
    the job returns without error whatever entries the [range] loops over
    the column map yield: the progress is completed with no error counted,
    the completed rows are the UPDATE statements issued, every row keeps
    its id and source values, every shadow cell is as it was or was NULL
    and holds the conversion of the row's own source value, and some
    configured column has no NULL shadow cell left.  The total is the count
    for the column the first [range] yielded.  When the loops yield the same
    entry each time, as on a table with one column, the completed rows are
    the total and that column has no NULL shadow cell left. *)
Theorem backfill_completes (fuel : nat) (t : list TableRow) :
  Backfill.count_fails be = false ->
  List.NoDup (map row_id t) ->
  sources_present tc t = true ->
  (nulls tc t < fuel)%nat ->
  exists p t' n',
    Start fuel w be tc order (mkDB t 0) = Some (None, p, mkDB t' n') /\
   Backfill.status p = Backfill.StatusCompleted /\
   Backfill.errors p = 0 /\
   Backfill.completedRows p = Z.of_nat n' /\
   Backfill.totalRows p
    = Z.of_nat (count_null (TargetColumn (snd (first_entry (Columns tc) (order 0)))) t) /\
   Forall2 (migrated_from w tc) t t' /\
   (exists column cfg,
       Columns tc !! column = Some cfg /\ count_null (TargetColumn cfg) t' = 0%nat) /\
   (forall column cfg,
       (forall j, first_entry (Columns tc) (order j) = (column, cfg)) ->
       Backfill.completedRows p = Backfill.totalRows p /\
      count_null (TargetColumn cfg) t' = 0%nat).
Proof.
  intros Hcount Hnd Hsrc Hfuel.
  destruct (entry_ok (order 0)) as (Hcfg & _ & Ht).
  unfold Start, countPendingRows. rewrite Hcount, Ht. cbn [orb table].
  fold (count_null (TargetColumn (snd (entry 0))) t).
  destruct (Z.of_nat (count_null (TargetColumn (snd (entry 0))) t) =? 0) eqn:E.
  - apply Z.eqb_eq in E.
    eexists _, t, 0%nat. split; [reflexivity|]. split; [reflexivity|].
    split; [reflexivity|]. split; [reflexivity|]. split; [reflexivity|].
    split; [apply Forall2_same, migrated_from_refl|]. split.
    + exists (fst (entry 0)), (snd (entry 0)). split; [exact Hcfg | lia].
    + intros column cfg Hconst. rewrite (Hconst 0%nat) in *. cbn [fst snd] in *.
      cbn. split; lia.
  - destruct (batchLoop_ok fuel 1
                (Backfill.SetTotal (Backfill.ProgressStart Backfill.NewProgress)
                   (Z.of_nat (count_null (TargetColumn (snd (entry 0))) t)))
                t 0%nat Hnd Hsrc Hfuel)
      as (p' & t' & n' & Hrun & Hst & Herr & Htot & Hdone & Hmig & Hcol & Hconst').
    exists p', t', n'. split; [exact Hrun|]. split; [exact Hst|].
    split; [exact Herr|]. cbn in Hdone, Htot. split; [lia|]. split; [exact Htot|].
    split; [exact Hmig|]. split; [exact Hcol|].
    intros column cfg Hconst. destruct (Hconst' column cfg Hconst) as [Hc1 Hc2].
    split; [|exact Hc2]. rewrite Htot, Hc1. rewrite (Hconst 0%nat). cbn. lia.
Qed.

End Job.

Lemma backfill_completes_witness :
  exists p t' n',
    Start 7 demo_worker no_failure (Scenario.orders 4) (fun k => k) (mkDB orders_rows 0)
    = Some (None, p, mkDB t' n') /\
    Backfill.status p = Backfill.StatusCompleted /\
    Backfill.errors p = 0 /\
    Backfill.completedRows p = Z.of_nat n' /\
    Backfill.totalRows p
    = Z.of_nat (count_null
                  (TargetColumn (snd (first_entry (Columns (Scenario.orders 4)) 0)))
                  orders_rows) /\
    Forall2 (migrated_from demo_worker (Scenario.orders 4)) orders_rows t' /\
    (exists column cfg,
       Columns (Scenario.orders 4) !! column = Some cfg /\
       count_null (TargetColumn cfg) t' = 0%nat) /\
    (forall column cfg,
       (forall j : nat, first_entry (Columns (Scenario.orders 4)) j = (column, cfg)) ->
       Backfill.completedRows p = Backfill.totalRows p /\
       count_null (TargetColumn cfg) t' = 0%nat).
Proof.
  apply (backfill_completes demo_worker no_failure (Scenario.orders 4) (fun k => k)).
  - reflexivity.
  - intros n i. reflexivity.
  - cbn. lia.
  - vm_compute. reflexivity.
  - reflexivity.
  - cbn. repeat constructor; cbn; intuition lia.
  - vm_compute. reflexivity.
  - vm_compute. lia.
Defined.

(** On the table [orders] with its two configured columns the outcome
    depends on the entries the [range] loops yield.  When they alternate,
    both columns are migrated and the progress reports six completed rows
    of a total of three.  When the count takes [shipping_fee] and every
    batch [total_amount], the job completes with three of three rows while
    no [shipping_fee_idn] was written. *)
Example orders_job_depends_on_range :
  let summary order :=
    match Start 7 demo_worker no_failure (Scenario.orders 4) order (mkDB orders_rows 0) with
    | Some (e, p, db) =>
        Some (e, p, execs db, count_null "total_amount_idn" (table db),
              count_null "shipping_fee_idn" (table db))
    | None => None
    end in
  map fst (map_to_list (Columns (Scenario.orders 4))) = ["shipping_fee"; "total_amount"] /\
  summary (fun k => k)
  = Some (None, Backfill.mkProgress 3 6 0 Backfill.StatusCompleted, 6%nat, 0%nat, 0%nat) /\
  summary (fun k => Nat.min k 1)
  = Some (None, Backfill.mkProgress 3 3 0 Backfill.StatusCompleted, 3%nat, 0%nat, 3%nat).
Proof. vm_compute. repeat split; reflexivity. Qed.

End BackfillTableFacts.

(* ===================================================================== *)
(** * Theorems: which statements are rewritten                            *)
(* ===================================================================== *)

Module AnalysisFacts.
Import Float64 Sqlparser Config Parser Session Written.
Local Open Scope string_scope.
Local Open Scope Z_scope.

Lemma analyzeSet_spec (tc : TableConfig) (exprs : list UpdateExpr) :
  forall pq,
    let pq' := analyzeSet tc exprs pq in
    CurrencyColumns pq'
      = (CurrencyColumns pq ++ configured tc (map Name exprs))%list /\
    NeedsTransform pq'
      = NeedsTransform pq || nonempty (configured tc (map Name exprs)) /\
    TableName pq' = TableName pq /\
    Original pq' = Original pq /\ Statement_ pq' = Statement_ pq.
Proof.
  induction exprs as [|e exprs IH]; intros pq.
  - cbn. rewrite app_nil_r, orb_false_r. auto.
  - cbn [analyzeSet map]. unfold configured in *. cbn [List.filter].
    destruct (Config.Columns tc !! Name e) as [cc|] eqn:E.
    + rewrite bool_decide_true by (now exists cc).
      destruct (IH (mkParsedQuery (Original pq) (Type_ pq) (Statement_ pq)
                      (TableName pq) (CurrencyColumns pq ++ [Name e])
                      (<[Name e := extractValue (Expr_ e)]> (Values_ pq)) true))
        as (H1 & H2 & H3 & H4 & H5).
      cbn [CurrencyColumns NeedsTransform TableName Original Statement_] in *.
      rewrite H1, H2, H3, H4, H5, <- app_assoc. cbn [app nonempty orb].
      rewrite orb_true_r. auto.
    + rewrite bool_decide_false by (intros [x Hx]; discriminate).
      apply IH.
Qed.

Lemma nonempty_true {A : Type} (l : list A) : nonempty l = true <-> l <> [].
Proof. destruct l; cbn; split; congruence. Qed.

Lemma Parse_currency (tables : gmap string TableConfig) (query : string)
  (stmt : Statement) (pq : ParsedQuery) :
  Parse tables query (Some stmt) = Some pq ->
  CurrencyColumns pq = written_columns tables stmt /\
  NeedsTransform pq = nonempty (written_columns tables stmt) /\
  Original pq = query /\ Statement_ pq = stmt.
Proof.
  unfold Parse. intros [= <-].
  destruct stmt as [from|i|u|ts|]; cbn [written_columns]; try (cbn; auto; fail).
  - unfold analyzeInsert. cbn [Original Type_ Statement_ CurrencyColumns Values_ NeedsTransform].
    destruct (tables !! Table i) as [tc|]; [|cbn; auto].
    destruct (Enabled tc); cbn [negb]; [|cbn; auto].
    cbn [CurrencyColumns NeedsTransform Original Statement_ app].
    fold (configured tc (Sqlparser.Columns i)).
    destruct (configured tc (Sqlparser.Columns i)); cbn; auto.
  - unfold analyzeUpdate.
    assert (Hname :
      TableName
        match TableExprs u with
        | AliasedTableName name _ :: _ =>
            mkParsedQuery query QueryTypeUpdate (StmtUpdate u) name [] ∅ false
        | _ => mkParsedQuery query QueryTypeUpdate (StmtUpdate u) "" [] ∅ false
        end = firstTableName (TableExprs u)).
    { destruct (TableExprs u) as [|[name al|text] rest]; reflexivity. }
    cbn [Original Type_ Statement_ CurrencyColumns Values_ NeedsTransform TableName].
    set (pq0 := match TableExprs u with
                | AliasedTableName name _ :: _ => _
                | _ => _
                end) in *.
    assert (H0 : CurrencyColumns pq0 = [] /\ NeedsTransform pq0 = false /\
                 Original pq0 = query /\ Statement_ pq0 = StmtUpdate u).
    { unfold pq0. destruct (TableExprs u) as [|[name al|text] rest]; cbn; auto. }
    destruct H0 as (Hc0 & Hn0 & Ho0 & Hs0).
    rewrite Hname.
    destruct (tables !! firstTableName (TableExprs u)) as [tc|]; [|cbn; auto].
    destruct (Enabled tc); cbn [negb]; [|cbn; auto].
    destruct (analyzeSet_spec tc (Exprs u) pq0) as (H1 & H2 & _ & H4 & H5).
    rewrite H1, H2, H4, H5, Hc0, Hn0. cbn [app orb]. auto.
Qed.

(** X22.  The currency columns of a parsed statement are exactly the
    columns it names that the configuration of its table lists, in the
    order of the statement, when the table is configured and enabled, and
    none otherwise (a SELECT, a DELETE or another statement has none); the
    statement is marked for transformation exactly when there is one. *)
Theorem currency_columns_of_parse (tables : gmap string TableConfig)
  (query : string) (stmt : Statement) (pq : ParsedQuery) :
  Parse tables query (Some stmt) = Some pq ->
  CurrencyColumns pq = written_columns tables stmt /\
  (NeedsTransform pq = true <-> CurrencyColumns pq <> []).
Proof.
  intros H. destruct (Parse_currency tables query stmt pq H) as (H1 & H2 & _).
  split; [exact H1|]. rewrite H1, H2. apply nonempty_true.
Qed.

(** X23.  A statement that names no configured currency column of an
    enabled table is forwarded as it came: [handleQuery] sends the
    original text of a query that does not parse, of a SELECT, a DELETE or
    another statement, and of an INSERT or UPDATE whose table is not
    configured, is disabled, or configures none of the columns named. *)
Theorem untouched_query_is_forwarded (cfg : Config) (inTx : bool) (query : string)
  (parsed : option Statement) :
  (forall stmt, parsed = Some stmt -> written_columns (Tables cfg) stmt = []) ->
  handleQuery cfg inTx query parsed = (trackTransaction inTx query, query).
Proof.
  intros H. unfold handleQuery.
  destruct parsed as [stmt|]; [|reflexivity].
  destruct (Parse (Tables cfg) query (Some stmt)) as [pq|] eqn:E; [|reflexivity].
  destruct (Parse_currency _ _ _ _ E) as (_ & H2 & _).
  rewrite H2, (H stmt eq_refl). reflexivity.
Qed.

Lemma length_omap_le {A B : Type} (f : A -> option B) (l : list A) :
  (length (omap f l) <= length l)%nat.
Proof.
  induction l as [|a l IH]; [reflexivity|].
  cbn. destruct (f a); cbn; lia.
Qed.

Lemma length_omap_eq {A B : Type} (f : A -> option B) (l : list A) :
  length (omap f l) = length l <-> Forall (fun a => is_Some (f a)) l.
Proof.
  induction l as [|a l IH]; [cbn; split; [constructor | reflexivity]|].
  pose proof (length_omap_le f l) as Hle.
  cbn [omap list_omap length]. destruct (f a) as [b|] eqn:E; cbn [length].
  - split.
    + intros H. constructor; [rewrite E; now exists b | apply IH; lia].
    + intros H. apply Forall_cons in H as [_ H]. apply IH in H. lia.
  - split; [lia|]. intros H. apply Forall_cons in H as [[x Hx] _].
    rewrite E in Hx. discriminate.
Qed.

Lemma configured_Forall (tc : TableConfig) (names : list string) :
  Forall (fun col => is_Some (Config.Columns tc !! col)) (configured tc names).
Proof.
  unfold configured. apply List.Forall_forall. intros col Hin.
  apply filter_In in Hin as [_ H]. now apply bool_decide_eq_true in H.
Qed.

(** The rows of a rewritten INSERT against its column list. *)
Lemma insert_aligned_iff (tables : gmap string TableConfig) (query : string)
  (i : Insert) (pq : ParsedQuery) (tc : TableConfig)
  (convertedValues : gmap string float64) (row : list Expr) (rows : list (list Expr)) :
  Parse tables query (Some (StmtInsert i)) = Some pq ->
  tables !! Table i = Some tc ->
  Enabled tc = true ->
  Rows i = Values (row :: rows) ->
  Forall (fun r => length r = length (Sqlparser.Columns i)) (row :: rows) ->
  let i' := rewriteInsert_stmt i pq tc convertedValues in
  length (Sqlparser.Columns i')
    = (length (Sqlparser.Columns i) + length (CurrencyColumns pq))%nat /\
  (exists rows',
      Rows i' = Values rows' /\ length rows' = length (row :: rows) /\
      (Forall (fun r => length r = length (Sqlparser.Columns i')) rows' <->
       Forall (fun col => is_Some (convertedValues !! col)) (CurrencyColumns pq))).
Proof.
  intros HP Htc Hen Hrows Hal i'.
  destruct (Parse_currency _ _ _ _ HP) as (Hcc & _).
  cbn [written_columns] in Hcc. rewrite Htc, Hen in Hcc.
  assert (Hsc : length (shadowColumns tc (CurrencyColumns pq))
                = length (CurrencyColumns pq)).
  { unfold shadowColumns. apply length_omap_eq. rewrite Hcc.
    eapply Forall_impl; [apply configured_Forall|].
    intros col [cc Hcc']. cbn. rewrite Hcc'. now eexists. }
  unfold i', rewriteInsert_stmt. cbn [Sqlparser.Columns Rows]. rewrite Hrows.
  rewrite length_app, Hsc. split; [reflexivity|].
  eexists. split; [reflexivity|]. split; [now rewrite length_map|].
  set (sv := shadowValues (CurrencyColumns pq) convertedValues).
  assert (Hsv : length sv = length (CurrencyColumns pq) <->
                Forall (fun col => is_Some (convertedValues !! col)) (CurrencyColumns pq)).
  { unfold sv, shadowValues. rewrite length_omap_eq.
    split; intros HF; (eapply Forall_impl; [exact HF|]); intros col [x Hx]; cbn in *.
    - destruct (convertedValues !! col); [now eexists | discriminate].
    - rewrite Hx. now eexists. }
  rewrite <- Hsv. rewrite Forall_map.
  split.
  - intros H. apply Forall_cons in H as [H _]. cbn in H.
    apply Forall_cons in Hal as [Hr _].
    rewrite length_app in H. lia.
  - intros H. eapply Forall_impl; [exact Hal|].
    intros r Hr. cbv beta in Hr. rewrite length_app. lia.
Qed.

(** X24.  A rewritten INSERT keeps its rows aligned with its column list
    exactly when every currency column has a converted value: for an
    INSERT that is rewritten, with at least one row and every row as long
    as the column list, the new column list has one more column per
    currency column, every new row one more value per currency column
    that has a converted value, so every new row is as long as the new
    column list if and only if no currency column lacks its value. *)
Theorem rewritten_insert_aligned (tables : gmap string TableConfig) (query : string)
  (i : Insert) (pq : ParsedQuery) (tc : TableConfig)
  (convertedValues : gmap string float64) (row : list Expr) (rows : list (list Expr)) :
  Parse tables query (Some (StmtInsert i)) = Some pq ->
  tables !! Table i = Some tc ->
  Enabled tc = true ->
  Rows i = Values (row :: rows) ->
  Forall (fun r => length r = length (Sqlparser.Columns i)) (row :: rows) ->
  let i' := rewriteInsert_stmt i pq tc convertedValues in
  length (Sqlparser.Columns i')
    = (length (Sqlparser.Columns i) + length (CurrencyColumns pq))%nat /\
  (exists rows',
      Rows i' = Values rows' /\ length rows' = length (row :: rows) /\
      (Forall (fun r => length r = length (Sqlparser.Columns i')) rows' <->
       Forall (fun col => is_Some (convertedValues !! col)) (CurrencyColumns pq))).
Proof.
  intros HP Htc Hen Hrows Hal.
  now apply (insert_aligned_iff tables query i pq tc convertedValues row rows).
Qed.

Lemma currency_columns_of_parse_witness :
  let i := mkInsert "insert" "" "orders" ["customer_id"; "total_amount"; "shipping_fee"]
             (Values [[Scenario.int "123"; Scenario.int "500000"; Scenario.int "25000"]]) [] in
  let tables := Tables (Scenario.cfg 4) in
  let pq := analyzeInsert tables i
              (mkParsedQuery Scenario.s1_query QueryTypeInsert (StmtInsert i) "" [] ∅ false) in
  CurrencyColumns pq = written_columns tables (StmtInsert i) /\
  (NeedsTransform pq = true <-> CurrencyColumns pq <> []).
Proof.
  apply (currency_columns_of_parse (Tables (Scenario.cfg 4)) Scenario.s1_query).
  reflexivity.
Defined.

Lemma untouched_query_is_forwarded_witness :
  handleQuery (Scenario.cfg 4) false "SELECT id FROM orders"
    (Some (StmtSelect [AliasedTableName "orders" ""]))
  = (trackTransaction false "SELECT id FROM orders", "SELECT id FROM orders").
Proof.
  apply (untouched_query_is_forwarded (Scenario.cfg 4) false "SELECT id FROM orders"
           (Some (StmtSelect [AliasedTableName "orders" ""]))).
  intros stmt [= <-]. reflexivity.
Defined.

Lemma rewritten_insert_aligned_witness :
  let i := mkInsert "insert" "" "orders" ["customer_id"; "total_amount"]
             (Values [[Scenario.int "1"; NullVal]]) [] in
  let tables := Tables (Scenario.cfg 4) in
  let pq := analyzeInsert tables i
              (mkParsedQuery Scenario.s5_query QueryTypeInsert (StmtInsert i) "" [] ∅ false) in
  let i' := rewriteInsert_stmt i pq (Scenario.orders 4) ∅ in
  length (Sqlparser.Columns i')
    = (length (Sqlparser.Columns i) + length (CurrencyColumns pq))%nat /\
  (exists rows',
      Rows i' = Values rows' /\ length rows' = 1%nat /\
      (Forall (fun r => length r = length (Sqlparser.Columns i')) rows' <->
       Forall (fun col => is_Some ((∅ : gmap string float64) !! col))
         (CurrencyColumns pq))).
Proof.
  apply (rewritten_insert_aligned (Tables (Scenario.cfg 4)) Scenario.s5_query
           (mkInsert "insert" "" "orders" ["customer_id"; "total_amount"]
              (Values [[Scenario.int "1"; NullVal]]) [])
           _ (Scenario.orders 4) ∅ [Scenario.int "1"; NullVal] []);
    try reflexivity.
  repeat constructor.
Defined.

End AnalysisFacts.

(* ===================================================================== *)
(** * Theorems: the orchestrator                                          *)
(* ===================================================================== *)

Module OrchestratorFacts.
Import Float64 Rounding Sqlparser Config Parser Written Orchestrator.
Local Open Scope string_scope.
Local Open Scope Z_scope.

Lemma convertLoop_spec (engine : Engine) (ratio : Z) (values : gmap string GoValue)
  (columns : list string) :
  forall converted,
    match convertLoop engine ratio values columns converted with
    | inr cv =>
        Forall (fun col => ~ bad_value values col) columns /\
        Forall (fun col => is_Some (values !! col) -> is_Some (cv !! col)) columns /\
        (forall col, is_Some (converted !! col) -> is_Some (cv !! col))
    | inl _ => Exists (bad_value values) columns
    end.
Proof.
  induction columns as [|c columns IH]; intros converted.
  - cbn. repeat split; [constructor | constructor | auto].
  - cbn [convertLoop].
    destruct (values !! c) as [[v|b|]|] eqn:E.
    + destruct (ParseInt v) as [n|] eqn:EP.
      * specialize (IH (<[c := ConvertIDRtoIDN engine n ratio]> converted)).
        destruct (convertLoop _ _ _ columns _) as [e|cv].
        { now apply Exists_cons_tl. }
        destruct IH as (H1 & H2 & H3). repeat split.
        -- constructor; [|exact H1].
           intros (v' & Hv & Hbad). rewrite E in Hv. injection Hv as <-.
           cbn in Hbad. congruence.
        -- constructor; [|exact H2]. intros _. apply H3.
           rewrite lookup_insert_eq. now eexists.
        -- intros col Hc. apply H3.
           destruct (decide (c = col)) as [->|Hne];
             [rewrite lookup_insert_eq; now eexists | now rewrite lookup_insert_ne].
      * apply Exists_cons_hd. exists (VString v). now split.
    + apply Exists_cons_hd. exists (VBool b). now split.
    + apply Exists_cons_hd. exists VNil. now split.
    + specialize (IH converted).
      destruct (convertLoop _ _ _ columns _) as [e|cv].
      { now apply Exists_cons_tl. }
      destruct IH as (H1 & H2 & H3). repeat split.
      * constructor; [|exact H1]. intros (v' & Hv & _). congruence.
      * constructor; [|exact H2]. intros [x Hx]. congruence.
      * exact H3.
Qed.

Lemma zipValues_keeps (columns : list string) :
  forall (row : list Expr) (values : gmap string GoValue) (col : string),
    is_Some (values !! col) -> is_Some (zipValues columns row values !! col).
Proof.
  induction columns as [|c columns IH]; intros row values col H;
    destruct row as [|val row]; cbn [zipValues]; try exact H.
  apply IH. destruct (decide (c = col)) as [->|Hne];
    [rewrite lookup_insert_eq; now eexists | now rewrite lookup_insert_ne].
Qed.

Lemma zipValues_covers (columns : list string) :
  forall (row : list Expr) (values : gmap string GoValue),
    length row = length columns ->
    Forall (fun col => is_Some (zipValues columns row values !! col)) columns.
Proof.
  induction columns as [|c columns IH]; intros row values Hlen; [constructor|].
  destruct row as [|val row]; [discriminate|]. cbn [zipValues].
  constructor.
  - apply zipValues_keeps. rewrite lookup_insert_eq. now eexists.
  - apply IH. cbn in Hlen. lia.
Qed.

(** X25.  The orchestrator fails closed: [InterceptAndRewrite] returns
    an error, and no statement to execute, exactly when a currency column
    of the statement has a recorded value that is not the text of an
    integer in the range of [int64] (NULL, a boolean, a decimal, a quoted
    word, an expression). *)
Theorem orchestrator_fails_closed (cfg : Config) (query : string) (stmt : Statement)
  (pq : ParsedQuery) :
  Parse (Tables cfg) query (Some stmt) = Some pq ->
  (exists e, InterceptAndRewrite cfg query (Some stmt) = inl e) <->
  Exists (bad_value (Values_ pq)) (CurrencyColumns pq).
Proof.
  intros HP. unfold InterceptAndRewrite. rewrite HP.
  destruct (AnalysisFacts.Parse_currency _ _ _ _ HP) as (Hcc & Hnt & _).
  destruct (NeedsTransform pq) eqn:En; cbn [negb].
  - unfold convertCurrencyValues.
    pose proof (convertLoop_spec (engine_of cfg) (Ratio (Conversion cfg))
                  (Values_ pq) (CurrencyColumns pq) ∅) as H.
    destruct (convertLoop _ _ _ _ _) as [e|cv].
    + split; [intros _; exact H | intros _; now exists e].
    + destruct H as (H1 & _). split; [intros [e He]; discriminate|].
      intros Hex. apply Exists_exists in Hex as (col & Hin & Hbad).
      rewrite Forall_forall in H1. now destruct (H1 col Hin).
  - assert (Hnil : CurrencyColumns pq = []).
    { rewrite Hcc. destruct (written_columns (Tables cfg) stmt); [reflexivity|].
      cbn in Hnt. congruence. }
    rewrite Hnil. split; [intros [e He]; discriminate | intros Hex; inversion Hex].
Qed.

(** X26.  An INSERT that the orchestrator rewrites stays aligned: when
    [InterceptAndRewrite] succeeds on an INSERT that names a configured
    currency column, with at least one row and every row as long as the
    column list, the statement it returns is the print of an INSERT with
    one more column per currency column and every row as long as the new
    column list. *)
Theorem orchestrator_insert_aligned (cfg : Config) (query : string) (i : Insert)
  (row : list Expr) (rows : list (list Expr)) (q : string) :
  InterceptAndRewrite cfg query (Some (StmtInsert i)) = inr q ->
  written_columns (Tables cfg) (StmtInsert i) <> [] ->
  Rows i = Values (row :: rows) ->
  Forall (fun r => length r = length (Sqlparser.Columns i)) (row :: rows) ->
  exists i' rows',
    q = String_Insert i' /\
    length (Sqlparser.Columns i')
      = (length (Sqlparser.Columns i)
         + length (written_columns (Tables cfg) (StmtInsert i)))%nat /\
    Rows i' = Values rows' /\ length rows' = length (row :: rows) /\
    Forall (fun r => length r = length (Sqlparser.Columns i')) rows'.
Proof.
  intros HI Hw Hrows Hal.
  unfold InterceptAndRewrite in HI.
  destruct (Parse (Tables cfg) query (Some (StmtInsert i))) as [pq|] eqn:HP;
    [|discriminate].
  destruct (AnalysisFacts.Parse_currency _ _ _ _ HP) as (Hcc & Hnt & _ & Hst).
  assert (Hne : nonempty (written_columns (Tables cfg) (StmtInsert i)) = true)
    by now apply AnalysisFacts.nonempty_true.
  rewrite Hnt, Hne in HI. cbn [negb] in HI.
  cbn [written_columns] in Hw, Hcc.
  destruct (Tables cfg !! Table i) as [tc|] eqn:Htc; [|congruence].
  destruct (Enabled tc) eqn:Hen; [|congruence].
  assert (Hvals : Forall (fun col => is_Some (Values_ pq !! col)) (CurrencyColumns pq)).
  { assert (Hv : Values_ pq = zipValues (Sqlparser.Columns i) row ∅).
    { revert HP. unfold Parse, analyzeInsert. rewrite Htc, Hen, Hrows. cbn [negb].
      intros [= <-]. cbn [Values_].
      destruct (Sqlparser.Columns i) as [|c cs] eqn:Ec; [|reflexivity].
      destruct row; reflexivity. }
    rewrite Hv, Hcc. apply Forall_cons in Hal as [Hr _].
    pose proof (zipValues_covers (Sqlparser.Columns i) row ∅ Hr) as Hcov.
    rewrite List.Forall_forall in *. intros col Hin. apply Hcov.
    unfold configured in Hin. apply filter_In in Hin. tauto. }
  unfold convertCurrencyValues in HI.
  pose proof (convertLoop_spec (engine_of cfg) (Ratio (Conversion cfg))
                (Values_ pq) (CurrencyColumns pq) ∅) as Hloop.
  destruct (convertLoop _ _ _ _ _) as [e|cv]; [discriminate|].
  destruct Hloop as (_ & Hsome & _).
  injection HI as <-.
  assert (Hall : Forall (fun col => is_Some (cv !! col)) (CurrencyColumns pq)).
  { rewrite List.Forall_forall in *. intros col Hin. now apply Hsome, Hvals. }
  destruct (AnalysisFacts.insert_aligned_iff (Tables cfg) query i pq tc cv row rows
              HP Htc Hen Hrows Hal) as (Hlen & rows' & Hr' & Hn' & Hiff).
  exists (rewriteInsert_stmt i pq tc cv), rows'.
  split.
  - unfold RewriteForDualWrite. rewrite Hnt, Hne, Hst. cbn [negb].
    assert (Htn : TableName pq = Table i).
    { revert HP. unfold Parse, analyzeInsert. rewrite Htc, Hen. cbn [negb].
      now intros [= <-]. }
    rewrite Htn, Htc. reflexivity.
  - rewrite Hcc in Hlen. cbn [written_columns]. rewrite Htc, Hen.
    split; [exact Hlen|]. split; [exact Hr'|].
    split; [exact Hn'|]. now apply Hiff.
Qed.

Lemma orchestrator_fails_closed_witness :
  let i := mkInsert "insert" "" "orders" ["customer_id"; "total_amount"]
             (Values [[Scenario.int "1"; NullVal]]) [] in
  let pq := analyzeInsert (Tables (Scenario.cfg 4)) i
              (mkParsedQuery Scenario.s5_query QueryTypeInsert (StmtInsert i) "" [] ∅ false) in
  (exists e, InterceptAndRewrite (Scenario.cfg 4) Scenario.s5_query (Some (StmtInsert i))
             = inl e) <->
  Exists (bad_value (Values_ pq)) (CurrencyColumns pq).
Proof.
  apply (orchestrator_fails_closed (Scenario.cfg 4) Scenario.s5_query).
  reflexivity.
Defined.

Lemma orchestrator_insert_aligned_witness :
  exists i' rows',
    "insert into orders(customer_id, total_amount, shipping_fee, total_amount_idn, shipping_fee_idn) values (123, 500000, 25000, 500.0000, 25.0000)"
      = String_Insert i' /\
    length (Sqlparser.Columns i')
      = (3 + length (written_columns (Tables (Scenario.cfg 4)) Scenario.s1_stmt))%nat /\
    Rows i' = Values rows' /\ length rows' = 1%nat /\
    Forall (fun r => length r = length (Sqlparser.Columns i')) rows'.
Proof.
  apply (orchestrator_insert_aligned (Scenario.cfg 4) Scenario.s1_query
           (mkInsert "insert" "" "orders" ["customer_id"; "total_amount"; "shipping_fee"]
              (Values [[Scenario.int "123"; Scenario.int "500000"; Scenario.int "25000"]]) [])
           [Scenario.int "123"; Scenario.int "500000"; Scenario.int "25000"] []).
  - vm_compute. reflexivity.
  - vm_compute. discriminate.
  - reflexivity.
  - repeat constructor.
Defined.

End OrchestratorFacts.

(* ===================================================================== *)
(** * Theorems: arithmetic rounding and truncation                        *)
(* ===================================================================== *)

Module RoundingModesFacts.
Import Float64 Rounding RoundingModes.

Lemma check_modes_spec (f : Z -> Z -> Z -> bool) (bound : Z) :
  check_modes f bound = true ->
  forall s r p,
    - bound <= s <= bound -> In r ratios -> 0 <= p <= 10 -> f s r p = true.
Proof.
  intros H s r p Hs Hr Hp.
  unfold check_modes in H. rewrite forallb_forall in H.
  specialize (H r Hr).
  pose proof (RoundingFacts.forall_from_spec _ _ _ H p ltac:(lia)) as H1.
  cbn beta in H1.
  apply (RoundingFacts.forall_from_spec _ _ _ H1 s). lia.
Qed.

Lemma arithmetic_box : check_modes agrees_arithmetic modes_bound = true.
Proof. vm_compute. reflexivity. Qed.

Lemma truncation_box : check_modes truncates_within_one modes_bound = true.
Proof. vm_compute. reflexivity. Qed.

(** X27.  Arithmetic rounding on small amounts: for every source value
    [s] with [|s| <= 100], every ratio in {10, 100, 1000, 10000} and
    every precision in [0, 10], the conversion with mode ArithmeticRound
    returns the binary64 nearest to [s / r] rounded to [p] fractional
    digits, halves away from zero. *)
Theorem arithmetic_nearest_binary64 (s r p : Z) :
  - modes_bound <= s <= modes_bound ->
  In r ratios ->
  0 <= p <= 10 ->
  feq (ConvertIDRtoIDN (NewEngine ArithmeticRound p) s r) (spec_arithmetic_f64 s r p)
  = true.
Proof.
  intros Hs Hr Hp.
  apply (check_modes_spec agrees_arithmetic modes_bound arithmetic_box s r p Hs Hr Hp).
Qed.

Lemma arithmetic_nearest_binary64_witness :
  feq (ConvertIDRtoIDN (NewEngine ArithmeticRound 0) (-25) 10)
      (spec_arithmetic_f64 (-25) 10 0) = true.
Proof.
  apply (arithmetic_nearest_binary64 (-25) 10 0).
  - unfold modes_bound. lia.
  - unfold ratios. simpl. auto.
  - lia.
Defined.

(** X28.  The mode NoRound does not always truncate the decimal value:
    for [|s| <= 100], the ratios and the precisions above, the conversion
    returns the binary64 nearest to [s / r] cut after [p] fractional
    digits or to the value one unit of the last digit nearer to zero, and
    the second case occurs: 23 / 10 at precision 2 gives 2.29, not 2.3
    (the binary64 product 2.3 * 100 is below 230). *)
Theorem no_round_within_one_unit (s r p : Z) :
  - modes_bound <= s <= modes_bound ->
  In r ratios ->
  0 <= p <= 10 ->
  truncates_within_one s r p = true /\
  ConvertIDRtoIDN (NewEngine NoRound 2) 23 10 = of_ratio 229 100 /\
  truncated_units 23 10 2 = 230.
Proof.
  intros Hs Hr Hp. split.
  - apply (check_modes_spec truncates_within_one modes_bound truncation_box s r p Hs Hr Hp).
  - vm_compute. split; reflexivity.
Qed.

Lemma no_round_within_one_unit_witness :
  truncates_within_one 23 10 2 = true /\
  ConvertIDRtoIDN (NewEngine NoRound 2) 23 10 = of_ratio 229 100 /\
  truncated_units 23 10 2 = 230.
Proof.
  apply (no_round_within_one_unit 23 10 2).
  - unfold modes_bound. lia.
  - unfold ratios. simpl. auto.
  - lia.
Defined.

End RoundingModesFacts.

(* ===================================================================== *)
(** * Theorems: read routing                                              *)
(* ===================================================================== *)

Module ReplicaFacts.
Import Wire Replica.
Local Open Scope string_scope.
Local Open Scope Z_scope.

Lemma healthy_from_combine (status : list bool) :
  forall replicas,
    length status = length replicas ->
    healthy_from status replicas
    = Some (map fst (List.filter snd (combine replicas status))).
Proof.
  induction status as [|b status IH]; intros [|x replicas] Hlen;
    try discriminate; [reflexivity|].
  cbn [healthy_from combine List.filter snd].
  rewrite IH by (cbn in Hlen; lia). cbn [mbind option_bind].
  now destruct b.
Qed.

Lemma GetHealthyReplicas_ok (r : Router) :
  well_formed r ->
  GetHealthyReplicas (healthChecker r) = Some (healthy_replicas r).
Proof.
  intros (Hr & Hl & _). unfold GetHealthyReplicas, healthy_replicas.
  rewrite Hr. now apply healthy_from_combine.
Qed.

Lemma nth_error_is_lookup {A : Type} (l : list A) (n : nat) : nth_error l n = l !! n.
Proof. revert n. induction l as [|a l IH]; intros [|n]; cbn; auto. Qed.

Lemma at_index_rem (l : list DB) (i : Z) :
  0 <= i -> l <> [] ->
  exists x, at_index l (Z.rem i (Z.of_nat (length l))) = Some x /\
            l !! Z.to_nat (i mod Z.of_nat (length l)) = Some x.
Proof.
  intros Hi Hl.
  assert (Hlen : 0 < Z.of_nat (length l)) by (destruct l; [congruence | cbn; lia]).
  rewrite Z.rem_mod_nonneg by lia.
  pose proof (Z.mod_pos_bound i (Z.of_nat (length l)) Hlen) as Hb.
  unfold at_index.
  replace (0 <=? i mod Z.of_nat (length l)) with true by (symmetry; apply Z.leb_le; lia).
  destruct (nth_error l (Z.to_nat (i mod Z.of_nat (length l)))) as [x|] eqn:E.
  - exists x. split; [reflexivity|]. now rewrite <- nth_error_is_lookup.
  - apply nth_error_None in E. lia.
Qed.

Lemma healthy_is_status_true (r : Router) (db : DB) :
  In db (healthy_replicas r) ->
  In (db, true) (combine (replicas r) (healthStatus (healthChecker r))).
Proof.
  unfold healthy_replicas. intros H. apply in_map_iff in H as ([x b] & <- & Hin).
  apply filter_In in Hin as [Hin Hb]. cbn in Hb. now subst b.
Qed.

(** A new router is well formed, and a round of health checks keeps it so. *)
Lemma NewRouter_well_formed (p : DB) (rs : list DB) (st : string) :
  well_formed (NewRouter p rs st).
Proof.
  unfold well_formed, NewRouter. cbn. rewrite length_map. repeat split; lia.
Qed.

Lemma checkAllReplicas_well_formed (r : Router) (ping : DB -> bool) :
  well_formed r ->
  well_formed (mkRouter (primary r) (replicas r) (replicaIndex r) (strategy r)
                 (checkAllReplicas (healthChecker r) ping)).
Proof.
  intros (Hr & Hl & Hi). unfold well_formed, checkAllReplicas. cbn.
  rewrite length_map, Hr. repeat split; lia.
Qed.

Lemma getReadConnection_unfold (r : Router) (now : Z) :
  well_formed r ->
  getReadConnection r now =
    match healthy_replicas r with
    | [] => Ok (r, primary r)
    | _ =>
        let len := Z.of_nat (length (healthy_replicas r)) in
        if String.eqb (strategy r) "RANDOM" then
          got replica <- at_index (healthy_replicas r) (Z.rem now len);
          Ok (r, replica)
        else
          got replica <- at_index (healthy_replicas r) (Z.rem (replicaIndex r) len);
          Ok (mkRouter (primary r) (replicas r) (wrap_int (replicaIndex r + 1))
                (strategy r) (healthChecker r),
              replica)
    end.
Proof.
  intros Hwf. unfold getReadConnection.
  rewrite (GetHealthyReplicas_ok r Hwf). cbn [get].
  destruct (replicas r) as [|x xs] eqn:Er.
  - unfold healthy_replicas. rewrite Er. reflexivity.
  - destruct (healthy_replicas r); reflexivity.
Qed.

(** X29.  Reads never go to a replica whose last check failed: on a
    well-formed router (with a strategy other than RANDOM, or a clock
    reading that is not negative) [getReadConnection] returns without
    panic, the primary when no replica is configured or none is healthy,
    and otherwise one of the replicas whose last health check succeeded. *)
Theorem reads_avoid_unhealthy (r : Router) (now : Z) :
  well_formed r ->
  (strategy r = "RANDOM" -> 0 <= now) ->
  exists r' db,
    getReadConnection r now = Ok (r', db) /\
    (if Written.nonempty (healthy_replicas r)
     then In (db, true) (combine (replicas r) (healthStatus (healthChecker r)))
     else db = primary r).
Proof.
  intros Hwf Hnow. rewrite (getReadConnection_unfold r now Hwf).
  destruct Hwf as (Hr & Hl & Hi).
  destruct (healthy_replicas r) as [|h hs] eqn:Eh.
  { exists r, (primary r). now split. }
  cbn [Written.nonempty]. rewrite <- Eh. cbv zeta.
  assert (Hne : healthy_replicas r <> []) by (rewrite Eh; discriminate).
  destruct (String.eqb (strategy r) "RANDOM") eqn:Es.
  - apply String.eqb_eq in Es.
    destruct (at_index_rem (healthy_replicas r) now (Hnow Es) Hne) as (db & Hat & Hlk).
    rewrite Hat. cbn [get]. exists r, db. split; [reflexivity|].
    apply healthy_is_status_true. apply list_elem_of_In.
    now apply list_elem_of_lookup_2 in Hlk.
  - destruct (at_index_rem (healthy_replicas r) (replicaIndex r) ltac:(lia) Hne)
      as (db & Hat & Hlk).
    rewrite Hat. cbn [get]. eexists _, db. split; [reflexivity|].
    apply healthy_is_status_true. apply list_elem_of_In.
    now apply list_elem_of_lookup_2 in Hlk.
Qed.

Lemma reads_round_robin (n : nat) :
  forall (r : Router) (now : Z),
    well_formed r ->
    String.eqb (strategy r) "RANDOM" = false ->
    healthy_replicas r <> [] ->
    replicaIndex r + Z.of_nat n < 2 ^ 63 - 1 ->
    exists r',
      reads r now n
      = Ok (r',
            omap (fun j => healthy_replicas r
                           !! Z.to_nat ((replicaIndex r + Z.of_nat j)
                                        mod Z.of_nat (length (healthy_replicas r))))
              (seq 0 n)) /\
      length (omap (fun j => healthy_replicas r
                           !! Z.to_nat ((replicaIndex r + Z.of_nat j)
                                        mod Z.of_nat (length (healthy_replicas r))))
              (seq 0 n)) = n.
Proof.
  induction n as [|n IH]; intros r now Hwf Hs Hne Hidx.
  - exists r. now split.
  - cbn [reads]. rewrite (getReadConnection_unfold r now Hwf).
    pose proof Hwf as (Hr & Hl & Hi).
    destruct (healthy_replicas r) as [|h hs] eqn:Eh; [congruence|].
    clear Hne. assert (Hne : healthy_replicas r <> []) by (rewrite Eh; discriminate).
    rewrite <- Eh, Hs. cbv zeta.
    destruct (at_index_rem (healthy_replicas r) (replicaIndex r) ltac:(lia) Hne)
      as (db & Hat & Hlk).
    rewrite Hat. cbn [get].
    set (r1 := mkRouter (primary r) (replicas r) (wrap_int (replicaIndex r + 1))
                 (strategy r) (healthChecker r)).
    assert (Hw : wrap_int (replicaIndex r + 1) = replicaIndex r + 1).
    { unfold wrap_int. rewrite Z.mod_small by lia. lia. }
    assert (Hh1 : healthy_replicas r1 = healthy_replicas r) by reflexivity.
    destruct (IH r1 now) as (r' & Hreads & Hlen).
    + unfold well_formed, r1. cbn. rewrite Hw. repeat split; try assumption; lia.
    + exact Hs.
    + now rewrite Hh1.
    + unfold r1. cbn [replicaIndex]. rewrite Hw. lia.
    + rewrite Hreads. exists r'.
      change (seq 0 (S n)) with (0%nat :: seq 1 n).
      rewrite <- seq_shift. cbn [omap list_omap].
      rewrite Z.add_0_r, Hlk.
      assert (Heq :
        omap (fun j => healthy_replicas r1
                       !! Z.to_nat ((replicaIndex r1 + Z.of_nat j)
                                    mod Z.of_nat (length (healthy_replicas r1))))
          (seq 0 n)
        = omap (fun j => healthy_replicas r
                       !! Z.to_nat ((replicaIndex r + Z.of_nat j)
                                    mod Z.of_nat (length (healthy_replicas r))))
            (map S (seq 0 n))).
      { rewrite Hh1. unfold r1. cbn [replicaIndex]. rewrite Hw.
        generalize (seq 0 n). intros l.
        induction l as [|j l IHl]; [reflexivity|].
        cbn [omap list_omap map].
        replace (replicaIndex r + 1 + Z.of_nat j)
          with (replicaIndex r + Z.of_nat (S j)) by lia.
        now rewrite IHl. }
      rewrite <- Heq. split; [reflexivity|]. cbn [length]. now rewrite Hlen.
Qed.

(** X30.  Round robin is fair: on a well-formed router with a strategy
    other than RANDOM and [k >= 1] healthy replicas, [k] reads in a row
    (no health check in between) get every healthy replica once, in the
    order of the replica list started at [replicaIndex mod k]. *)
Theorem round_robin_is_fair (r : Router) (now : Z) :
  well_formed r ->
  strategy r <> "RANDOM" ->
  healthy_replicas r <> [] ->
  replicaIndex r + Z.of_nat (length (healthy_replicas r)) < 2 ^ 63 - 1 ->
  exists r',
    reads r now (length (healthy_replicas r))
    = Ok (r', rotate (Z.to_nat (replicaIndex r)) (healthy_replicas r)).
Proof.
  intros Hwf Hs Hne Hidx.
  assert (Hs' : String.eqb (strategy r) "RANDOM" = false)
    by now apply String.eqb_neq.
  destruct (reads_round_robin (length (healthy_replicas r)) r now Hwf Hs' Hne Hidx)
    as (r' & Hreads & Hlen).
  exists r'. rewrite Hreads. do 2 f_equal.
  destruct Hwf as (_ & _ & Hi).
  set (h := healthy_replicas r) in *.
  assert (Hk : (0 < length h)%nat) by (destruct h; [congruence | cbn; lia]).
  apply list_eq. intros j.
  destruct (decide (j < length h)%nat) as [Hj|Hj].
  - rewrite lookup_rotate_r by exact Hj.
    unfold rotate_nat_add.
    assert (Hin : seq 0 (length h) !! j = Some j) by (apply lookup_seq; lia).
    clear Hreads Hlen.
    assert (Hgen : forall (l : list nat) (f : nat -> option DB),
               Forall (fun a => is_Some (f a)) l ->
               forall i a, l !! i = Some a -> omap f l !! i = f a).
    { induction l as [|a0 l IHl]; intros f HF i a Hl; [discriminate|].
      apply Forall_cons in HF as [[x Hx] HF]. cbn [omap list_omap]. rewrite Hx.
      destruct i as [|i]; cbn in *; [injection Hl as <-; now rewrite Hx|].
      now apply IHl. }
    assert (HF : Forall (fun a => is_Some (h !! Z.to_nat ((replicaIndex r + Z.of_nat a)
                                             mod Z.of_nat (length h))))
                   (seq 0 (length h))).
    { apply List.Forall_forall. intros a _.
      apply lookup_lt_is_Some.
      pose proof (Z.mod_pos_bound (replicaIndex r + Z.of_nat a) (Z.of_nat (length h))
                    ltac:(lia)). lia. }
    rewrite (Hgen _ _ HF j j Hin).
    rewrite Z2Nat.id by lia. reflexivity.
  - rewrite !lookup_ge_None_2; [reflexivity | rewrite length_rotate; lia | lia].
Qed.

Lemma reads_avoid_unhealthy_witness :
  let r := mkRouter 0 [1; 2; 3] 4 "ROUND_ROBIN" (mkHealthChecker [1; 2; 3] [true; false; true]) in
  exists r' db,
    getReadConnection r 0 = Ok (r', db) /\
    In (db, true) (combine [1; 2; 3] [true; false; true]).
Proof.
  apply (reads_avoid_unhealthy
           (mkRouter 0 [1; 2; 3] 4 "ROUND_ROBIN"
              (mkHealthChecker [1; 2; 3] [true; false; true])) 0).
  - unfold well_formed. cbn. repeat split; lia.
  - discriminate.
Defined.

Lemma round_robin_is_fair_witness :
  let r := mkRouter 0 [1; 2; 3] 4 "ROUND_ROBIN" (mkHealthChecker [1; 2; 3] [true; true; true]) in
  exists r', reads r 0 3 = Ok (r', [2; 3; 1]).
Proof.
  apply (round_robin_is_fair
           (mkRouter 0 [1; 2; 3] 4 "ROUND_ROBIN"
              (mkHealthChecker [1; 2; 3] [true; true; true])) 0).
  - unfold well_formed. cbn. repeat split; lia.
  - discriminate.
  - discriminate.
  - cbn. lia.
Defined.

End ReplicaFacts.
